(** * price-updater: the price grammar, the markup transform and the two-pass
      PDF rewrite of [script.py], embedded and verified.

    Python values are modelled as follows.
    - [str] is a list of Unicode code points ([N]); literals are written
      [u "..."] and decoded from UTF-8.
    - [int] is [Z]; [float] is IEEE-754 binary64, computed exactly with the
      standard library's [SpecFloat] (round to nearest, ties to even).
    - exceptions are the [Raise] branch of [result].
    - the [re] module is a backtracking matcher over a small regex syntax;
      the two patterns of the script are written in that syntax next to
      their source text.
    - the PyMuPDF document is the journal of drawing operations applied to
      it, page by page. *)

From Stdlib Require Import String Ascii.
From Stdlib Require Import List ZArith NArith Lia Bool DecimalPos DecimalN.
From Stdlib Require Import Floats.SpecFloat.
From Stdlib Require Import Sorted.
Import ListNotations.

Set Implicit Arguments.
Local Open Scope N_scope.

(** ** Strings *)

Definition cp := N.
Definition str := list cp.

Fixpoint utf8 (l : list N) : str :=
  match l with
  | [] => []
  | b0 :: t =>
    if b0 <? 128 then b0 :: utf8 t
    else if b0 <? 224 then
      match t with
      | b1 :: t1 => (b0 mod 32 * 64 + b1 mod 64) :: utf8 t1
      | _ => []
      end
    else if b0 <? 240 then
      match t with
      | b1 :: b2 :: t2 => (b0 mod 16 * 4096 + b1 mod 64 * 64 + b2 mod 64) :: utf8 t2
      | _ => []
      end
    else
      match t with
      | b1 :: b2 :: b3 :: t3 =>
        (b0 mod 8 * 262144 + b1 mod 64 * 4096 + b2 mod 64 * 64 + b3 mod 64) :: utf8 t3
      | _ => []
      end
  end.

(** [u "text"] is the Python string with that text. *)
Definition u (s : string) : str :=
  utf8 (map N_of_ascii (list_ascii_of_string s)).

Fixpoint str_eqb (a b : str) : bool :=
  match a, b with
  | [], [] => true
  | x :: a', y :: b' => (x =? y) && str_eqb a' b'
  | _, _ => false
  end.

(** [s.replace(c, "")] for a one-character [c]. *)
Definition remove_char (c : cp) (s : str) : str :=
  filter (fun x => negb (x =? c)) s.

(** [s.replace(c, d)] for one-character [c] and [d]. *)
Definition replace_char (c d : cp) (s : str) : str :=
  map (fun x => if x =? c then d else x) s.

(** ** The character tables of the [re] module (Unicode 14.0, CPython 3.11) *)

(** The code point of digit zero of every block of decimal digits (general
    category Nd); the ten digits of a block are consecutive. *)
Definition nd_zeros : list cp :=
  [48; 1632; 1776; 1984; 2406; 2534; 2662; 2790; 2918; 3046; 3174; 3302;
   3430; 3558; 3664; 3792; 3872; 4160; 4240; 6112; 6160; 6470; 6608; 6784;
   6800; 6992; 7088; 7232; 7248; 42528; 43216; 43264; 43472; 43504; 43600;
   44016; 65296; 66720; 68912; 69734; 69872; 69942; 70096; 70384; 70736;
   70864; 71248; 71360; 71472; 71904; 72016; 72784; 73040; 73120; 92768;
   92864; 93008; 120782; 120792; 120802; 120812; 120822; 123200; 123632;
   125264; 130032].

Definition in_block (c z : cp) : bool := (z <=? c) && (c <? z + 10).

(** [\d] on a [str] pattern. *)
Definition is_digit (c : cp) : bool := existsb (in_block c) nd_zeros.

(** The decimal value of a digit, as [float] and [int] read it. *)
Definition digit_value (c : cp) : Z :=
  match find (in_block c) nd_zeros with
  | Some z => Z.of_N (c - z)
  | None => 0%Z
  end.

(** [\s] on a [str] pattern. *)
Definition spaces : list cp :=
  [9; 10; 11; 12; 13; 28; 29; 30; 31; 32; 133; 160; 5760; 8192; 8193; 8194;
   8195; 8196; 8197; 8198; 8199; 8200; 8201; 8202; 8232; 8233; 8239; 8287;
   12288].

Definition is_space (c : cp) : bool := existsb (N.eqb c) spaces.

(** The characters a literal matches under [re.IGNORECASE]: those with the
    same lower case, and the case equivalences the module adds. *)
Definition ignorecase (c : cp) : list cp :=
  match c with
  | 1057 | 1089 => [1057; 1089; 7299]          (* С с *)
  | 1058 | 1090 => [1058; 1090; 7300; 7301]    (* Т т *)
  | 1054 | 1086 => [1054; 1086; 7298]          (* О о *)
  | 1048 | 1080 => [1048; 1080]                (* И и *)
  | 1052 | 1084 => [1052; 1084]                (* М м *)
  | 1068 | 1100 => [1068; 1100]                (* Ь ь *)
  | _ => [c]                                   (* - – € . and the space *)
  end.

(** ** Exceptions *)

Inductive exn := ValueError | OverflowError | IndexError | AttributeError.

Inductive result (A : Type) :=
| Ok (a : A)
| Raise (e : exn).
Arguments Ok {A} a.
Arguments Raise {A} e.

Definition bind {A B} (r : result A) (f : A -> result B) : result B :=
  match r with
  | Ok a => f a
  | Raise e => Raise e
  end.

(** ** The [re] module *)

Module Re.

(** Character sets: [\d], [\s], and an explicit set (a literal is a set of
    one character, or of its case variants). *)
Inductive cset :=
| Digit
| Space
| OneOf (l : list cp).

Definition in_cset (k : cset) (c : cp) : bool :=
  match k with
  | Digit => is_digit c
  | Space => is_space c
  | OneOf l => existsb (N.eqb c) l
  end.

(** The syntax, as [sre_parse] produces it: [Rep lo hi r] is the greedy
    [r{lo,hi}], with [hi = None] for no upper bound; [Grp g r] captures
    group number [g]; [NLook r] is [(?!r)]. *)
Inductive regex :=
| Chr (k : cset)
| Seq (a b : regex)
| Alt (a b : regex)
| Rep (lo : nat) (hi : option nat) (a : regex)
| Grp (g : nat) (a : regex)
| NLook (a : regex).

Definition Star a := Rep 0 None a.
Definition Plus a := Rep 1 None a.
Definition Opt a := Rep 0 (Some 1%nat) a.
Definition Lit (c : cp) := Chr (OneOf [c]).
Definition LitI (c : cp) := Chr (OneOf (ignorecase c)).

(** A matcher state: the text still to read and the groups closed so far
    (most recent first). *)
Record st := { rest : str; caps : list (nat * str) }.

Definition taken (s s' : st) : str :=
  firstn (length (rest s) - length (rest s')) (rest s).

Section Repeat.
Variable body : st -> list st.

(** [n] mandatory iterations. *)
Fixpoint rep_req (n : nat) (s : st) : list st :=
  match n with
  | O => [s]
  | S n' => flat_map (rep_req n') (body s)
  end.

(** Up to [n] further iterations, the longest first; an iteration that
    reads nothing ends the loop. *)
Fixpoint rep_opt (n : nat) (s : st) : list st :=
  match n with
  | O => [s]
  | S n' =>
    flat_map (fun s' =>
                if (length (rest s') <? length (rest s))%nat
                then rep_opt n' s' else [])
             (body s) ++ [s]
  end.
End Repeat.

(** [exits r s]: every state in which a match of [r] started at [s] can
    end, in the order the backtracking matcher tries them. The matcher
    commits to the first state from which the remainder of the pattern
    succeeds. *)
Fixpoint exits (r : regex) (s : st) : list st :=
  match r with
  | Chr k =>
    match rest s with
    | c :: t => if in_cset k c then [{| rest := t; caps := caps s |}] else []
    | [] => []
    end
  | Seq a b => flat_map (exits b) (exits a s)
  | Alt a b => exits a s ++ exits b s
  | Rep lo hi a =>
    let more := match hi with
                | Some h => (h - lo)%nat
                | None => length (rest s)
                end in
    flat_map (rep_opt (exits a) more) (rep_req (exits a) lo s)
  | Grp g a =>
    map (fun s' => {| rest := rest s'; caps := (g, taken s s') :: caps s' |})
        (exits a s)
  | NLook a =>
    match exits a s with
    | [] => [s]
    | _ :: _ => []
    end
  end.

(** A match object: where the match starts, group 0 and the other groups. *)
Record mobj := { m_start : nat; m_whole : str; m_groups : list (nat * str) }.

Definition match_at (r : regex) (start : nat) (text : str) : option mobj :=
  let s := {| rest := text; caps := [] |} in
  match exits r s with
  | s' :: _ => Some {| m_start := start; m_whole := taken s s'; m_groups := caps s' |}
  | [] => None
  end.

(** [re.search] from position [start], [text] being what is left there. *)
Fixpoint search_from (r : regex) (start : nat) (text : str) : option mobj :=
  match match_at r start text with
  | Some m => Some m
  | None =>
    match text with
    | [] => None
    | _ :: t => search_from r (S start) t
    end
  end.

Definition search (r : regex) (text : str) : option mobj := search_from r 0 text.

(** [m.group(g)], [None] when the group took no part in the match. *)
Definition group (m : mobj) (g : nat) : option str :=
  match find (fun p => Nat.eqb (fst p) g) (m_groups m) with
  | Some p => Some (snd p)
  | None => None
  end.

(** [re.finditer]: the successive non-overlapping matches, left to right.
    After a match the scan restarts where it ended (one character further
    when the match is empty). This is CPython's scan for a pattern that
    matches no empty text, as [price_pattern], the only pattern the script
    scans with; after an empty match CPython first looks for a match that
    is not empty at the same place, which is not modelled. *)
Fixpoint finditer_from (fuel : nat) (r : regex) (start : nat) (text : str)
  : list mobj :=
  match fuel with
  | O => []
  | S fuel' =>
    match search_from r start text with
    | None => []
    | Some m =>
      let skip := (m_start m - start + Nat.max 1 (length (m_whole m)))%nat in
      m :: finditer_from fuel' r (start + skip) (skipn skip text)
    end
  end.

Definition finditer (r : regex) (text : str) : list mobj :=
  finditer_from (S (length text)) r 0 text.

End Re.
Import Re.

(** ** The two patterns of the script *)

Definition digits (lo : nat) (hi : option nat) := Rep lo hi (Chr Digit).

(** [[\. ]]. *)
Definition sep := Chr (OneOf [46; 32]).

(** The pattern of [apply_markup]; token by token:
      ( \d{1,3} (?: [\. ] \d{3} )* (?!\d) | \d+ ) *)
Definition value_re : regex :=
  Grp 1 (Alt (Seq (digits 1 (Some 3%nat))
                  (Seq (Star (Seq sep (digits 3 (Some 3%nat))))
                       (NLook (Chr Digit))))
             (digits 1 None)).

(** ** Numbers *)

Local Open Scope Z_scope.

(** [float]: IEEE-754 binary64. *)
Definition float := spec_float.
Definition prec := 53.
Definition emax := 1024.

Definition fmul : float -> float -> float := SFmul prec emax.
Definition fadd : float -> float -> float := SFadd prec emax.
Definition fdiv : float -> float -> float := SFdiv prec emax.

(** The [float] nearest to an integer. *)
Definition float_of_Z (n : Z) : float := binary_normalize prec emax n 0 false.

(** The literals [1.0], [1.05] and [1.10] ([float.hex] gives
    [0x1.0000000000000p+0], [0x1.0cccccccccccdp+0], [0x1.199999999999ap+0]). *)
Definition f_1_0 : float := S754_finite false 4503599627370496 (-52).
Definition f_1_05 : float := S754_finite false 4728779608739021 (-52).
Definition f_1_10 : float := S754_finite false 4953959590107546 (-52).

(** The value of a run of decimal digits. *)
Definition dec_value (s : str) : Z :=
  fold_left (fun acc c => 10 * acc + digit_value c) s 0.

(** [float(s)] for a string [s] of decimal digits, the only strings the
    script converts (see [raw_val_digits]): the nearest [float], infinity
    when it is out of range. The rest of the numeric-literal grammar is not
    modelled; such a string is reported as the [ValueError] of a malformed
    literal. *)
Definition float_of_str (s : str) : result float :=
  match s with
  | [] => Raise ValueError
  | _ :: _ =>
    if forallb is_digit s then Ok (float_of_Z (dec_value s))
    else Raise ValueError
  end.

(** Nearest integer of [m / 2^k], ties to the even one. *)
Definition round_half_even (m : Z) (k : Z) : Z :=
  let d := 2 ^ k in
  let q := m / d in
  let r := m mod d in
  match 2 * r ?= d with
  | Lt => q
  | Gt => q + 1
  | Eq => if Z.even q then q else q + 1
  end.

(** [round(x)] with one argument: an [int], ties to even; infinities and
    NaN cannot be converted. *)
Definition py_round (x : float) : result Z :=
  match x with
  | S754_zero _ => Ok 0
  | S754_infinity _ => Raise OverflowError
  | S754_nan => Raise ValueError
  | S754_finite s m e =>
    let a := if 0 <=? e then Z.pos m * 2 ^ e else round_half_even (Z.pos m) (- e) in
    Ok (if s then - a else a)
  end.

(** ** Formatting *)

Fixpoint uint_chars (d : Decimal.uint) : str :=
  match d with
  | Decimal.Nil => []
  | Decimal.D0 d' => 48%N :: uint_chars d'
  | Decimal.D1 d' => 49%N :: uint_chars d'
  | Decimal.D2 d' => 50%N :: uint_chars d'
  | Decimal.D3 d' => 51%N :: uint_chars d'
  | Decimal.D4 d' => 52%N :: uint_chars d'
  | Decimal.D5 d' => 53%N :: uint_chars d'
  | Decimal.D6 d' => 54%N :: uint_chars d'
  | Decimal.D7 d' => 55%N :: uint_chars d'
  | Decimal.D8 d' => 56%N :: uint_chars d'
  | Decimal.D9 d' => 57%N :: uint_chars d'
  end.

(** The decimal digits of a natural number, ["0"] for zero. *)
Definition decimal (n : N) : str := uint_chars (N.to_uint n).

(** Groups of three digits, each preceded by a comma. *)
Fixpoint comma_groups (l : str) : str :=
  match l with
  | a :: b :: c :: t => 44%N :: a :: b :: c :: comma_groups t
  | _ => []
  end.

(** Thousands grouping: a first group of one to three digits, then groups
    of three. *)
Definition group_thousands (ds : str) : str :=
  let k := S ((length ds - 1) mod 3) in
  firstn k ds ++ comma_groups (skipn k ds).

(** [f"{n:,}"]. *)
Definition format_commas (n : Z) : str :=
  match n with
  | Z0 => decimal 0
  | Zpos p => group_thousands (decimal (Npos p))
  | Zneg p => 45%N :: group_thousands (decimal (Npos p))
  end.

(** ** [apply_markup] *)

(** [try: body except ValueError: handler]. *)
Definition except_ValueError {A} (body : result A) (handler : result A) : result A :=
  match body with
  | Raise ValueError => handler
  | r => r
  end.

(** [val_match.group(1).replace(" ", "").replace(".", "")]. *)
Definition strip_separators (g : str) : str :=
  remove_char 46%N (remove_char 32%N g).

(** [apply_markup(text, original_prefix, original_currency, multiplier)];
    the default of [multiplier] is [f_1_05]. *)
Definition apply_markup (text original_prefix original_currency : str)
           (multiplier : float) : result str :=
  match search value_re text with
  | None => Ok text
  | Some val_match =>
    match group val_match 1 with
    | None => Raise AttributeError
    | Some g =>
      let raw_val := strip_separators g in
      except_ValueError
        (bind (float_of_str raw_val) (fun f =>
         bind (py_round (fmul f multiplier)) (fun final_val =>
         let formatted_val := replace_char 44%N 32%N (format_commas final_val) in
         Ok (original_prefix ++ formatted_val ++ [32%N] ++ original_currency))))
        (Ok text)
    end
  end.

(** ** [process_span] and [extract_prices_from_page] *)

(** A literal word followed by [r], under [re.IGNORECASE]. *)
Definition word_then (w : str) (r : regex) : regex :=
  fold_right (fun c r' => Seq (LitI c) r') r w.

(** The named groups of [price_pattern]. *)
Definition g_prefix := 1%nat.
Definition g_value := 2%nat.
Definition g_currency := 3%nat.

(** [price_pattern], compiled with [re.IGNORECASE]; token by token (the
    blanks between tokens are not part of the pattern, the class holds a
    period and a space):
      (?P<prefix> Стоимость \s* [-–]? \s* )?
      (?P<value> \d{1,3} (?: [\. ] \d{3} )* | \d+ )
      \s*
      (?P<currency> € ) *)
Definition prefix_re : regex :=
  word_then (u "Стоимость")
    (Seq (Star (Chr Space))
         (Seq (Opt (Chr (OneOf [45%N; 8211%N])))
              (Star (Chr Space)))).

Definition price_value_re : regex :=
  Alt (Seq (digits 1 (Some 3%nat)) (Star (Seq sep (digits 3 (Some 3%nat)))))
      (digits 1 None).

Definition currency_re : regex := LitI 8364%N.

Definition price_pattern : regex :=
  Seq (Opt (Grp g_prefix prefix_re))
      (Seq (Grp g_value price_value_re)
           (Seq (Star (Chr Space))
                (Grp g_currency currency_re))).

(** A span of [page.get_text("dict")], with the keys the script reads. *)
Definition point := (float * float)%type.
Definition bbox := (float * float * float * float)%type.

Record span := {
  sp_text : str;
  sp_bbox : bbox;
  sp_origin : point;
  sp_size : float;
  sp_color : Z
}.

(** A block has lines only when it is a text block; a line is its spans. *)
Record block := { lines : option (list (list span)) }.
Definition page_text := list block.

(** A found price (the dictionary built by [process_span]). *)
Record item := {
  page : Z;
  original_text : str;
  prefix : str;
  value : str;
  currency : str;
  i_bbox : bbox;
  origin : point;
  font_size : float;
  color : Z
}.

(** [match.group(name) or ""]; for the groups [value] and [currency], which
    take part in every match of [price_pattern] (see
    [price_groups_present]), this is [match.group(name)]. *)
Definition group_or_empty (m : mobj) (g : nat) : str :=
  match group m g with
  | Some x => x
  | None => []
  end.

(** [process_span(span, page_num, price_pattern)]. The groups are read by
    their numbers, those of the named groups of [price_pattern], the only
    pattern the script passes; a pattern without these groups, for which
    [match.group] raises, is outside the model. *)
Definition process_span (sp : span) (page_num : Z) (pattern : regex) : list item :=
  map (fun m =>
         {| page := page_num + 1;
            original_text := m_whole m;
            prefix := group_or_empty m g_prefix;
            value := group_or_empty m g_value;
            currency := group_or_empty m g_currency;
            i_bbox := sp_bbox sp;
            origin := sp_origin sp;
            font_size := sp_size sp;
            color := sp_color sp |})
      (finditer pattern (sp_text sp)).

Definition extract_prices_from_page (pg : page_text) (page_num : Z) : list item :=
  flat_map (fun b =>
              match lines b with
              | Some ls =>
                flat_map (fun line =>
                            flat_map (fun sp => process_span sp page_num price_pattern) line)
                         ls
              | None => []
              end)
           pg.

(** ** [main] *)

(** [enumerate]. *)
Fixpoint enumerate_from {A} (i : Z) (l : list A) : list (Z * A) :=
  match l with
  | [] => []
  | a :: t => (i, a) :: enumerate_from (i + 1) t
  end.
Definition enumerate {A} (l : list A) := enumerate_from 0 l.

(** [l[i]] on a list. *)
Definition py_index {A} (l : list A) (i : Z) : result A :=
  let n := Z.of_nat (length l) in
  let j := if i <? 0 then i + n else i in
  if (0 <=? j) && (j <? n) then
    match nth_error l (Z.to_nat j) with
    | Some a => Ok a
    | None => Raise IndexError
    end
  else Raise IndexError.

(** The extraction phase: every page scanned in order. *)
Definition scan (doc : list page_text) : list item :=
  flat_map (fun ip => extract_prices_from_page (snd ip) (fst ip)) (enumerate doc).

(** [1 + (markup_percent / 100)]. *)
Definition markup_multiplier (markup_percent : float) : float :=
  fadd (float_of_Z 1) (fdiv markup_percent (float_of_Z 100)).

(** A row of the editable table. The cell [New Text] is taken to hold a
    text; an emptied cell, which the data editor returns as [None], is not
    represented. *)
Record row := {
  ID : Z;
  Page : Z;
  Original_Text : str;
  New_Text : str
}.

(** [map] for a function that may raise, left to right. *)
Fixpoint map_result {A B} (f : A -> result B) (l : list A) : result (list B) :=
  match l with
  | [] => Ok []
  | a :: t => bind (f a) (fun b => bind (map_result f t) (fun bs => Ok (b :: bs)))
  end.

(** The table shown to the user, one row per found price. *)
Definition data_for_df (all_prices : list item) (multiplier : float)
  : result (list row) :=
  map_result (fun ii =>
                let '(idx, it) := ii in
                bind (apply_markup (original_text it) (prefix it) (currency it) multiplier)
                     (fun new_price_text =>
                        Ok {| ID := idx;
                              Page := page it;
                              Original_Text := original_text it;
                              New_Text := new_price_text |}))
             (enumerate all_prices).

(** *** The document being rewritten *)

Definition rgb := (Z * Z * Z)%type.

(** The drawing operations the script asks of a page. *)
Inductive op :=
| DrawRect (rect : bbox) (color fill : rgb) (overlay : bool)
| InsertFont (fontname fontfile : str)
| InsertText (at_point : point) (text : str) (fontsize : float)
             (fontname : str) (color : Z).

(** [doc_new]: the pages of the uploaded file and, in the order they were
    applied, the operations drawn over them, each with its page number. *)
Record document := { page_count : Z; journal : list (Z * op) }.

(** Stateful code that may raise: the document is threaded through, and
    is kept as it was when an exception leaves the code. *)
Definition M (A : Type) := document -> result A * document.

Definition ret {A} (a : A) : M A := fun d => (Ok a, d).
Definition bindM {A B} (m : M A) (f : A -> M B) : M B :=
  fun d => match m d with
           | (Ok a, d') => f a d'
           | (Raise e, d') => (Raise e, d')
           end.
Definition lift {A} (r : result A) : M A := fun d => (r, d).

Notation "x <- m ;; k" := (bindM m (fun x => k))
  (at level 61, m at next level, right associativity).
Notation "m ;;; k" := (bindM m (fun _ => k))
  (at level 61, right associativity).

(** [for x in l: body(x)]. *)
Fixpoint for_each {A} (l : list A) (body : A -> M unit) : M unit :=
  match l with
  | [] => ret tt
  | a :: t => body a ;;; for_each t body
  end.

(** [doc_new[i]]: PyMuPDF accepts every page number below [page_count],
    the negative ones counting from the end. *)
Definition get_page (i : Z) : M Z :=
  fun d => if (i <? page_count d) && (0 <? page_count d)
           then (Ok (i mod page_count d), d)
           else (Raise IndexError, d).

Definition draw (pg : Z) (o : op) : M unit :=
  fun d => (Ok tt, {| page_count := page_count d; journal := journal d ++ [(pg, o)] |}).

Definition white : rgb := (1, 1, 1).

(** [font_name not in page.get_fonts()]: [get_fonts] returns a list of
    tuples, which a string never equals, so the test holds whatever fonts
    the page has. *)
Definition font_missing (font_name : str) (pg : Z) : M bool := ret true.

(** [page.insert_font(fontname, fontfile)]: raises when the font file
    cannot be read; [font_file] says whether it can. *)
Definition insert_font (font_file : bool) (pg : Z) (fontname fontfile : str) : M unit :=
  if font_file then draw pg (InsertFont fontname fontfile)
  else lift (Raise ValueError).

(** [try: body except Exception: handler]. *)
Definition except_Exception {A} (body : M A) (handler : M A) : M A :=
  fun d => match body d with
           | (Ok a, d') => (Ok a, d')
           | (Raise _, d') => handler d'
           end.

Section Generation.
Variable font_file : bool.
Variable all_prices : list item.

(** Whether the row's text differs from the found one. *)
Definition changed (r : row) (original_item : item) : bool :=
  negb (str_eqb (New_Text r) (original_text original_item)).

(** The body of the first loop: whiteout. *)
Definition pass1 (r : row) : M unit :=
  let original_idx := ID r in
  original_item <- lift (py_index all_prices original_idx) ;;
  if changed r original_item then
    pg <- get_page (page original_item - 1) ;;
    draw pg (DrawRect (i_bbox original_item) white white true)
  else ret tt.

(** The body of the second loop: insert the new text. *)
Definition pass2 (r : row) : M unit :=
  let original_idx := ID r in
  let new_text_val := New_Text r in
  original_item <- lift (py_index all_prices original_idx) ;;
  if changed r original_item then
    pg <- get_page (page original_item - 1) ;;
    let '(x0, _, _, _) := i_bbox original_item in
    display_text <- lift (apply_markup new_text_val (prefix original_item)
                                        (currency original_item) f_1_0) ;;
    missing <- font_missing (u "dejavu") pg ;;
    font_name <- (if missing : bool then
                    except_Exception
                      (insert_font font_file pg (u "dejavu") (u "DejaVuSans.ttf") ;;;
                       ret (u "dejavu"))
                      (ret (u "helv"))
                  else ret (u "dejavu")) ;;
    draw pg (InsertText (x0, snd (origin original_item)) display_text
                        (font_size original_item) font_name 0)
  else ret tt.

(** The generation phase. *)
Definition generate (edited_rows : list row) : M unit :=
  for_each edited_rows pass1 ;;;
  for_each edited_rows pass2.
End Generation.

(** What a run of [main] ends with. *)
Inductive outcome :=
| NoPricesFound
| TableShown (data : list row)
| Generated (doc_new : document).

(** [main], the user interface being its parameters: the uploaded
    document, the markup entered, the edits made to the table, whether the
    button was pressed, and whether the bundled font file is there. *)
Definition main (doc : list page_text) (markup_percent : float)
           (data_editor : list row -> list row) (button font_file : bool)
  : result outcome :=
  let all_prices := scan doc in
  match all_prices with
  | [] => Ok NoPricesFound
  | _ :: _ =>
    bind (data_for_df all_prices (markup_multiplier markup_percent)) (fun data =>
    let edited_rows := data_editor data in
    if button then
      let doc_new := {| page_count := Z.of_nat (length doc); journal := [] |} in
      match generate font_file all_prices edited_rows doc_new with
      | (Ok _, d) => Ok (Generated d)
      | (Raise e, _) => Raise e
      end
    else Ok (TableShown edited_rows))
  end.

(** * The vocabulary of the statements *)

(** ** Matcher states and what a regex reads *)

Abbreviation mk r c := (Build_st r c).

(** The characters a regex can read, look-aheads apart. *)
Fixpoint reads (P : cp -> Prop) (r : regex) : Prop :=
  match r with
  | Chr k => forall c, in_cset k c = true -> P c
  | Seq a b | Alt a b => reads P a /\ reads P b
  | Rep _ _ a | Grp _ a => reads P a
  | NLook _ => True
  end.

(** [s'] is [s] further along the text, the characters between them
    satisfying [P]. *)
Definition ahead (P : cp -> Prop) (s s' : st) : Prop :=
  exists w, rest s = w ++ rest s' /\ Forall P w.

(** A regex without capturing groups. *)
Fixpoint group_free (r : regex) : Prop :=
  match r with
  | Chr _ | NLook _ => True
  | Seq a b | Alt a b => group_free a /\ group_free b
  | Rep _ _ a => group_free a
  | Grp _ _ => False
  end.

(** Every capturing group [g] of the regex reads a text satisfying [Q g]. *)
Fixpoint groups_read (Q : nat -> str -> Prop) (r : regex) : Prop :=
  match r with
  | Chr _ | NLook _ => True
  | Seq a b | Alt a b => groups_read Q a /\ groups_read Q b
  | Rep _ _ a => groups_read Q a
  | Grp g a => (forall s s', In s' (exits a s) -> Q g (taken s s')) /\ groups_read Q a
  end.

Definition caps_read (Q : nat -> str -> Prop) (cs : list (nat * str)) : Prop :=
  Forall (fun gw => Q (fst gw) (snd gw)) cs.

(** ** Digits in a text *)

(** The text holds no digit. *)
Definition no_digit (l : str) : Prop := Forall (fun c => is_digit c = false) l.

(** The text does not go on with a digit. *)
Definition no_digit_ahead (l : str) : Prop :=
  match l with
  | [] => True
  | c :: _ => is_digit c = false
  end.

(** A digit, a period or a space. *)
Definition digit_or_sep (c : cp) : Prop :=
  is_digit c = true \/ c = 46%N \/ c = 32%N.

(** One of the digits 0 to 9 of ASCII, which formatting writes. *)
Definition ascii_digit (c : cp) : Prop := (48 <= c <= 57)%N.

(** What follows the first group of a formatted number: groups of a space
    and three digits. *)
Inductive grouped_tail : str -> Prop :=
| gt_nil : grouped_tail []
| gt_cons a b c t :
    is_digit a = true -> is_digit b = true -> is_digit c = true ->
    grouped_tail t -> grouped_tail (32%N :: a :: b :: c :: t).

(** ** The parts of the pattern of [apply_markup] *)

(** A separator and three digits. *)
Definition group3 : regex := Seq sep (digits 3 (Some 3%nat)).

(** The part of the grouped branch after the leading digits: the groups,
    then the look-ahead. *)
Definition groups_then_stop : regex :=
  Seq (Star (Seq sep (digits 3 (Some 3%nat)))) (NLook (Chr Digit)).

(** The grouped branch. *)
Definition grouped : regex := Seq (digits 1 (Some 3%nat)) groups_then_stop.

(** What the three groups of [price_pattern] hold. *)
Definition price_group (g : nat) (w : str) : Prop :=
  match g with
  | 1%nat => no_digit w
  | 3%nat => w = [8364%N]
  | _ => True
  end.

(** ** The result of [apply_markup] *)

(** The text [apply_markup] builds from the rounded number. *)
Definition price_text (p : str) (n : Z) (c : str) : str :=
  p ++ replace_char 44%N 32%N (format_commas n) ++ [32%N] ++ c.

(** What [apply_markup] returns once it has read the number [n] in [text]. *)
Definition scaled (text p c : str) (n : Z) (m : float) : result str :=
  except_ValueError
    (bind (py_round (fmul (float_of_Z n) m)) (fun v => Ok (price_text p v c)))
    (Ok text).


(** A mantissa with no bit shifted out of it. *)
Definition zrec (m : Z) := {| shr_m := m; shr_r := false; shr_s := false |}.

(** ** The plan of the generation phase *)

(** The document with further operations drawn. *)
Definition add_ops (d : document) (ops : list (Z * op)) : document :=
  {| page_count := page_count d; journal := journal d ++ ops |}.

(** The page [doc_new[i]] of a document of [pc] pages. *)
Definition page_of (pc i : Z) : result Z :=
  if (i <? pc) && (0 <? pc) then Ok (i mod pc) else Raise IndexError.

(** [rect.x0]. *)
Definition x0_of (b : bbox) : float := let '(x0, _, _, _) := b in x0.

(** A whiteout. *)
Definition is_erase (e : Z * op) : bool :=
  match snd e with
  | DrawRect _ _ _ _ => true
  | _ => false
  end.

(** An inserted text. *)
Definition is_text (e : Z * op) : bool :=
  match snd e with
  | InsertText _ _ _ _ _ => true
  | _ => false
  end.

Section Directives.
Variable font_file : bool.
Variable all_prices : list item.
Variable pc : Z.

(** What the first loop draws for a row. *)
Definition whiteout_of (r : row) : result (list (Z * op)) :=
  bind (py_index all_prices (ID r)) (fun it =>
  if changed r it then
    bind (page_of pc (page it - 1)) (fun pg =>
    Ok [(pg, DrawRect (i_bbox it) white white true)])
  else Ok []).

(** What the second loop draws for a row. *)
Definition insertion_of (r : row) : result (list (Z * op)) :=
  bind (py_index all_prices (ID r)) (fun it =>
  if changed r it then
    bind (page_of pc (page it - 1)) (fun pg =>
    bind (apply_markup (New_Text r) (prefix it) (currency it) f_1_0)
         (fun display_text =>
    Ok ((if font_file then [(pg, InsertFont (u "dejavu") (u "DejaVuSans.ttf"))]
         else [])
        ++ [(pg, InsertText (x0_of (i_bbox it), snd (origin it)) display_text
                            (font_size it)
                            (if font_file then u "dejavu" else u "helv") 0)])))
  else Ok []).

(** A loop over the rows: what it draws, up to the first exception. *)
Fixpoint run (f : row -> result (list (Z * op))) (rows : list row)
  : result unit * list (Z * op) :=
  match rows with
  | [] => (Ok tt, [])
  | r :: t =>
    match f r with
    | Ok ops => let '(res, ops') := run f t in (res, ops ++ ops')
    | Raise e => (Raise e, [])
    end
  end.
End Directives.

(** What the data editor leaves of a row: the columns [ID], [Page] and
    [Original Text] are disabled and rows are neither added nor removed,
    so only [New Text] can differ. *)
Definition same_keys (r r' : row) : Prop :=
  ID r = ID r' /\ Page r = Page r' /\ Original_Text r = Original_Text r'.

(** ** Examples *)

(** A span with a labelled price, and the price found in it. *)
Definition example_span : span :=
  {| sp_text := u "Стоимость 35 000 €";
     sp_bbox := (float_of_Z 72, float_of_Z 100, float_of_Z 200, float_of_Z 112);
     sp_origin := (float_of_Z 72, float_of_Z 110);
     sp_size := float_of_Z 12;
     sp_color := 0 |}.

Definition example_item : item :=
  {| page := 1;
     original_text := u "Стоимость 35 000 €";
     prefix := u "Стоимость ";
     value := u "35 000";
     currency := u "€";
     i_bbox := sp_bbox example_span;
     origin := sp_origin example_span;
     font_size := sp_size example_span;
     color := 0 |}.

(** A document of one page, nothing drawn yet. *)
Definition one_page : document := {| page_count := 1; journal := [] |}.

(** Two prices of one line whose boxes overlap. *)
Definition left_item : item :=
  {| page := 1; original_text := u "10 €"; prefix := []; value := u "10";
     currency := u "€";
     i_bbox := (float_of_Z 72, float_of_Z 100, float_of_Z 130, float_of_Z 112);
     origin := (float_of_Z 72, float_of_Z 110);
     font_size := float_of_Z 12; color := 0 |}.

Definition right_item : item :=
  {| page := 1; original_text := u "20 €"; prefix := []; value := u "20";
     currency := u "€";
     i_bbox := (float_of_Z 120, float_of_Z 100, float_of_Z 180, float_of_Z 112);
     origin := (float_of_Z 120, float_of_Z 110);
     font_size := float_of_Z 12; color := 0 |}.


(** A span that holds two prices, and the two prices found in it: they
    share the box of the span. *)
Definition two_price_span : span :=
  {| sp_text := u "10 € / 20 €";
     sp_bbox := (float_of_Z 72, float_of_Z 100, float_of_Z 180, float_of_Z 112);
     sp_origin := (float_of_Z 72, float_of_Z 110);
     sp_size := float_of_Z 12;
     sp_color := 0 |}.

Definition first_price : item :=
  {| page := 1; original_text := u "10 €"; prefix := []; value := u "10";
     currency := u "€"; i_bbox := sp_bbox two_price_span;
     origin := sp_origin two_price_span; font_size := float_of_Z 12; color := 0 |}.

Definition second_price : item :=
  {| page := 1; original_text := u "20 €"; prefix := []; value := u "20";
     currency := u "€"; i_bbox := sp_bbox two_price_span;
     origin := sp_origin two_price_span; font_size := float_of_Z 12; color := 0 |}.

(** ** The scan and the parts of a price *)

(** The texts [ws] occur in the text one after the other, in this order and
    without overlap. *)
Inductive in_order : list str -> str -> Prop :=
| io_nil t : in_order [] t
| io_cons pre w post ws :
    in_order ws post -> in_order (w :: ws) (pre ++ w ++ post).

(** The spans of a page, in reading order. *)
Definition spans_of (pg : page_text) : list span :=
  flat_map (fun b => match lines b with
                     | Some ls => concat ls
                     | None => []
                     end) pg.

(** Groups of a period or a space and three digits. *)
Inductive sep_groups : str -> Prop :=
| sg_nil : sep_groups []
| sg_cons s a b c t :
    s = 46%N \/ s = 32%N ->
    is_digit a = true -> is_digit b = true -> is_digit c = true ->
    sep_groups t -> sep_groups (s :: a :: b :: c :: t).

(** A number as [price_pattern] accepts it: digits, followed by groups
    only when the digits are three at most. *)
Definition price_number (run tail : str) : Prop :=
  run <> [] /\ Forall (fun c => is_digit c = true) run /\ sep_groups tail
  /\ (tail <> [] -> (length run <= 3)%nat).

(** A label as [price_pattern] accepts it: the word in any letter case,
    blanks, a hyphen or an en dash or neither, blanks. *)
Definition price_label (w : str) : Prop :=
  exists word ws1 dash ws2,
    w = word ++ ws1 ++ dash ++ ws2
    /\ Forall2 (fun c x => In x (ignorecase c)) (u "Стоимость") word
    /\ Forall (fun c => is_space c = true) ws1
    /\ (dash = [] \/ dash = [45%N] \/ dash = [8211%N])
    /\ Forall (fun c => is_space c = true) ws2.

(** ** The first number of a text *)



(** ** Rows and operations of the generation phase *)

(** Whether the row is one the user changed: its price is there and its
    text differs from the found one. *)
Definition row_changed (all_prices : list item) (r : row) : bool :=
  match py_index all_prices (ID r) with
  | Ok it => changed r it
  | Raise _ => false
  end.

(** An inserted font. *)
Definition is_font (e : Z * op) : bool :=
  match snd e with
  | InsertFont _ _ => true
  | _ => false
  end.

(** The operation with the font of the fallback in place of the bundled
    one. *)
Definition with_helv (e : Z * op) : Z * op :=
  match snd e with
  | InsertText pt txt size _ col => (fst e, InsertText pt txt size (u "helv") col)
  | _ => e
  end.

(** The operations left when the font file is missing. *)
Definition without_font_file (ops : list (Z * op)) : list (Z * op) :=
  map with_helv (filter (fun e => negb (is_font e)) ops).

(** The copy of the uploaded document the generation phase starts from:
    its pages, nothing drawn yet. *)
Definition fresh_copy (doc : list page_text) : document :=
  {| page_count := Z.of_nat (length doc); journal := [] |}.

(** A [float] that is neither NaN nor negative: a zero, a positive
    finite number or the positive infinity. *)
Definition not_negative (x : float) : Prop :=
  match x with
  | S754_zero _ | S754_infinity false | S754_finite false _ _ => True
  | _ => False
  end.

(** ** Example documents *)

(** A document of one page whose only span holds a price in dollars. *)
Definition dollar_doc : list page_text :=
  [ [ {| lines := Some [ [ {| sp_text := u "Price 35 000 USD";
                              sp_bbox := (float_of_Z 72, float_of_Z 100,
                                          float_of_Z 200, float_of_Z 112);
                              sp_origin := (float_of_Z 72, float_of_Z 110);
                              sp_size := float_of_Z 12;
                              sp_color := 0 |} ] ] |} ] ].

(** A document of one page whose only span is [example_span]. *)
Definition example_doc : list page_text :=
  [ [ {| lines := Some [ [ example_span ] ] |} ] ].

(** * Properties *)

Unset Implicit Arguments.

(** ** Lists *)

Lemma hd_error_app_cons {A} (x : A) (l l' : list A) :
  hd_error ((x :: l) ++ l') = Some x.
Proof. reflexivity. Qed.

Lemma flat_map_single {A} (l : list A) : flat_map (fun x => [x]) l = l.
Proof. induction l as [|a l IH]; simpl; congruence. Qed.

Lemma firstn_length_app {A} (w l : list A) :
  firstn (length (w ++ l) - length l) (w ++ l) = w.
Proof.
  rewrite length_app.
  replace (length w + length l - length l)%nat with (length w + 0)%nat by lia.
  rewrite firstn_app_2. simpl. apply app_nil_r.
Qed.

(** ** The matcher *)

Module ReFacts.

Arguments is_digit : simpl never.
Arguments is_space : simpl never.
Arguments N.eqb : simpl never.

Lemma taken_app (s s' : st) (w : str) :
  rest s = w ++ rest s' -> taken s s' = w.
Proof. unfold taken. intros ->. apply firstn_length_app. Qed.

Lemma ahead_refl P s : ahead P s s.
Proof. exists []. split; auto. Qed.

Lemma ahead_trans P s1 s2 s3 : ahead P s1 s2 -> ahead P s2 s3 -> ahead P s1 s3.
Proof.
  intros (w1 & E1 & F1) (w2 & E2 & F2). exists (w1 ++ w2). split.
  - rewrite E1, E2. apply app_assoc.
  - apply Forall_app; auto.
Qed.

Section RepeatFacts.
Variable P : cp -> Prop.
Variable body : st -> list st.
Hypothesis body_ahead : forall s s', In s' (body s) -> ahead P s s'.

Lemma rep_req_ahead n : forall s s', In s' (rep_req body n s) -> ahead P s s'.
Proof.
  induction n as [|n IH]; simpl; intros s s' H.
  - destruct H as [<-|[]]. apply ahead_refl.
  - apply in_flat_map in H. destruct H as (s1 & H1 & H2).
    eapply ahead_trans; eauto.
Qed.

Lemma rep_opt_ahead n : forall s s', In s' (rep_opt body n s) -> ahead P s s'.
Proof.
  induction n as [|n IH]; simpl; intros s s' H.
  - destruct H as [<-|[]]. apply ahead_refl.
  - apply in_app_or in H. destruct H as [H|[<-|[]]].
    + apply in_flat_map in H. destruct H as (s1 & H1 & H2).
      destruct (length (rest s1) <? length (rest s))%nat; [|contradiction].
      eapply ahead_trans; eauto.
    + apply ahead_refl.
Qed.

(** The loop can always stop where it is: that is its last resort. *)
Lemma rep_opt_last n s : exists l, rep_opt body n s = l ++ [s].
Proof.
  destruct n; simpl.
  - exists []. reflexivity.
  - eexists. reflexivity.
Qed.
End RepeatFacts.

Lemma exits_ahead P r : reads P r -> forall s s', In s' (exits r s) -> ahead P s s'.
Proof.
  induction r as [k|a IHa b IHb|a IHa b IHb|lo hi a IHa|g a IHa|a IHa];
    simpl; intros R s s' H.
  - destruct (rest s) as [|c t] eqn:E; [contradiction|].
    destruct (in_cset k c) eqn:K; [|contradiction].
    destruct H as [<-|[]]. exists [c]. simpl. split; auto.
  - destruct R as [Ra Rb]. apply in_flat_map in H. destruct H as (s1 & H1 & H2).
    eapply ahead_trans; eauto.
  - destruct R as [Ra Rb]. apply in_app_or in H. destruct H; eauto.
  - apply in_flat_map in H. destruct H as (s1 & H1 & H2).
    eapply ahead_trans.
    + eapply rep_req_ahead; [|exact H1]. auto.
    + eapply rep_opt_ahead; [|exact H2]. auto.
  - apply in_map_iff in H. destruct H as (s1 & <- & H1).
    destruct (IHa R _ _ H1) as (w & E & F). exists w. simpl. auto.
  - destruct (exits a s); [|contradiction].
    destruct H as [<-|[]]. apply ahead_refl.
Qed.

(** A regex without capturing groups leaves the groups as they are. *)
Lemma exits_caps r : group_free r -> forall s s', In s' (exits r s) -> caps s' = caps s.
Proof.
  induction r as [k|a IHa b IHb|a IHa b IHb|lo hi a IHa|g a IHa|a IHa];
    simpl; intros G s s' H.
  - destruct (rest s) as [|c t]; [contradiction|].
    destruct (in_cset k c); [|contradiction]. now destruct H as [<-|[]].
  - destruct G as [Ga Gb]. apply in_flat_map in H. destruct H as (s1 & H1 & H2).
    rewrite (IHb Gb _ _ H2). auto.
  - destruct G as [Ga Gb]. apply in_app_or in H. destruct H; auto.
  - apply in_flat_map in H. destruct H as (s1 & H1 & H2).
    assert (Q : forall n x y, In y (rep_opt (exits a) n x) -> caps y = caps x).
    { induction n as [|n IHn]; simpl; intros x y Hy.
      - now destruct Hy as [<-|[]].
      - apply in_app_or in Hy. destruct Hy as [Hy|[<-|[]]]; [|reflexivity].
        apply in_flat_map in Hy. destruct Hy as (z & Hz & Hy).
        destruct (length (rest z) <? length (rest x))%nat; [|contradiction].
        rewrite (IHn _ _ Hy). auto. }
    assert (R : forall n x y, In y (rep_req (exits a) n x) -> caps y = caps x).
    { induction n as [|n IHn]; simpl; intros x y Hy.
      - now destruct Hy as [<-|[]].
      - apply in_flat_map in Hy. destruct Hy as (z & Hz & Hy).
        rewrite (IHn _ _ Hy). auto. }
    rewrite (Q _ _ _ H2). eauto.
  - contradiction.
  - destruct (exits a s); [|contradiction]. now destruct H as [<-|[]].
Qed.

(** The defining equations, for rewriting. *)
Lemma exits_chr k c t cs :
  exits (Chr k) (mk (c :: t) cs) = if in_cset k c then [mk t cs] else [].
Proof. reflexivity. Qed.

Lemma exits_chr_nil k cs : exits (Chr k) (mk [] cs) = [].
Proof. reflexivity. Qed.

Lemma exits_seq a b s : exits (Seq a b) s = flat_map (exits b) (exits a s).
Proof. reflexivity. Qed.

Lemma exits_alt a b s : exits (Alt a b) s = exits a s ++ exits b s.
Proof. reflexivity. Qed.

Lemma exits_rep_bounded lo h a s :
  exits (Rep lo (Some h) a) s
  = flat_map (rep_opt (exits a) (h - lo)) (rep_req (exits a) lo s).
Proof. reflexivity. Qed.

Lemma exits_rep_unbounded lo a s :
  exits (Rep lo None a) s
  = flat_map (rep_opt (exits a) (length (rest s))) (rep_req (exits a) lo s).
Proof. reflexivity. Qed.

Lemma exits_grp g a s :
  exits (Grp g a) s
  = map (fun s' => mk (rest s') ((g, taken s s') :: caps s')) (exits a s).
Proof. reflexivity. Qed.

Lemma exits_nlook a s :
  exits (NLook a) s = match exits a s with [] => [s] | _ :: _ => [] end.
Proof. reflexivity. Qed.

Lemma rep_opt_S body n s :
  rep_opt body (S n) s
  = flat_map (fun s' => if (length (rest s') <? length (rest s))%nat
                        then rep_opt body n s' else []) (body s) ++ [s].
Proof. reflexivity. Qed.

Lemma rep_req_1 body s : rep_req body 1 s = body s.
Proof. simpl. apply flat_map_single. Qed.

Lemma shorter n : (n <? S n)%nat = true.
Proof. apply Nat.ltb_lt. lia. Qed.

End ReFacts.

(** ** The numeric run found by [apply_markup] *)

Module ValueRe.
Import ReFacts.

Arguments exits : simpl never.
Arguments rep_opt : simpl never.
Arguments rep_req : simpl never.

Lemma digit_not_sep c : is_digit c = true -> in_cset (OneOf [46; 32]%N) c = false.
Proof.
  intros D. simpl.
  destruct (N.eqb_spec c 46) as [->|_]; [discriminate D|].
  destruct (N.eqb_spec c 32) as [->|_]; [discriminate D|].
  reflexivity.
Qed.

Lemma exits_digit_stop s : no_digit_ahead (rest s) -> exits (Chr Digit) s = [].
Proof.
  destruct s as [[|c t] cs]; simpl; intros H; [reflexivity|].
  change (exits (Chr Digit) (mk (c :: t) cs) = []).
  rewrite exits_chr. simpl. now rewrite H.
Qed.

Lemma more_digits_cons n c t cs :
  is_digit c = true ->
  rep_opt (exits (Chr Digit)) (S n) (mk (c :: t) cs)
  = rep_opt (exits (Chr Digit)) n (mk t cs) ++ [mk (c :: t) cs].
Proof.
  intros D. rewrite rep_opt_S, exits_chr. simpl in_cset. rewrite D.
  simpl flat_map. simpl rest. rewrite shorter. now rewrite app_nil_r.
Qed.

Lemma more_digits_stop n s :
  no_digit_ahead (rest s) -> rep_opt (exits (Chr Digit)) n s = [s].
Proof.
  intros H. destruct n; [reflexivity|]. rewrite rep_opt_S.
  now rewrite exits_digit_stop.
Qed.

(** The greedy loop over digits first reads the whole run. *)
Lemma more_digits_hd run : forall n post cs,
  Forall (fun c => is_digit c = true) run -> no_digit_ahead post ->
  (length run <= n)%nat ->
  exists l, rep_opt (exits (Chr Digit)) n (mk (run ++ post) cs) = mk post cs :: l.
Proof.
  induction run as [|c run IH]; intros n post cs F N L.
  - exists []. now apply more_digits_stop.
  - inversion F as [|? ? D F']; subst. destruct n as [|n]; [simpl in L; lia|].
    simpl in L. destruct (IH n post cs F' N ltac:(lia)) as (l & E).
    simpl app. rewrite more_digits_cons, E by assumption. eexists. reflexivity.
Qed.

(** [\d+] on a run of digits. *)
Lemma plus_digits_hd run post cs :
  run <> [] -> Forall (fun c => is_digit c = true) run -> no_digit_ahead post ->
  exists l, exits (digits 1 None) (mk (run ++ post) cs) = mk post cs :: l.
Proof.
  intros NE F N. destruct run as [|c run]; [congruence|].
  inversion F as [|? ? D F']; subst.
  unfold digits. rewrite exits_rep_unbounded, rep_req_1. simpl app.
  rewrite exits_chr. simpl in_cset. rewrite D. simpl flat_map. rewrite app_nil_r.
  apply more_digits_hd; auto. rewrite length_app. lia.
Qed.

(** [\d{1,3}] on a run of one to three digits. *)
Lemma upto3_digits_hd run post cs :
  run <> [] -> (length run <= 3)%nat ->
  Forall (fun c => is_digit c = true) run -> no_digit_ahead post ->
  exists l, exits (digits 1 (Some 3%nat)) (mk (run ++ post) cs) = mk post cs :: l.
Proof.
  intros NE L F N. destruct run as [|c run]; [congruence|].
  inversion F as [|? ? D F']; subst.
  unfold digits. rewrite exits_rep_bounded, rep_req_1. simpl app.
  rewrite exits_chr. simpl in_cset. rewrite D. simpl flat_map. rewrite app_nil_r.
  simpl in L.
  simpl Nat.sub. apply more_digits_hd; auto. lia.
Qed.

Lemma sep_chars c : in_cset (OneOf [46; 32]%N) c = true -> c = 46%N \/ c = 32%N.
Proof.
  simpl. destruct (N.eqb_spec c 46); auto. destruct (N.eqb_spec c 32); auto.
  discriminate.
Qed.

Lemma reads_groups_then_stop : reads digit_or_sep groups_then_stop.
Proof.
  unfold digit_or_sep. simpl. repeat split; auto.
  intros c H. right. now apply sep_chars.
Qed.

(** Directly before a digit no group can start and the look-ahead fails. *)
Lemma groups_then_stop_digit c t cs :
  is_digit c = true -> exits groups_then_stop (mk (c :: t) cs) = [].
Proof.
  intros D. unfold groups_then_stop, Star.
  rewrite exits_seq, exits_rep_unbounded.
  assert (E : forall n, rep_opt (exits (Seq sep (digits 3 (Some 3%nat)))) n
                                (mk (c :: t) cs) = [mk (c :: t) cs]).
  { intros [|n]; [reflexivity|]. rewrite rep_opt_S, exits_seq. unfold sep.
    rewrite exits_chr, digit_not_sep by assumption. reflexivity. }
  change (rep_req (exits (Seq sep (digits 3 (Some 3%nat)))) 0 (mk (c :: t) cs))
    with [mk (c :: t) cs].
  simpl flat_map. rewrite E. simpl app. simpl flat_map.
  rewrite exits_nlook, exits_chr. simpl in_cset. rewrite D. reflexivity.
Qed.

(** Where no digit follows, stopping is possible, so the part succeeds. *)
Lemma groups_then_stop_ok post cs :
  no_digit_ahead post ->
  exists s' l, exits groups_then_stop (mk post cs) = s' :: l
               /\ ahead digit_or_sep (mk post cs) s' /\ caps s' = cs.
Proof.
  intros N.
  assert (I : In (mk post cs) (exits groups_then_stop (mk post cs))).
  { unfold groups_then_stop, Star. rewrite exits_seq. apply in_flat_map.
    exists (mk post cs). split.
    - rewrite exits_rep_unbounded. apply in_flat_map. exists (mk post cs).
      split; [left; reflexivity|].
      destruct (rep_opt_last (exits (Seq sep (digits 3 (Some 3%nat))))
                             (length (rest (mk post cs))) (mk post cs)) as (l & ->).
      apply in_or_app. right. left. reflexivity.
    - rewrite exits_nlook, exits_digit_stop by exact N. left. reflexivity. }
  destruct (exits groups_then_stop (mk post cs)) as [|s' l] eqn:E; [contradiction|].
  exists s', l. split; [reflexivity|].
  assert (I' : In s' (exits groups_then_stop (mk post cs))) by (rewrite E; left; auto).
  split.
  - eapply exits_ahead; [apply reads_groups_then_stop|exact I'].
  - apply (exits_caps groups_then_stop) in I'; [exact I'|simpl; auto].
Qed.

Lemma value_re_eq : value_re = Grp 1 (Alt grouped (digits 1 None)).
Proof. reflexivity. Qed.

(** On four digits or more the grouped branch fails. *)
Lemma grouped_long d1 d2 d3 d4 t cs :
  is_digit d1 = true -> is_digit d2 = true -> is_digit d3 = true ->
  is_digit d4 = true ->
  exits grouped (mk (d1 :: d2 :: d3 :: d4 :: t) cs) = [].
Proof.
  intros D1 D2 D3 D4. unfold grouped, digits.
  rewrite exits_seq, exits_rep_bounded, rep_req_1, exits_chr.
  simpl in_cset. rewrite D1. simpl flat_map. simpl Nat.sub.
  rewrite !more_digits_cons by assumption.
  change (rep_opt (exits (Chr Digit)) 0 (mk (d4 :: t) cs)) with [mk (d4 :: t) cs].
  simpl app. simpl flat_map.
  rewrite !groups_then_stop_digit by assumption. reflexivity.
Qed.

(** The match of the pattern at the start of a run of digits: it reads the
    whole run, then possibly groups of a separator and three digits; a run
    of four digits or more is read alone. *)
Lemma value_re_at_run run post cs :
  run <> [] -> Forall (fun c => is_digit c = true) run -> no_digit_ahead post ->
  exists g post' l,
    exits value_re (mk (run ++ post) cs) = mk post' ((1%nat, run ++ g) :: cs) :: l
    /\ post = g ++ post' /\ Forall digit_or_sep g
    /\ ((3 < length run)%nat -> g = []).
Proof.
  intros NE F N. rewrite value_re_eq, exits_grp, exits_alt.
  destruct (Nat.leb_spec (length run) 3) as [L|L].
  - destruct (upto3_digits_hd run post cs NE L F N) as (l1 & E1).
    destruct (groups_then_stop_ok post cs N) as ([post' cs'] & l2 & E2 & (g & Eg & Fg) & C).
    simpl in Eg, C. subst cs'.
    assert (T : taken (mk (run ++ post) cs) (mk post' cs) = run ++ g).
    { apply taken_app. simpl. rewrite Eg. apply app_assoc. }
    exists g, post'. eexists.
    split; [|split; [exact Eg|split; [exact Fg|lia]]].
    unfold grouped. rewrite exits_seq, E1. simpl flat_map. rewrite E2.
    simpl. rewrite T. reflexivity.
  - destruct run as [|d1 [|d2 [|d3 [|d4 run]]]]; simpl in L; try lia.
    inversion F as [|? ? D1 F1]; subst. inversion F1 as [|? ? D2 F2]; subst.
    inversion F2 as [|? ? D3 F3]; subst. inversion F3 as [|? ? D4 F4]; subst.
    change ((d1 :: d2 :: d3 :: d4 :: run) ++ post)
      with (d1 :: d2 :: d3 :: d4 :: run ++ post).
    rewrite grouped_long by assumption.
    destruct (plus_digits_hd (d1 :: d2 :: d3 :: d4 :: run) post cs)
      as (l & E); auto.
    exists [], post. eexists. split; [|split; [reflexivity|split; [constructor|auto]]].
    assert (T : taken (mk (d1 :: d2 :: d3 :: d4 :: run ++ post) cs) (mk post cs)
                = d1 :: d2 :: d3 :: d4 :: run) by (apply taken_app; reflexivity).
    change ((d1 :: d2 :: d3 :: d4 :: run) ++ post)
      with (d1 :: d2 :: d3 :: d4 :: run ++ post) in E.
    simpl app at 1. rewrite E. simpl map. rewrite T, app_nil_r. reflexivity.
Qed.

(** Where no digit stands, the pattern does not match. *)
Lemma value_re_no_match s : no_digit_ahead (rest s) -> exits value_re s = [].
Proof.
  intros N. rewrite value_re_eq, exits_grp, exits_alt. unfold grouped, digits.
  rewrite exits_seq, exits_rep_bounded, exits_rep_unbounded, !rep_req_1.
  rewrite exits_digit_stop by exact N. reflexivity.
Qed.

Lemma search_skip r pre : forall k l,
  (forall c t, is_digit c = false -> exits r (mk (c :: t) []) = []) ->
  no_digit pre ->
  search_from r k (pre ++ l) = search_from r (k + length pre) l.
Proof.
  induction pre as [|c pre IH]; intros k l Hr N.
  - simpl. f_equal. lia.
  - inversion N as [|? ? Hc N']; subst. simpl app.
    cbn [search_from]. unfold match_at at 1. rewrite Hr by exact Hc.
    rewrite IH by assumption. f_equal. simpl. lia.
Qed.

(** [re.search] finds nothing in a text without digits. *)
Lemma search_no_digit text : no_digit text -> search value_re text = None.
Proof.
  intros N. unfold search. rewrite <- (app_nil_r text).
  rewrite search_skip; [reflexivity| |exact N].
  intros c t Hc. now apply value_re_no_match.
Qed.

(** [re.search] on a text whose first digit starts the run [run]. *)
Lemma search_run pre run post :
  no_digit pre -> run <> [] -> Forall (fun c => is_digit c = true) run ->
  no_digit_ahead post ->
  exists g post',
    search value_re (pre ++ run ++ post)
    = Some {| m_start := length pre; m_whole := run ++ g;
              m_groups := [(1%nat, run ++ g)] |}
    /\ post = g ++ post' /\ Forall digit_or_sep g
    /\ ((3 < length run)%nat -> g = []).
Proof.
  intros Np NE F N.
  destruct (value_re_at_run run post [] NE F N) as (g & post' & l & E & Eg & Fg & Lg).
  exists g, post'. split; [|auto].
  unfold search. rewrite search_skip; [| |exact Np].
  - destruct run as [|d run]; [congruence|]. simpl app. cbn [search_from].
    unfold match_at. simpl app in E. rewrite E. simpl. f_equal. f_equal.
    change (d :: run ++ post) with ((d :: run) ++ post).
    rewrite Eg, app_assoc. apply (firstn_length_app (d :: run ++ g) post').
  - intros c t Hc. now apply value_re_no_match.
Qed.

(** A text with a digit splits at its first run of digits. *)
Lemma first_run text :
  existsb is_digit text = true ->
  exists pre run post,
    text = pre ++ run ++ post /\ no_digit pre /\ run <> []
    /\ Forall (fun c => is_digit c = true) run /\ no_digit_ahead post.
Proof.
  induction text as [|c t IH]; simpl; [discriminate|].
  destruct (is_digit c) eqn:D; simpl; intros H.
  - clear IH H. exists [].
    assert (Q : exists run post, t = run ++ post
                /\ Forall (fun c => is_digit c = true) run /\ no_digit_ahead post).
    { clear. induction t as [|x t IH].
      - exists [], []. simpl. auto.
      - destruct (is_digit x) eqn:X.
        + destruct IH as (run & post & -> & F & N).
          exists (x :: run), post. auto.
        + exists [], (x :: t). simpl. auto. }
    destruct Q as (run & post & -> & F & N).
    exists (c :: run), post. repeat split; auto. constructor. discriminate.
  - destruct (IH H) as (pre & run & post & -> & Np & NE & F & N).
    exists (c :: pre), run, post. repeat split; auto. constructor; auto.
Qed.

(** Boolean checks, for concrete texts. *)
Lemma no_digit_check l :
  forallb (fun c => negb (is_digit c)) l = true -> no_digit l.
Proof.
  intros H. apply Forall_forall. intros c Hc.
  rewrite forallb_forall in H. now apply negb_true_iff, H.
Qed.

Lemma digits_check l :
  forallb is_digit l = true -> Forall (fun c => is_digit c = true) l.
Proof. intros H. apply Forall_forall. now apply forallb_forall. Qed.

Lemma no_digit_existsb text : existsb is_digit text = false -> no_digit text.
Proof.
  induction text as [|c t IH]; simpl; intros H; [constructor|].
  apply orb_false_iff in H. destruct H as [H1 H2].
  constructor; [exact H1|exact (IH H2)].
Qed.

End ValueRe.

(** ** [apply_markup] on a text, by its first run of digits *)

Module Markup.
Import ReFacts ValueRe.

Lemma strip_digit_or_sep w :
  Forall digit_or_sep w -> strip_separators w = filter is_digit w.
Proof.
  unfold strip_separators, remove_char.
  induction 1 as [|c w H F IH]; simpl; [reflexivity|].
  destruct H as [D|[->| ->]].
  - rewrite D.
    destruct (N.eqb_spec c 32) as [->|_]; [discriminate D|]. simpl.
    destruct (N.eqb_spec c 46) as [->|_]; [discriminate D|]. simpl.
    now rewrite IH.
  - change (is_digit 46%N) with false. simpl. exact IH.
  - change (is_digit 32%N) with false. simpl. exact IH.
Qed.

Lemma filter_all (f : cp -> bool) l : Forall (fun c => f c = true) l -> filter f l = l.
Proof. induction 1 as [|c l H F IH]; simpl; [|rewrite H, IH]; reflexivity. Qed.

Lemma forallb_filter (f : cp -> bool) l : forallb f (filter f l) = true.
Proof.
  induction l as [|c l IH]; simpl; [reflexivity|].
  destruct (f c) eqn:E; simpl; [rewrite E|]; auto.
Qed.

Lemma digits_digit_or_sep run :
  Forall (fun c => is_digit c = true) run -> Forall digit_or_sep run.
Proof. apply Forall_impl. intros c D. left. exact D. Qed.

(** Without a digit the text comes back as it is. *)
Lemma apply_markup_no_digit text p c m :
  no_digit text -> apply_markup text p c m = Ok text.
Proof. intros N. unfold apply_markup. now rewrite search_no_digit. Qed.

(** With a digit, the number read is the first run of digits, followed by
    the digits of the groups [g] the pattern accepts after it. *)
Lemma apply_markup_at_run pre run post p c m :
  no_digit pre -> run <> [] -> Forall (fun c => is_digit c = true) run ->
  no_digit_ahead post ->
  exists g post',
    post = g ++ post' /\ Forall digit_or_sep g
    /\ ((3 < length run)%nat -> g = [])
    /\ search value_re (pre ++ run ++ post)
       = Some {| m_start := length pre; m_whole := run ++ g;
                 m_groups := [(1%nat, run ++ g)] |}
    /\ apply_markup (pre ++ run ++ post) p c m
       = scaled (pre ++ run ++ post) p c (dec_value (run ++ filter is_digit g)) m.
Proof.
  intros Np NE F N.
  destruct (search_run pre run post Np NE F N) as (g & post' & E & Eg & Fg & Lg).
  exists g, post'. repeat (split; [assumption|]).
  unfold apply_markup. rewrite E.
  change (group _ 1) with (Some (run ++ g)). cbv iota beta.
  rewrite strip_digit_or_sep
    by (apply Forall_app; split; [now apply digits_digit_or_sep|exact Fg]).
  rewrite filter_app, (filter_all _ _ F).
  unfold float_of_str.
  destruct run as [|d run]; [congruence|]. simpl app at 1.
  change (d :: run ++ filter is_digit g) with ((d :: run) ++ filter is_digit g).
  rewrite forallb_app, forallb_filter, andb_true_r.
  replace (forallb is_digit (d :: run)) with true
    by (symmetry; apply forallb_forall; now apply Forall_forall).
  reflexivity.
Qed.

(** Group 1 takes part in every match, and what [float] is given is a
    run of digits, not empty. *)
Lemma raw_val_digits text m :
  search value_re text = Some m ->
  exists g, group m 1 = Some g
            /\ strip_separators g <> []
            /\ forallb is_digit (strip_separators g) = true.
Proof.
  intros H. destruct (existsb is_digit text) eqn:X.
  - destruct (first_run text X) as (pre & run & post & -> & Npre & NE & F & N).
    destruct (search_run pre run post Npre NE F N) as (g & post' & E & _ & Fg & _).
    rewrite E in H. injection H as <-. exists (run ++ g).
    split; [reflexivity|].
    rewrite strip_digit_or_sep
      by (apply Forall_app; split; [now apply digits_digit_or_sep|exact Fg]).
    rewrite filter_app, (filter_all _ _ F). split.
    + destruct run; [congruence|discriminate].
    + rewrite forallb_app, forallb_filter, andb_true_r.
      apply forallb_forall. now apply Forall_forall.
  - rewrite search_no_digit in H by (now apply no_digit_existsb). discriminate.
Qed.

End Markup.

(** ** Floating point: integers through binary64 *)

Module FloatFacts.

Lemma iter_pos_swap {A} (f : A -> A) p : forall x,
  SpecFloat.iter_pos f p (f x) = f (SpecFloat.iter_pos f p x).
Proof.
  induction p as [p IH|p IH|]; intros x; simpl; [|now rewrite !IH|reflexivity].
  now rewrite !IH.
Qed.

Lemma iter_pos_succ {A} (f : A -> A) p : forall x,
  SpecFloat.iter_pos f (Pos.succ p) x = f (SpecFloat.iter_pos f p x).
Proof.
  induction p as [p IH|p IH|]; intros x; simpl.
  - now rewrite !IH, !iter_pos_swap.
  - now rewrite !iter_pos_swap.
  - reflexivity.
Qed.

(** The number of binary digits. *)
Lemma digits_bounds q :
  2 ^ (Z.pos (digits2_pos q) - 1) <= Z.pos q < 2 ^ Z.pos (digits2_pos q).
Proof.
  induction q as [q IH|q IH|]; simpl digits2_pos.
  - rewrite Pos2Z.inj_succ.
    replace (Z.succ (Z.pos (digits2_pos q)) - 1) with (Z.succ (Z.pos (digits2_pos q) - 1)) by lia.
    rewrite !Z.pow_succ_r by lia. lia.
  - rewrite Pos2Z.inj_succ.
    replace (Z.succ (Z.pos (digits2_pos q)) - 1) with (Z.succ (Z.pos (digits2_pos q) - 1)) by lia.
    rewrite !Z.pow_succ_r by lia. lia.
  - simpl. lia.
Qed.

Lemma digits_unique q k :
  2 ^ (k - 1) <= Z.pos q < 2 ^ k -> Z.pos (digits2_pos q) = k.
Proof.
  intros [L U]. pose proof (digits_bounds q) as [L' U'].
  assert (K : 0 < k).
  { destruct (Z.ltb_spec 0 k); [assumption|].
    assert (2 ^ k <= 1); [|lia].
    destruct (Z.eq_dec k 0) as [->|]; [simpl; lia|].
    rewrite Z.pow_neg_r by lia. lia. }
  set (d := Z.pos (digits2_pos q)) in *.
  destruct (Z.lt_trichotomy d k) as [C|[C|C]]; [|exact C|].
  - assert (2 ^ d <= 2 ^ (k - 1)) by (apply Z.pow_le_mono_r; lia). lia.
  - assert (2 ^ k <= 2 ^ (d - 1)) by (apply Z.pow_le_mono_r; lia). lia.
Qed.

Lemma shr_1_even m : 0 <= m -> shr_1 (zrec (2 * m)) = zrec m.
Proof. intros H. destruct m as [|p|p]; [reflexivity|reflexivity|lia]. Qed.

Lemma shr_exact p : forall m, 0 <= m ->
  SpecFloat.iter_pos shr_1 p (zrec (m * 2 ^ Z.pos p)) = zrec m.
Proof.
  induction p as [|p IH] using Pos.peano_ind; intros m H.
  - replace (m * 2 ^ 1) with (2 * m) by lia. cbn [SpecFloat.iter_pos].
    now apply shr_1_even.
  - rewrite iter_pos_succ, Pos2Z.inj_succ, Z.pow_succ_r by lia.
    replace (m * (2 * 2 ^ Z.pos p)) with ((2 * m) * 2 ^ Z.pos p) by lia.
    rewrite IH by lia. now apply shr_1_even.
Qed.

Lemma shr_1_m mrs : 0 <= shr_m mrs -> shr_m (shr_1 mrs) = shr_m mrs / 2.
Proof.
  destruct mrs as [m r s]. simpl shr_m. intros H.
  destruct m as [|[p|p|]|p]; try lia; unfold shr_1, shr_m; try reflexivity.
  - rewrite Pos2Z.inj_xI. apply Z.div_unique with (r := 1); lia.
  - rewrite Pos2Z.inj_xO. apply Z.div_unique with (r := 0); lia.
Qed.

Lemma shr_m_iter p : forall mrs, 0 <= shr_m mrs ->
  shr_m (SpecFloat.iter_pos shr_1 p mrs) = shr_m mrs / 2 ^ Z.pos p.
Proof.
  induction p as [|p IH] using Pos.peano_ind; intros mrs H.
  - cbn [SpecFloat.iter_pos]. rewrite shr_1_m by exact H. reflexivity.
  - rewrite iter_pos_succ, shr_1_m, IH by (rewrite ?IH by exact H; try apply Z.div_pos; lia).
    rewrite Pos2Z.inj_succ, Z.pow_succ_r by lia.
    rewrite Z.div_div by lia. f_equal. lia.
Qed.

Lemma fexp_eq x : fexp prec emax x = Z.max (x - 53) (-1074).
Proof. reflexivity. Qed.

Lemma shr_fexp_stay m e l :
  fexp prec emax (Zdigits2 m + e) - e <= 0 ->
  shr_fexp prec emax m e l = (shr_record_of_loc m l, e).
Proof.
  intros H. unfold shr_fexp, shr.
  destruct (fexp prec emax (Zdigits2 m + e) - e); [reflexivity|lia|reflexivity].
Qed.

Lemma shr_fexp_shift m e l k :
  fexp prec emax (Zdigits2 m + e) - e = Z.pos k ->
  shr_fexp prec emax m e l
  = (SpecFloat.iter_pos shr_1 k (shr_record_of_loc m l), e + Z.pos k).
Proof. intros H. unfold shr_fexp, shr. rewrite H. reflexivity. Qed.

(** A mantissa of 53 bits with an exponent in range is left as it is. *)
Lemma round_aux_canon s m e :
  Z.pos (digits2_pos m) = 53 -> -1074 <= e <= 971 ->
  binary_round_aux prec emax s (Z.pos m) e loc_Exact = S754_finite s m e.
Proof.
  intros D E. unfold binary_round_aux.
  assert (S0 : shr_fexp prec emax (Z.pos m) e loc_Exact = (zrec (Z.pos m), e)).
  { apply shr_fexp_stay. rewrite fexp_eq. unfold Zdigits2. lia. }
  rewrite S0. cbn [zrec shr_m loc_of_shr_record round_nearest_even].
  rewrite S0. cbn [zrec shr_m].
  replace (e <=? emax - prec) with true; [reflexivity|].
  symmetry. apply Z.leb_le. unfold emax, prec. lia.
Qed.

Lemma digits_shifted m k :
  Z.pos (digits2_pos m) = 53 -> 0 <= k ->
  Zdigits2 (Z.pos m * 2 ^ k) = 53 + k.
Proof.
  intros D K. pose proof (digits_bounds m) as B. rewrite D in B.
  assert (P : 0 < 2 ^ k) by (apply Z.pow_pos_nonneg; lia).
  destruct (Z.pos m * 2 ^ k) as [|q|q] eqn:Q; try lia.
  unfold Zdigits2. apply digits_unique. rewrite <- Q.
  replace (53 + k - 1) with (52 + k) by lia.
  rewrite !Z.pow_add_r by lia. simpl (53 - 1) in B. nia.
Qed.

(** Trailing zero bits are shifted out exactly. *)
Lemma round_aux_shift s m e k :
  Z.pos (digits2_pos m) = 53 -> 0 < k -> -1074 <= e + k <= 971 ->
  binary_round_aux prec emax s (Z.pos m * 2 ^ k) e loc_Exact
  = S754_finite s m (e + k).
Proof.
  intros D K E. unfold binary_round_aux.
  destruct k as [|k|k]; try lia.
  assert (S1 : shr_fexp prec emax (Z.pos m * 2 ^ Z.pos k) e loc_Exact
               = (zrec (Z.pos m), e + Z.pos k)).
  { rewrite shr_fexp_shift with (k := k).
    - change (shr_record_of_loc (Z.pos m * 2 ^ Z.pos k) loc_Exact)
        with (zrec (Z.pos m * 2 ^ Z.pos k)).
      rewrite shr_exact by lia. reflexivity.
    - rewrite digits_shifted, fexp_eq by lia. lia. }
  rewrite S1. cbn [zrec shr_m loc_of_shr_record round_nearest_even].
  assert (S0 : shr_fexp prec emax (Z.pos m) (e + Z.pos k) loc_Exact
               = (zrec (Z.pos m), e + Z.pos k)).
  { apply shr_fexp_stay. rewrite fexp_eq. unfold Zdigits2. lia. }
  rewrite S0. cbn [zrec shr_m].
  replace (e + Z.pos k <=? emax - prec) with true; [reflexivity|].
  symmetry. apply Z.leb_le. unfold emax, prec. lia.
Qed.

(** Multiplying by [1.0] changes nothing. *)
Lemma fmul_one_finite s m e :
  Z.pos (digits2_pos m) = 53 -> -1074 <= e <= 971 ->
  fmul (S754_finite s m e) f_1_0 = S754_finite s m e.
Proof.
  intros D E. unfold fmul, f_1_0, SFmul.
  rewrite Pos2Z.inj_mul. change (Z.pos 4503599627370496) with (2 ^ 52).
  rewrite round_aux_shift by lia.
  rewrite xorb_false_r. f_equal. lia.
Qed.

Lemma pos_iter_xO q k : Z.pos (Pos.iter xO q k) = Z.pos q * 2 ^ Z.pos k.
Proof.
  induction k as [|k IH] using Pos.peano_ind.
  - simpl Pos.iter. lia.
  - rewrite Pos.iter_succ, Pos2Z.inj_xO, IH, Pos2Z.inj_succ, Z.pow_succ_r by lia.
    lia.
Qed.

(** An integer of at most 53 bits is a [float], exactly. *)
Lemma float_of_Z_small q :
  Z.pos (digits2_pos q) <= 53 ->
  exists m, float_of_Z (Z.pos q)
            = S754_finite false m (Z.pos (digits2_pos q) - 53)
            /\ Z.pos m = Z.pos q * 2 ^ (53 - Z.pos (digits2_pos q))
            /\ Z.pos (digits2_pos m) = 53.
Proof.
  intros D. pose proof (digits_bounds q) as B.
  set (d := Z.pos (digits2_pos q)) in *.
  assert (D1 : 1 <= d) by (unfold d; lia).
  unfold float_of_Z, binary_normalize, binary_round, shl_align.
  fold d. rewrite fexp_eq.
  replace (Z.max (d + 0 - 53) (-1074) - 0) with (d - 53) by lia.
  replace (Z.max (d + 0 - 53) (-1074)) with (d - 53) by lia.
  destruct (d - 53) as [|k|k] eqn:K; try lia.
  - exists q. replace (53 - d) with 0 by lia.
    rewrite round_aux_canon by (fold d; lia). split; [reflexivity|]. fold d. lia.
  - assert (M : Z.pos (Pos.iter xO q k) = Z.pos q * 2 ^ (53 - d)).
    { rewrite pos_iter_xO. f_equal. f_equal. lia. }
    assert (Dm : Z.pos (digits2_pos (Pos.iter xO q k)) = 53).
    { apply digits_unique. rewrite M.
      assert (P : 2 ^ (d - 1) * 2 ^ (53 - d) = 2 ^ (53 - 1))
        by (rewrite <- Z.pow_add_r by lia; f_equal; lia).
      assert (P' : 2 ^ d * 2 ^ (53 - d) = 2 ^ 53)
        by (rewrite <- Z.pow_add_r by lia; f_equal; lia).
      assert (0 < 2 ^ (53 - d)) by (apply Z.pow_pos_nonneg; lia).
      nia. }
    exists (Pos.iter xO q k). rewrite round_aux_canon by lia. auto.
Qed.

Lemma round_nearest_even_bounds m l :
  m <= round_nearest_even m l <= m + 1.
Proof.
  unfold round_nearest_even. destruct l as [|[| |]]; try lia.
  destruct (Z.even m); lia.
Qed.

(** A larger integer is rounded to 53 bits, or is out of range. *)
Lemma float_of_Z_big q :
  53 < Z.pos (digits2_pos q) ->
  float_of_Z (Z.pos q) = S754_infinity false
  \/ exists m e, float_of_Z (Z.pos q) = S754_finite false m e
                 /\ Z.pos (digits2_pos m) = 53 /\ 1 <= e <= 971.
Proof.
  intros D. pose proof (digits_bounds q) as B.
  set (d := Z.pos (digits2_pos q)) in *.
  unfold float_of_Z, binary_normalize, binary_round, shl_align.
  fold d. rewrite fexp_eq.
  replace (Z.max (d + 0 - 53) (-1074) - 0) with (d - 53) by lia.
  destruct (d - 53) as [|k|k] eqn:K; try lia.
  unfold binary_round_aux.
  rewrite shr_fexp_shift with (k := k)
    by (rewrite fexp_eq; unfold Zdigits2; fold d; lia).
  set (mrs := SpecFloat.iter_pos shr_1 k (shr_record_of_loc (Z.pos q) loc_Exact)).
  assert (M1 : shr_m mrs = Z.pos q / 2 ^ Z.pos k)
    by (unfold mrs; rewrite shr_m_iter; simpl; [reflexivity|lia]).
  assert (P : 0 < 2 ^ Z.pos k) by (apply Z.pow_pos_nonneg; lia).
  assert (Pd : 2 ^ (d - 1) = 2 ^ 52 * 2 ^ Z.pos k)
    by (rewrite <- Z.pow_add_r by lia; f_equal; lia).
  assert (Pd' : 2 ^ d = 2 ^ 53 * 2 ^ Z.pos k)
    by (rewrite <- Z.pow_add_r by lia; f_equal; lia).
  assert (B1 : 2 ^ 52 <= shr_m mrs < 2 ^ 53).
  { rewrite M1. split.
    - apply Z.div_le_lower_bound; lia.
    - apply Z.div_lt_upper_bound; lia. }
  pose proof (round_nearest_even_bounds (shr_m mrs) (loc_of_shr_record mrs)) as R.
  remember (round_nearest_even (shr_m mrs) (loc_of_shr_record mrs)) as r2 eqn:E2.
  destruct r2 as [|m2|m2]; try lia.
  destruct (Z.eq_dec (Z.pos m2) (2 ^ 53)) as [T|T].
  - (* the carry gives one more bit *)
    rewrite T. change (2 ^ 53) with (Z.pos 4503599627370496 * 2 ^ 1).
    rewrite shr_fexp_shift with (k := 1%positive).
    + change (SpecFloat.iter_pos shr_1 1 (shr_record_of_loc (Z.pos 4503599627370496 * 2 ^ 1) loc_Exact))
        with (zrec (Z.pos 4503599627370496)).
      cbn [zrec shr_m]. unfold emax, prec.
      destruct (0 + Z.pos k + 1 <=? 1024 - 53) eqn:O; [right|left; reflexivity].
      apply Z.leb_le in O. eexists _, _. split; [reflexivity|].
      split; [reflexivity|lia].
    + rewrite fexp_eq. change (Zdigits2 (Z.pos 4503599627370496 * 2 ^ 1)) with 54. lia.
  - assert (D2 : Z.pos (digits2_pos m2) = 53) by (apply digits_unique; simpl (53 - 1); lia).
    rewrite shr_fexp_stay by (rewrite fexp_eq; unfold Zdigits2; lia).
    cbn [shr_record_of_loc shr_m]. unfold emax, prec.
    destruct (0 + Z.pos k <=? 1024 - 53) eqn:O; [right|left; reflexivity].
    apply Z.leb_le in O. eexists _, _. split; [reflexivity|].
    split; [exact D2|lia].
Qed.

(** An integer that fits 53 bits and an exponent is a [float], exactly. *)
Lemma float_of_Z_exact m e :
  Z.pos (digits2_pos m) = 53 -> 0 <= e <= 971 ->
  float_of_Z (Z.pos m * 2 ^ e) = S754_finite false m e.
Proof.
  intros D E. destruct (Z.eq_dec e 0) as [->|NZ].
  - replace (Z.pos m * 2 ^ 0) with (Z.pos m) by lia.
    destruct (float_of_Z_small m) as (m' & F & M & _); [lia|].
    rewrite F, D. rewrite D in M. f_equal. simpl in M. lia.
  - pose proof (digits_shifted m e D ltac:(lia)) as Dq.
    assert (P : 0 < 2 ^ e) by (apply Z.pow_pos_nonneg; lia).
    destruct (Z.pos m * 2 ^ e) as [|q|q] eqn:Q; try lia.
    unfold float_of_Z, binary_normalize, binary_round, shl_align.
    unfold Zdigits2 in Dq. rewrite Dq, fexp_eq.
    replace (Z.max (53 + e + 0 - 53) (-1074) - 0) with e by lia.
    destruct e as [|k|k] eqn:K; try lia.
    rewrite <- Q, round_aux_shift by lia. reflexivity.
Qed.

Lemma py_round_scaled m n k :
  0 < k -> Z.pos m = n * 2 ^ k ->
  py_round (S754_finite false m (- k)) = Ok n.
Proof.
  intros K M. unfold py_round.
  replace (0 <=? - k) with false by (symmetry; apply Z.leb_gt; lia).
  unfold round_half_even. rewrite Z.opp_involutive, M.
  assert (P : 0 < 2 ^ k) by (apply Z.pow_pos_nonneg; lia).
  rewrite Z.div_mul, Z.mod_mul by lia.
  replace (2 * 0 ?= 2 ^ k) with Lt by (symmetry; apply Z.compare_lt_iff; lia).
  reflexivity.
Qed.

Lemma small_digits q : Z.pos q < 2 ^ 53 -> Z.pos (digits2_pos q) <= 53.
Proof.
  intros H. pose proof (digits_bounds q) as [L _].
  destruct (Z.leb_spec (Z.pos (digits2_pos q)) 53) as [|C]; [assumption|].
  assert (2 ^ 53 <= 2 ^ (Z.pos (digits2_pos q) - 1)) by (apply Z.pow_le_mono_r; lia).
  lia.
Qed.

(** [round(float(n))] is [n] below [2^53]. *)
Lemma py_round_of_Z_small n :
  0 <= n < 2 ^ 53 -> py_round (float_of_Z n) = Ok n.
Proof.
  intros [L U]. destruct n as [|q|q]; [reflexivity| |lia].
  pose proof (small_digits q U) as D.
  destruct (float_of_Z_small q D) as (m & F & M & Dm). rewrite F.
  destruct (Z.eq_dec (Z.pos (digits2_pos q)) 53) as [E|E].
  - rewrite E in *. simpl in M. simpl. f_equal. lia.
  - replace (Z.pos (digits2_pos q) - 53) with (- (53 - Z.pos (digits2_pos q))) by lia.
    apply py_round_scaled; [lia|exact M].
Qed.

(** The shape of [float(n)] for a natural number [n]. *)
Lemma float_of_Z_shape n :
  0 <= n ->
  float_of_Z n = S754_zero false
  \/ float_of_Z n = S754_infinity false
  \/ exists m e, float_of_Z n = S754_finite false m e
                 /\ Z.pos (digits2_pos m) = 53 /\ -1074 <= e <= 971.
Proof.
  intros H. destruct n as [|q|q]; [left; reflexivity| |lia].
  right. destruct (Z.leb_spec (Z.pos (digits2_pos q)) 53) as [D|D].
  - right. destruct (float_of_Z_small q D) as (m & F & _ & Dm).
    exists m, (Z.pos (digits2_pos q) - 53). repeat split; auto; lia.
  - destruct (float_of_Z_big q D) as [F|(m & e & F & Dm & E)]; [left; exact F|].
    right. exists m, e. repeat split; auto; lia.
Qed.

(** With the multiplier [1.0] the product is the number itself. *)
Lemma fmul_one_of_Z n : 0 <= n -> fmul (float_of_Z n) f_1_0 = float_of_Z n.
Proof.
  intros H.
  destruct (float_of_Z_shape n H) as [F|[F|(m & e & F & D & E)]]; rewrite F.
  - reflexivity.
  - reflexivity.
  - now apply fmul_one_finite.
Qed.

(** Rounding reaches a fixed point at once: the rounded integer is a
    [float] already. *)
Lemma py_round_of_Z_fix n v :
  0 <= n -> py_round (float_of_Z n) = Ok v ->
  0 <= v /\ float_of_Z v = float_of_Z n.
Proof.
  intros H R. destruct n as [|q|q]; [|clear H|lia].
  - simpl in R. injection R as <-. split; [lia|reflexivity].
  - destruct (Z.leb_spec (Z.pos (digits2_pos q)) 53) as [D|D].
    + pose proof (digits_bounds q) as [_ U].
      assert (U' : Z.pos q < 2 ^ 53).
      { assert (2 ^ Z.pos (digits2_pos q) <= 2 ^ 53) by (apply Z.pow_le_mono_r; lia). lia. }
      rewrite py_round_of_Z_small in R by lia. injection R as <-.
      split; [lia|reflexivity].
    + destruct (float_of_Z_big q D) as [F|(m & e & F & Dm & E)]; rewrite F in *.
      * discriminate R.
      * unfold py_round in R.
        replace (0 <=? e) with true in R by (symmetry; apply Z.leb_le; lia).
        assert (V : v = Z.pos m * 2 ^ e) by (injection R; intros <-; reflexivity).
        clear R. subst v.
        assert (P : 0 < 2 ^ e) by (apply Z.pow_pos_nonneg; lia).
        split; [apply Z.mul_nonneg_nonneg; lia|].
        apply float_of_Z_exact; [exact Dm|lia].
Qed.

(** The conversions of a natural number raise nothing but [OverflowError]. *)
Lemma py_round_of_Z_total n :
  0 <= n ->
  (exists v, py_round (float_of_Z n) = Ok v) \/ py_round (float_of_Z n) = Raise OverflowError.
Proof.
  intros H.
  destruct (float_of_Z_shape n H) as [F|[F|(m & e & F & D & E)]]; rewrite F; simpl; eauto.
Qed.

End FloatFacts.

(** ** Formatting: the digits written are the digits read back *)

Module FormatFacts.
Import ReFacts ValueRe Markup.

Lemma ascii_digit_is_digit c : ascii_digit c -> is_digit c = true.
Proof.
  intros [L U]. unfold is_digit, nd_zeros. cbn [existsb].
  replace (in_block c 48%N) with true; [reflexivity|].
  symmetry. unfold in_block. apply andb_true_iff. split.
  - apply N.leb_le. exact L.
  - apply N.ltb_lt. lia.
Qed.

Lemma ascii_digit_value c : ascii_digit c -> digit_value c = Z.of_N (c - 48%N).
Proof.
  intros [L U]. unfold digit_value, nd_zeros. cbn [find].
  replace (in_block c 48%N) with true; [reflexivity|].
  symmetry. unfold in_block. apply andb_true_iff. split.
  - apply N.leb_le. exact L.
  - apply N.ltb_lt. lia.
Qed.

Lemma uint_chars_ascii d : Forall ascii_digit (uint_chars d).
Proof.
  induction d; simpl; constructor; auto; unfold ascii_digit; lia.
Qed.

Lemma ascii_digits_are_digits l :
  Forall ascii_digit l -> Forall (fun c => is_digit c = true) l.
Proof. apply Forall_impl. exact ascii_digit_is_digit. Qed.

Lemma dec_value_acc d : forall acc,
  fold_left (fun a c => 10 * a + digit_value c) (uint_chars d) (Z.pos acc)
  = Z.pos (Pos.of_uint_acc d acc).
Proof.
  induction d; intros acc; simpl uint_chars; [reflexivity|..];
    cbn [fold_left Pos.of_uint_acc];
    rewrite ascii_digit_value by (unfold ascii_digit; lia);
    match goal with
    | |- fold_left _ _ ?z = Z.pos (Pos.of_uint_acc _ ?a) =>
      replace z with (Z.pos a)
        by (rewrite ?Pos2Z.inj_add, ?Pos2Z.inj_mul;
            match goal with |- context [Z.of_N ?k] =>
              let k' := eval vm_compute in (Z.of_N k) in change (Z.of_N k) with k' end;
            lia)
    end; apply IHd.
Qed.

Lemma dec_value_uint d : dec_value (uint_chars d) = Z.of_N (Pos.of_uint d).
Proof.
  unfold dec_value. induction d; simpl uint_chars; [reflexivity|..];
    cbn [fold_left Pos.of_uint];
    rewrite ascii_digit_value by (unfold ascii_digit; lia);
    try exact IHd;
    match goal with
    | |- fold_left _ _ ?z = Z.of_N (N.pos (Pos.of_uint_acc _ ?a)) =>
      change z with (Z.pos a)
    end; apply dec_value_acc.
Qed.

(** Reading the digits of a number gives the number. *)
Lemma dec_value_decimal n : dec_value (decimal n) = Z.of_N n.
Proof.
  unfold decimal. rewrite dec_value_uint.
  change (Pos.of_uint (N.to_uint n)) with (N.of_uint (N.to_uint n)).
  now rewrite DecimalN.Unsigned.of_to.
Qed.

Lemma decimal_not_empty n : decimal n <> [].
Proof.
  unfold decimal. intros E.
  assert (H : N.to_uint n = Decimal.Nil) by (destruct (N.to_uint n); try discriminate; reflexivity).
  destruct n as [|p]; [discriminate H|].
  unfold N.to_uint in H. apply (DecimalPos.Unsigned.to_uint_nonnil p H).
Qed.

Lemma replace_ascii_digits l :
  Forall ascii_digit l -> replace_char 44%N 32%N l = l.
Proof.
  unfold replace_char. induction 1 as [|c l [L U] F IH]; simpl; [reflexivity|].
  destruct (N.eqb_spec c 44); [lia|]. now rewrite IH.
Qed.

Lemma replace_char_app a b x y :
  replace_char a b (x ++ y) = replace_char a b x ++ replace_char a b y.
Proof. apply map_app. Qed.

Lemma comma_groups_tail j : forall l,
  length l = (3 * j)%nat -> Forall ascii_digit l ->
  grouped_tail (replace_char 44%N 32%N (comma_groups l))
  /\ filter is_digit (replace_char 44%N 32%N (comma_groups l)) = l.
Proof.
  induction j as [|j IH]; intros l L F.
  - destruct l; [|discriminate L]. simpl. split; [constructor|reflexivity].
  - destruct l as [|a [|b [|c t]]]; try (simpl in L; lia).
    pose proof (Forall_inv F) as Fa. pose proof (Forall_inv_tail F) as F1.
    pose proof (Forall_inv F1) as Fb. pose proof (Forall_inv_tail F1) as F2.
    pose proof (Forall_inv F2) as Fc. pose proof (Forall_inv_tail F2) as F3.
    destruct (IH t ltac:(simpl in L; lia) F3) as [G E].
    pose proof (ascii_digit_is_digit _ Fa) as Da.
    pose proof (ascii_digit_is_digit _ Fb) as Db.
    pose proof (ascii_digit_is_digit _ Fc) as Dc.
    assert (R : replace_char 44%N 32%N (comma_groups (a :: b :: c :: t))
                = 32%N :: a :: b :: c :: replace_char 44%N 32%N (comma_groups t)).
    { change (comma_groups (a :: b :: c :: t)) with (44%N :: a :: b :: c :: comma_groups t).
      unfold replace_char. cbn [map]. rewrite N.eqb_refl.
      destruct Fa, Fb, Fc.
      destruct (N.eqb_spec a 44); [lia|]. destruct (N.eqb_spec b 44); [lia|].
      destruct (N.eqb_spec c 44); [lia|]. reflexivity. }
    rewrite R. split; [constructor; assumption|].
    cbn [filter]. change (is_digit 32%N) with false. rewrite Da, Db, Dc, E.
    reflexivity.
Qed.

(** The shape of a formatted number: one to three digits, then groups. *)
Lemma group_thousands_shape ds :
  ds <> [] -> Forall ascii_digit ds ->
  exists run tail,
    replace_char 44%N 32%N (group_thousands ds) = run ++ tail
    /\ run <> [] /\ (length run <= 3)%nat
    /\ Forall (fun c => is_digit c = true) run
    /\ grouped_tail tail /\ run ++ filter is_digit tail = ds.
Proof.
  intros NE F. unfold group_thousands.
  set (k := S ((length ds - 1) mod 3)).
  assert (K : (1 <= k <= 3)%nat).
  { unfold k. pose proof (Nat.mod_upper_bound (length ds - 1) 3). lia. }
  assert (L1 : (1 <= length ds)%nat) by (destruct ds; [congruence|simpl; lia]).
  assert (Lk : (k <= length ds)%nat).
  { unfold k. pose proof (Nat.Div0.mod_le (length ds - 1) 3). lia. }
  assert (Ls : length (skipn k ds) = (3 * ((length ds - 1) / 3))%nat).
  { rewrite length_skipn. unfold k.
    pose proof (Nat.div_mod_eq (length ds - 1) 3). lia. }
  assert (Ff : Forall ascii_digit (firstn k ds) /\ Forall ascii_digit (skipn k ds))
    by (apply Forall_app; rewrite firstn_skipn; exact F).
  destruct Ff as [Ff Fs].
  destruct (comma_groups_tail _ _ Ls Fs) as [G E].
  exists (firstn k ds), (replace_char 44%N 32%N (comma_groups (skipn k ds))).
  split; [|split; [|split; [|split; [|split]]]].
  - rewrite replace_char_app. now rewrite (replace_ascii_digits (firstn k ds)).
  - destruct ds; [congruence|]. destruct k; [lia|]. discriminate.
  - rewrite length_firstn. lia.
  - now apply ascii_digits_are_digits.
  - exact G.
  - rewrite E. apply firstn_skipn.
Qed.

End FormatFacts.

(** ** [apply_markup] on a text it has written *)

Module Reread.
Import ReFacts ValueRe Markup FloatFacts FormatFacts.

Lemma rep_req_S body n s :
  rep_req body (S n) s = flat_map (rep_req body n) (body s).
Proof. reflexivity. Qed.

(** Exactly three digits. *)
Lemma three_digits a b c t cs :
  is_digit a = true -> is_digit b = true -> is_digit c = true ->
  exits (digits 3 (Some 3%nat)) (mk (a :: b :: c :: t) cs) = [mk t cs].
Proof.
  intros Da Db Dc. unfold digits. rewrite exits_rep_bounded.
  rewrite rep_req_S, exits_chr. simpl in_cset. rewrite Da. cbn [flat_map].
  rewrite app_nil_r, rep_req_S, exits_chr. simpl in_cset. rewrite Db. cbn [flat_map].
  rewrite app_nil_r, rep_req_S, exits_chr. simpl in_cset. rewrite Dc. reflexivity.
Qed.

Lemma three_digits_fail s :
  no_digit_ahead (rest s) -> exits (digits 3 (Some 3%nat)) s = [].
Proof.
  intros N. unfold digits. rewrite exits_rep_bounded, rep_req_S.
  rewrite exits_digit_stop by exact N. reflexivity.
Qed.

(** A space and three digits make a group; a space and no digit do not. *)
Lemma group3_ok a b c t cs :
  is_digit a = true -> is_digit b = true -> is_digit c = true ->
  exits group3 (mk (32%N :: a :: b :: c :: t) cs) = [mk t cs].
Proof.
  intros Da Db Dc. unfold group3, sep. rewrite exits_seq, exits_chr.
  change (in_cset (OneOf [46%N; 32%N]) 32%N) with true. cbn [flat_map].
  rewrite three_digits by assumption. reflexivity.
Qed.

Lemma group3_fail t cs :
  no_digit_ahead t -> exits group3 (mk (32%N :: t) cs) = [].
Proof.
  intros N. unfold group3, sep. rewrite exits_seq, exits_chr.
  change (in_cset (OneOf [46%N; 32%N]) 32%N) with true. cbn [flat_map].
  rewrite three_digits_fail by exact N. reflexivity.
Qed.

(** The greedy loop reads all the groups and stops before the space that
    precedes the currency. *)
Lemma groups_hd tail : grouped_tail tail -> forall n c cs,
  (length tail <= n)%nat -> no_digit_ahead c ->
  exists l, rep_opt (exits group3) n (mk (tail ++ 32%N :: c) cs)
            = mk (32%N :: c) cs :: l.
Proof.
  induction 1 as [|x y z t Dx Dy Dz G IH]; intros n c cs L N.
  - destruct n as [|n]; [exists []; reflexivity|].
    rewrite rep_opt_S. simpl app. rewrite group3_fail by exact N.
    exists []. reflexivity.
  - destruct n as [|n]; [simpl in L; lia|].
    rewrite rep_opt_S. simpl app. rewrite group3_ok by assumption.
    cbn [flat_map rest length].
    replace (length (t ++ 32%N :: c) <? S (S (S (S (length (t ++ 32%N :: c))))))%nat
      with true by (symmetry; apply Nat.ltb_lt; lia).
    destruct (IH n c cs ltac:(simpl in L; lia) N) as (l & E).
    rewrite E. eexists. reflexivity.
Qed.

Lemma grouped_tail_no_digit_ahead tail c : grouped_tail tail -> no_digit_ahead (tail ++ 32%N :: c).
Proof. intros [|]; reflexivity. Qed.

(** The pattern on a formatted number followed by a space: the match is
    the number. *)
Lemma value_re_at_formatted run tail c cs :
  run <> [] -> (length run <= 3)%nat ->
  Forall (fun x => is_digit x = true) run -> grouped_tail tail ->
  no_digit_ahead c ->
  exists l, exits value_re (mk (run ++ tail ++ 32%N :: c) cs)
            = mk (32%N :: c) ((1%nat, run ++ tail) :: cs) :: l.
Proof.
  intros NE L F G N.
  destruct (upto3_digits_hd run (tail ++ 32%N :: c) cs NE L F
              (grouped_tail_no_digit_ahead tail c G)) as (l1 & E1).
  destruct (groups_hd tail G (length (tail ++ 32%N :: c)) c cs) as (l2 & E2);
    [rewrite length_app; lia|exact N|].
  assert (T : taken (mk (run ++ tail ++ 32%N :: c) cs) (mk (32%N :: c) cs)
              = run ++ tail).
  { apply taken_app. simpl. now rewrite app_assoc. }
  rewrite value_re_eq, exits_grp, exits_alt. unfold grouped at 1.
  rewrite exits_seq, E1. cbn [flat_map]. unfold groups_then_stop at 1, Star.
  rewrite exits_seq, exits_rep_unbounded.
  change (rep_req (exits (Seq sep (digits 3 (Some 3%nat)))) 0 (mk (tail ++ 32%N :: c) cs))
    with [mk (tail ++ 32%N :: c) cs].
  cbn [flat_map rest]. fold group3. rewrite E2. cbn [app flat_map].
  rewrite exits_nlook, exits_chr. simpl in_cset. change (is_digit 32%N) with false.
  cbn [app map rest caps]. rewrite T. eexists. reflexivity.
Qed.

(** [re.search] past a prefix without digits. *)
Lemma search_at pre l s' ls w :
  no_digit pre -> exits value_re (mk l []) = s' :: ls ->
  taken (mk l []) s' = w ->
  search value_re (pre ++ l)
  = Some {| m_start := length pre; m_whole := w; m_groups := caps s' |}.
Proof.
  intros Np E <-. unfold search. rewrite search_skip; [| |exact Np].
  - destruct l; cbn [search_from]; unfold match_at; rewrite E; reflexivity.
  - intros c t Hc. now apply value_re_no_match.
Qed.

Lemma grouped_tail_chars tail : grouped_tail tail -> Forall digit_or_sep tail.
Proof.
  induction 1 as [|x y z t Dx Dy Dz G IH]; [constructor|].
  unfold digit_or_sep. repeat (constructor; auto).
Qed.

Lemma dec_value_nonneg s : 0 <= dec_value s.
Proof.
  unfold dec_value.
  assert (G : forall acc, 0 <= acc ->
              0 <= fold_left (fun a c => 10 * a + digit_value c) s acc).
  { induction s as [|c s IH]; intros acc A; cbn [fold_left]; [exact A|].
    apply IH. unfold digit_value. destruct (find (in_block c) nd_zeros); lia. }
  apply G. lia.
Qed.

(** The shape of a formatted natural number, and its digits read back. *)
Lemma format_shape v :
  0 <= v ->
  exists run tail,
    replace_char 44%N 32%N (format_commas v) = run ++ tail
    /\ run <> [] /\ (length run <= 3)%nat
    /\ Forall (fun c => is_digit c = true) run
    /\ grouped_tail tail
    /\ dec_value (run ++ filter is_digit tail) = v.
Proof.
  intros H. destruct v as [|q|q]; [| |lia].
  - exists [48%N], []. split; [reflexivity|]. split; [discriminate|].
    split; [simpl; lia|]. split; [repeat constructor|].
    split; [constructor|reflexivity].
  - unfold format_commas.
    destruct (group_thousands_shape (decimal (N.pos q)))
      as (run & tail & E & NE & L & F & G & D).
    + apply decimal_not_empty.
    + apply uint_chars_ascii.
    + exists run, tail. rewrite D, dec_value_decimal. auto 10.
Qed.

(** [apply_markup] on a price it has written reads the number back. *)
Lemma apply_markup_price_text p v c p' c' m :
  no_digit p -> no_digit_ahead c -> 0 <= v ->
  apply_markup (price_text p v c) p' c' m = scaled (price_text p v c) p' c' v m.
Proof.
  intros Np Nc V.
  destruct (format_shape v V) as (run & tail & E & NE & L & F & G & D).
  destruct (value_re_at_formatted run tail c [] NE L F G Nc) as (l & X).
  assert (T : price_text p v c = p ++ run ++ tail ++ 32%N :: c).
  { unfold price_text. rewrite E, <- app_assoc. reflexivity. }
  assert (W : taken (mk (run ++ tail ++ 32%N :: c) []) (mk (32%N :: c) [(1%nat, run ++ tail)])
              = run ++ tail).
  { apply taken_app. simpl. now rewrite app_assoc. }
  rewrite T at 1. unfold apply_markup.
  rewrite (search_at p _ _ _ _ Np X W). cbn [caps].
  change (group _ 1) with (Some (run ++ tail)). cbv iota beta.
  rewrite strip_digit_or_sep
    by (apply Forall_app; split;
        [now apply digits_digit_or_sep|now apply grouped_tail_chars]).
  rewrite filter_app, (filter_all _ _ F), <- T.
  unfold float_of_str.
  destruct run as [|d run]; [congruence|]. simpl app at 1.
  change (d :: run ++ filter is_digit tail) with ((d :: run) ++ filter is_digit tail).
  rewrite forallb_app, forallb_filter, andb_true_r.
  replace (forallb is_digit (d :: run)) with true
    by (symmetry; apply forallb_forall; now apply Forall_forall).
  rewrite D. reflexivity.
Qed.

(** With the multiplier [1.0], what [apply_markup] writes it reads back
    and writes again unchanged. *)
Lemma apply_markup_fixed_point x p c y :
  no_digit p -> no_digit_ahead c ->
  apply_markup x p c f_1_0 = Ok y -> apply_markup y p c f_1_0 = Ok y.
Proof.
  intros Np Nc H.
  destruct (existsb is_digit x) eqn:X.
  - destruct (first_run x X) as (pre & run & post & -> & Npre & NE & F & N).
    destruct (apply_markup_at_run pre run post p c f_1_0 Npre NE F N)
      as (g & post' & _ & _ & _ & _ & A).
    rewrite A in H. unfold scaled in H.
    set (n := dec_value (run ++ filter is_digit g)) in *.
    pose proof (dec_value_nonneg (run ++ filter is_digit g)) as N0. fold n in N0.
    rewrite fmul_one_of_Z in H by exact N0.
    destruct (py_round (float_of_Z n)) as [v|e] eqn:R.
    + simpl in H. injection H as <-.
      destruct (py_round_of_Z_fix n v N0 R) as [V FV].
      rewrite apply_markup_price_text by assumption.
      unfold scaled. rewrite fmul_one_of_Z, FV, R by exact V. reflexivity.
    + destruct (py_round_of_Z_total n N0) as [(v & R')|R']; rewrite R' in R.
      * discriminate R.
      * injection R as <-. discriminate H.
  - pose proof (no_digit_existsb x X) as N.
    rewrite apply_markup_no_digit in H by exact N. injection H as <-.
    now apply apply_markup_no_digit.
Qed.

End Reread.

(** ** The groups of [price_pattern] *)

Module Grammar.
Import ReFacts ValueRe.

Section Invariant.
Variable I : st -> Prop.
Variable body : st -> list st.
Hypothesis body_inv : forall s s', I s -> In s' (body s) -> I s'.

Lemma rep_req_inv n : forall s s', I s -> In s' (rep_req body n s) -> I s'.
Proof.
  induction n as [|n IH]; intros s s' Hs H.
  - destruct H as [<-|[]]. exact Hs.
  - change (rep_req body (S n) s)
      with (flat_map (rep_req body n) (body s)) in H.
    apply in_flat_map in H. destruct H as (s1 & H1 & H2). eauto.
Qed.

Lemma rep_opt_inv n : forall s s', I s -> In s' (rep_opt body n s) -> I s'.
Proof.
  induction n as [|n IH]; intros s s' Hs H.
  - destruct H as [<-|[]]. exact Hs.
  - rewrite rep_opt_S in H. apply in_app_or in H.
    destruct H as [H|[<-|[]]]; [|exact Hs].
    apply in_flat_map in H. destruct H as (s1 & H1 & H2).
    destruct (length (rest s1) <? length (rest s))%nat; [|contradiction].
    eauto.
Qed.
End Invariant.

Lemma exits_groups Q r :
  groups_read Q r -> forall s s',
  caps_read Q (caps s) -> In s' (exits r s) -> caps_read Q (caps s').
Proof.
  induction r as [k|a IHa b IHb|a IHa b IHb|lo hi a IHa|g a IHa|a IHa];
    intros G s s' C H.
  - rewrite (exits_caps (Chr k) I _ _ H). exact C.
  - destruct G as [Ga Gb]. rewrite exits_seq in H.
    apply in_flat_map in H. destruct H as (s1 & H1 & H2). eauto.
  - destruct G as [Ga Gb]. rewrite exits_alt in H.
    apply in_app_or in H. destruct H; eauto.
  - simpl in G.
    assert (B : forall x y, caps_read Q (caps x) -> In y (exits a x) -> caps_read Q (caps y))
      by (intros; eapply IHa; eauto).
    destruct hi as [h|];
      [rewrite exits_rep_bounded in H|rewrite exits_rep_unbounded in H];
      apply in_flat_map in H; destruct H as (s1 & H1 & H2);
      (eapply (rep_opt_inv (fun x => caps_read Q (caps x))); [exact B| |exact H2]);
      (eapply (rep_req_inv (fun x => caps_read Q (caps x))); [exact B|exact C|exact H1]).
  - destruct G as [Gg Ga]. rewrite exits_grp in H.
    apply in_map_iff in H. destruct H as (s1 & <- & H1). simpl.
    constructor; [apply Gg; exact H1|eapply IHa; eauto].
  - rewrite exits_nlook in H. destruct (exits a s); [|contradiction].
    destruct H as [<-|[]]. exact C.
Qed.

(** A regex reading only characters with [P] reads a text of them. *)
Lemma exits_taken P r s s' :
  reads P r -> In s' (exits r s) -> Forall P (taken s s').
Proof.
  intros R H. destruct (exits_ahead P r R s s' H) as (w & E & F).
  now rewrite (taken_app s s' w E).
Qed.

Lemma one_of_no_digit l :
  forallb (fun x => negb (is_digit x)) l = true ->
  forall c, in_cset (OneOf l) c = true -> is_digit c = false.
Proof.
  intros H c K. simpl in K. apply existsb_exists in K.
  destruct K as (x & Hx & E). apply N.eqb_eq in E. subst x.
  rewrite forallb_forall in H. specialize (H c Hx).
  now apply negb_true_iff in H.
Qed.

Lemma space_no_digit c : in_cset Space c = true -> is_digit c = false.
Proof. apply (one_of_no_digit spaces). reflexivity. Qed.

(** The label contains no digit. *)
Lemma prefix_re_reads : reads (fun c => is_digit c = false) prefix_re.
Proof.
  unfold prefix_re, word_then.
  change (u "Стоимость")
    with [1057; 1090; 1086; 1080; 1084; 1086; 1089; 1090; 1100]%N.
  cbn [fold_right reads Star Opt LitI ignorecase].
  repeat split; try exact space_no_digit; apply one_of_no_digit; reflexivity.
Qed.

Lemma price_pattern_groups : groups_read price_group price_pattern.
Proof.
  unfold price_pattern, Opt, Star. cbn [groups_read].
  repeat split.
  - intros s s' H. apply (exits_taken _ prefix_re); [exact prefix_re_reads|exact H].
  - intros [[|c t] cs] s' H; unfold currency_re, LitI in H.
    + rewrite exits_chr_nil in H. contradiction.
    + rewrite exits_chr in H. simpl in H.
      destruct (N.eqb_spec c 8364) as [->|_]; [|contradiction].
      destruct H as [<-|[]]. apply (taken_app _ _ [8364%N]). reflexivity.
Qed.

(** The groups [value] and [currency] take part in every match. *)
Lemma price_groups_present s s' :
  In s' (exits price_pattern s) ->
  exists c v cs, caps s' = (g_currency, c) :: (g_value, v) :: cs.
Proof.
  unfold price_pattern. intros H. rewrite exits_seq in H.
  apply in_flat_map in H. destruct H as (s1 & _ & H). rewrite exits_seq in H.
  apply in_flat_map in H. destruct H as (s2 & H2 & H). rewrite exits_seq in H.
  apply in_flat_map in H. destruct H as (s3 & H3 & H).
  rewrite exits_grp in H2, H.
  apply in_map_iff in H2. destruct H2 as (x2 & <- & _).
  apply in_map_iff in H. destruct H as (x3 & <- & H4).
  apply (exits_caps (Star (Chr Space)) I) in H3.
  apply (exits_caps currency_re I) in H4.
  simpl. rewrite H4, H3. simpl. eauto.
Qed.

Lemma search_from_sound r text : forall k m,
  search_from r k text = Some m ->
  exists l s', In s' (exits r (mk l [])) /\ m_groups m = caps s'
               /\ m_whole m = taken (mk l []) s'.
Proof.
  induction text as [|c t IH]; intros k m; cbn [search_from]; unfold match_at.
  - destruct (exits r (mk [] [])) as [|s' ls] eqn:E; [discriminate|].
    intros [= <-]. exists [], s'. rewrite E. simpl. auto.
  - destruct (exits r (mk (c :: t) [])) as [|s' ls] eqn:E.
    + apply IH.
    + intros [= <-]. exists (c :: t), s'. rewrite E. simpl. auto.
Qed.

Lemma finditer_sound r text m :
  In m (finditer r text) ->
  exists l s', In s' (exits r (mk l [])) /\ m_groups m = caps s'
               /\ m_whole m = taken (mk l []) s'.
Proof.
  unfold finditer. generalize (S (length text)) as fuel, 0%nat as k.
  intros fuel. revert text.
  induction fuel as [|fuel IH]; intros text k H; [contradiction|].
  cbn [finditer_from] in H.
  destruct (search_from r k text) as [m0|] eqn:E; [|contradiction].
  destruct H as [<-|H]; [now apply (search_from_sound r text k)|].
  now apply IH in H.
Qed.

Lemma group_found m g w : group m g = Some w -> In (g, w) (m_groups m).
Proof.
  unfold group. destruct (find _ (m_groups m)) as [[g' w']|] eqn:F; [|discriminate].
  intros [= <-]. apply find_some in F. destruct F as [F E].
  apply Nat.eqb_eq in E. simpl in E. now subst g'.
Qed.

(** Every price found has a label without digits and the euro sign as
    currency, and carries the page and the geometry of its span. *)
Lemma process_span_item sp page_num it :
  In it (process_span sp page_num price_pattern) ->
  no_digit (prefix it) /\ currency it = [8364%N]
  /\ page it = page_num + 1 /\ i_bbox it = sp_bbox sp
  /\ origin it = sp_origin sp /\ font_size it = sp_size sp.
Proof.
  unfold process_span. intros H. apply in_map_iff in H.
  destruct H as (m & <- & H). cbn [prefix currency page i_bbox origin font_size].
  apply finditer_sound in H. destruct H as (l & s' & H & G & _).
  pose proof (exits_groups price_group price_pattern price_pattern_groups
                (mk l []) s' (Forall_nil _) H) as C.
  destruct (price_groups_present _ _ H) as (c & v & cs & E).
  rewrite <- G in C, E. split; [|split; [|auto]].
  - unfold group_or_empty. destruct (group m g_prefix) as [w|] eqn:P; [|constructor].
    apply group_found in P. unfold caps_read in C. rewrite Forall_forall in C.
    apply (C _ P).
  - unfold group_or_empty, group. rewrite E. cbn [find fst snd g_currency Nat.eqb].
    rewrite E in C. apply Forall_inv in C. exact C.
Qed.

End Grammar.

(** ** The groups read after the first run of digits *)

Module Groups.
Import ReFacts ValueRe Reread.

(** What a group reads: a separator and three digits. *)
Lemma group3_exit x y :
  In y (exits group3 x) ->
  exists s a b c,
    rest x = s :: a :: b :: c :: rest y /\ (s = 46%N \/ s = 32%N)
    /\ is_digit a = true /\ is_digit b = true /\ is_digit c = true
    /\ caps y = caps x.
Proof.
  unfold group3, sep, digits. rewrite exits_seq. intros H.
  apply in_flat_map in H. destruct H as (x1 & H1 & H).
  destruct x as [[|s t] cs]; [rewrite exits_chr_nil in H1; contradiction|].
  rewrite exits_chr in H1.
  destruct (in_cset (OneOf [46%N; 32%N]) s) eqn:S; [|contradiction].
  destruct H1 as [<-|[]]. apply sep_chars in S.
  rewrite exits_rep_bounded in H. apply in_flat_map in H.
  destruct H as (x4 & H4 & H). rewrite Nat.sub_diag in H. destruct H as [<-|[]].
  rewrite rep_req_S in H4. apply in_flat_map in H4. destruct H4 as (x2 & H2 & H4).
  rewrite rep_req_S in H4. apply in_flat_map in H4. destruct H4 as (x3 & H3 & H4).
  rewrite rep_req_1 in H4.
  destruct t as [|a t]; [rewrite exits_chr_nil in H2; contradiction|].
  rewrite exits_chr in H2. destruct (in_cset Digit a) eqn:Da; [|contradiction].
  destruct H2 as [<-|[]].
  destruct t as [|b t]; [rewrite exits_chr_nil in H3; contradiction|].
  rewrite exits_chr in H3. destruct (in_cset Digit b) eqn:Db; [|contradiction].
  destruct H3 as [<-|[]].
  destruct t as [|c t]; [rewrite exits_chr_nil in H4; contradiction|].
  rewrite exits_chr in H4. destruct (in_cset Digit c) eqn:Dc; [|contradiction].
  destruct H4 as [<-|[]].
  exists s, a, b, c. cbn [rest caps]. auto 10.
Qed.

Lemma group3_read s a b c t cs :
  s = 46%N \/ s = 32%N ->
  is_digit a = true -> is_digit b = true -> is_digit c = true ->
  exits group3 (mk (s :: a :: b :: c :: t) cs) = [mk t cs].
Proof.
  intros S Da Db Dc. unfold group3, sep. rewrite exits_seq, exits_chr.
  replace (in_cset (OneOf [46%N; 32%N]) s) with true
    by (destruct S as [->| ->]; reflexivity).
  cbn [flat_map]. rewrite three_digits by assumption. reflexivity.
Qed.









End Groups.

(** ** The first number of a text is found in one way only *)

Module Split.
Import Groups.






End Split.

(** * The claims about [apply_markup] *)

Import ReFacts ValueRe Markup FloatFacts FormatFacts Reread Grammar Groups Split.

(** C1 — In a text whose first digit starts the run of digits [run],
    [apply_markup] finds its number at that run and reads the run whole,
    never a shorter prefix of it: the matched text is [run] followed by the
    groups [g] the pattern accepts after it, and when the run has more
    than three digits (an ungrouped number such as 1600) the match is the
    run alone and the number scaled is its value. *)
Theorem apply_markup_reads_maximal_run pre run post p c m :
  no_digit pre -> run <> [] -> Forall (fun x => is_digit x = true) run ->
  no_digit_ahead post ->
  exists g post',
    post = g ++ post'
    /\ search value_re (pre ++ run ++ post)
       = Some {| m_start := length pre; m_whole := run ++ g;
                 m_groups := [(1%nat, run ++ g)] |}
    /\ apply_markup (pre ++ run ++ post) p c m
       = scaled (pre ++ run ++ post) p c (dec_value (run ++ filter is_digit g)) m
    /\ ((3 < length run)%nat ->
        g = []
        /\ apply_markup (pre ++ run ++ post) p c m
           = scaled (pre ++ run ++ post) p c (dec_value run) m).
Proof.
  intros Np NE F N.
  destruct (apply_markup_at_run pre run post p c m Np NE F N)
    as (g & post' & Eg & Fg & Lg & S & A).
  exists g, post'. repeat (split; [assumption|]).
  intros L. specialize (Lg L). subst g. split; [reflexivity|].
  rewrite A. simpl filter. now rewrite app_nil_r.
Qed.

Lemma apply_markup_reads_maximal_run_witness :
  exists g post',
    u "€" = g ++ post'
    /\ search value_re (u "Стоимость " ++ u "1600" ++ u "€")
       = Some {| m_start := length (u "Стоимость "); m_whole := u "1600" ++ g;
                 m_groups := [(1%nat, u "1600" ++ g)] |}
    /\ apply_markup (u "Стоимость " ++ u "1600" ++ u "€") (u "Стоимость ") (u "€") f_1_05
       = scaled (u "Стоимость " ++ u "1600" ++ u "€") (u "Стоимость ") (u "€")
                (dec_value (u "1600" ++ filter is_digit g)) f_1_05
    /\ ((3 < length (u "1600"))%nat ->
        g = []
        /\ apply_markup (u "Стоимость " ++ u "1600" ++ u "€") (u "Стоимость ") (u "€") f_1_05
           = scaled (u "Стоимость " ++ u "1600" ++ u "€") (u "Стоимость ") (u "€")
                    (dec_value (u "1600")) f_1_05).
Proof.
  apply (apply_markup_reads_maximal_run
           (u "Стоимость ") (u "1600") (u "€") (u "Стоимость ") (u "€") f_1_05).
  - apply no_digit_check. vm_compute. reflexivity.
  - discriminate.
  - apply digits_check. vm_compute. reflexivity.
  - vm_compute. reflexivity.
Defined.

(** The example of the specification: 1600 is scaled, not 160. *)
Example apply_markup_1600 :
  apply_markup (u "Стоимость 1600€") (u "Стоимость ") (u "€") f_1_05
  = Ok (u "Стоимость 1 680 €").
Proof. vm_compute. reflexivity. Qed.

(** Evaluates a closed subterm of the goal. *)
Ltac eval_closed t :=
  let r := eval vm_compute in t in change t with r.

(** The text is returned unchanged when it has no digit, and when the
    product is not a number; no exception other than [OverflowError]
    leaves [apply_markup]. *)
Lemma apply_markup_raises_only_overflow text p c m :
  (exists y, apply_markup text p c m = Ok y)
  \/ apply_markup text p c m = Raise OverflowError.
Proof.
  destruct (existsb is_digit text) eqn:X.
  - destruct (first_run text X) as (pre & run & post & -> & Npre & NE & F & N).
    destruct (apply_markup_at_run pre run post p c m Npre NE F N)
      as (g & post' & _ & _ & _ & _ & A).
    rewrite A. unfold scaled.
    destruct (fmul (float_of_Z (dec_value (run ++ filter is_digit g))) m);
      simpl; eauto.
  - left. exists text. apply apply_markup_no_digit. now apply no_digit_existsb.
Qed.

(** C3 — [apply_markup] lets an exception escape: on a run of 310 digits
    with the multiplier 1.0 the product is infinite, [round] raises
    [OverflowError], and the handler catches [ValueError] only. The text
    is not returned unchanged there. *)
Theorem apply_markup_overflow_escapes :
  apply_markup (49%N :: repeat 48%N 309) [] (u "€") f_1_0 = Raise OverflowError.
Proof. vm_compute. reflexivity. Qed.

(** C7 — The two worked examples: 35 000 with 5 % gives 36 750, and 12
    with 10 % gives 13, both directly and through the table built from the
    scanned span with the markup entered as a percentage. *)
Theorem apply_markup_examples :
  apply_markup (u "Стоимость 35 000 €") (u "Стоимость ") (u "€") f_1_05
  = Ok (u "Стоимость 36 750 €")
  /\ apply_markup (u "12€") [] (u "€") f_1_10 = Ok (u "13 €")
  /\ markup_multiplier (float_of_Z 5) = f_1_05
  /\ markup_multiplier (float_of_Z 10) = f_1_10
  /\ (forall sp,
        sp_text sp = u "Стоимость 35 000 €" ->
        bind (data_for_df (process_span sp 0 price_pattern)
                          (markup_multiplier (float_of_Z 5)))
             (fun rows => Ok (map New_Text rows))
        = Ok [u "Стоимость 36 750 €"])
  /\ (forall sp,
        sp_text sp = u "12€" ->
        bind (data_for_df (process_span sp 0 price_pattern)
                          (markup_multiplier (float_of_Z 10)))
             (fun rows => Ok (map New_Text rows))
        = Ok [u "13 €"]).
Proof.
  split; [vm_compute; reflexivity|]. split; [vm_compute; reflexivity|].
  split; [vm_compute; reflexivity|]. split; [vm_compute; reflexivity|].
  split; intros sp E; unfold process_span; rewrite E.
  - eval_closed (finditer price_pattern (u "Стоимость 35 000 €")).
    vm_compute. reflexivity.
  - eval_closed (finditer price_pattern (u "12€")).
    vm_compute. reflexivity.
Qed.

Lemma apply_markup_examples_witness :
  bind (data_for_df
          (process_span {| sp_text := u "Стоимость 35 000 €";
                           sp_bbox := (S754_zero false, S754_zero false,
                                       S754_zero false, S754_zero false);
                           sp_origin := (S754_zero false, S754_zero false);
                           sp_size := float_of_Z 12; sp_color := 0 |}
                        0 price_pattern)
          (markup_multiplier (float_of_Z 5)))
       (fun rows => Ok (map New_Text rows))
  = Ok [u "Стоимость 36 750 €"].
Proof.
  apply (proj1 (proj2 (proj2 (proj2 (proj2 apply_markup_examples))))).
  reflexivity.
Defined.
(** The product of a finite number and a number is a number. *)
Lemma shr_record_m m l : shr_m (shr_record_of_loc m l) = m.
Proof. destruct l as [|[| |]]; reflexivity. Qed.

Lemma shr_fexp_nonneg m e l :
  0 <= m -> 0 <= shr_m (fst (shr_fexp prec emax m e l)).
Proof.
  intros H. unfold shr_fexp, shr.
  destruct (fexp prec emax (Zdigits2 m + e) - e) as [|k|k]; cbn [fst];
    rewrite ?shr_m_iter, shr_record_m by (rewrite shr_record_m; exact H);
    try exact H.
  apply Z.div_pos; [exact H|]. apply Z.pow_pos_nonneg; lia.
Qed.

Lemma round_aux_number s m e l :
  0 <= m -> binary_round_aux prec emax s m e l <> S754_nan.
Proof.
  intros H. unfold binary_round_aux.
  pose proof (shr_fexp_nonneg m e l H) as H1.
  destruct (shr_fexp prec emax m e l) as [mrs1 e1]. cbn [fst] in H1.
  pose proof (round_nearest_even_bounds (shr_m mrs1) (loc_of_shr_record mrs1)) as R.
  pose proof (shr_fexp_nonneg (round_nearest_even (shr_m mrs1) (loc_of_shr_record mrs1))
                e1 loc_Exact ltac:(lia)) as H2.
  destruct (shr_fexp prec emax _ e1 loc_Exact) as [mrs2 e2]. cbn [fst] in H2.
  destruct (shr_m mrs2) as [|q|q]; [discriminate| |lia].
  destruct (e2 <=? emax - prec); discriminate.
Qed.

Lemma fmul_finite_number s a e m :
  m <> S754_nan -> fmul (S754_finite s a e) m <> S754_nan.
Proof.
  intros H. destruct m as [t|t| |t b e']; try discriminate; [congruence|].
  apply round_aux_number. lia.
Qed.

(** C8 — The bare and the grouped spelling of 1600 are both found as
    prices by the grammar, with the same currency and no label; both
    values are the number 1600 once the separators are stripped;
    [apply_markup] scales 1600 for both, whatever the label, the currency
    and the multiplier, and so gives the same text for both as soon as
    the multiplier is a number. *)
Theorem grouped_and_ungrouped_spelling :
  map (fun m => (m_whole m, group m g_prefix, group m g_value, group m g_currency))
      (finditer price_pattern (u "1600 €"))
  = [(u "1600 €", None, Some (u "1600"), Some (u "€"))]
  /\ map (fun m => (m_whole m, group m g_prefix, group m g_value, group m g_currency))
         (finditer price_pattern (u "1 600 €"))
     = [(u "1 600 €", None, Some (u "1 600"), Some (u "€"))]
  /\ dec_value (strip_separators (u "1600")) = 1600
  /\ dec_value (strip_separators (u "1 600")) = 1600
  /\ forall p c m,
       apply_markup (u "1600 €") p c m = scaled (u "1600 €") p c 1600 m
       /\ apply_markup (u "1 600 €") p c m = scaled (u "1 600 €") p c 1600 m
       /\ (m <> S754_nan ->
           apply_markup (u "1600 €") p c m = apply_markup (u "1 600 €") p c m).
Proof.
  split; [vm_compute; reflexivity|]. split; [vm_compute; reflexivity|].
  split; [vm_compute; reflexivity|]. split; [vm_compute; reflexivity|].
  intros p c m.
  assert (A1 : apply_markup (u "1600 €") p c m = scaled (u "1600 €") p c 1600 m).
  { unfold apply_markup, scaled.
    eval_closed (search value_re (u "1600 €")). cbv iota beta.
    match goal with |- context [group ?x 1] => eval_closed (group x 1) end.
    cbv iota beta.
    match goal with |- context [float_of_str ?x] => eval_closed (float_of_str x) end.
    eval_closed (float_of_Z 1600). reflexivity. }
  assert (A2 : apply_markup (u "1 600 €") p c m = scaled (u "1 600 €") p c 1600 m).
  { unfold apply_markup, scaled.
    eval_closed (search value_re (u "1 600 €")). cbv iota beta.
    match goal with |- context [group ?x 1] => eval_closed (group x 1) end.
    cbv iota beta.
    match goal with |- context [float_of_str ?x] => eval_closed (float_of_str x) end.
    eval_closed (float_of_Z 1600). reflexivity. }
  split; [exact A1|]. split; [exact A2|].
  intros Hm. rewrite A1, A2. unfold scaled.
  eval_closed (float_of_Z 1600).
  match goal with |- context [fmul ?x m] =>
    pose proof (fmul_finite_number false _ _ m Hm : fmul x m <> S754_nan) as NN;
    destruct (fmul x m) as [t|t| |t b e']
  end; try reflexivity. congruence.
Qed.

Lemma grouped_and_ungrouped_spelling_witness :
  f_1_05 <> S754_nan
  /\ apply_markup (u "1600 €") [] (u "€") f_1_05
     = apply_markup (u "1 600 €") [] (u "€") f_1_05.
Proof.
  split; [discriminate|].
  apply (proj2 (proj2 (proj2 (proj2 (proj2 (proj2 grouped_and_ungrouped_spelling)))
                               [] (u "€") f_1_05))).
  discriminate.
Defined.

(** C6 — For the label and the currency of every price the scanner finds,
    and every text [x], the transform with the multiplier 1.0 is
    idempotent: applying it to its own result gives that result again. *)
Theorem markup_by_one_idempotent sp page_num it x :
  In it (process_span sp page_num price_pattern) ->
  bind (apply_markup x (prefix it) (currency it) f_1_0)
       (fun y => apply_markup y (prefix it) (currency it) f_1_0)
  = apply_markup x (prefix it) (currency it) f_1_0
  /\ forall y,
       apply_markup x (prefix it) (currency it) f_1_0 = Ok y ->
       apply_markup y (prefix it) (currency it) f_1_0 = Ok y.
Proof.
  intros H. destruct (process_span_item sp page_num it H) as (Np & Ec & _).
  assert (Nc : no_digit_ahead (currency it)) by (rewrite Ec; reflexivity).
  assert (Fix : forall y,
             apply_markup x (prefix it) (currency it) f_1_0 = Ok y ->
             apply_markup y (prefix it) (currency it) f_1_0 = Ok y)
    by (intros y; now apply apply_markup_fixed_point).
  split; [|exact Fix].
  destruct (apply_markup x (prefix it) (currency it) f_1_0) as [y|e] eqn:E;
    [|reflexivity].
  simpl. now apply Fix.
Qed.

Lemma example_item_found :
  process_span example_span 0 price_pattern = [example_item].
Proof. vm_compute. reflexivity. Qed.

Lemma markup_by_one_idempotent_witness :
  In example_item (process_span example_span 0 price_pattern)
  /\ bind (apply_markup (u "Цена 36750€") (prefix example_item)
                        (currency example_item) f_1_0)
          (fun y => apply_markup y (prefix example_item) (currency example_item) f_1_0)
     = apply_markup (u "Цена 36750€") (prefix example_item)
                    (currency example_item) f_1_0.
Proof.
  assert (H : In example_item (process_span example_span 0 price_pattern))
    by (rewrite example_item_found; left; reflexivity).
  split; [exact H|].
  exact (proj1 (markup_by_one_idempotent example_span 0 example_item
                  (u "Цена 36750€") H)).
Defined.

(** With a label that holds a digit the transform is not idempotent; the
    grammar admits no such label. *)
Example idempotence_needs_label_without_digit :
  apply_markup (u "7 €") (u "No. 5: ") (u "€") f_1_0 = Ok (u "No. 5: 7 €")
  /\ apply_markup (u "No. 5: 7 €") (u "No. 5: ") (u "€") f_1_0
     = Ok (u "No. 5: 5 €").
Proof. split; vm_compute; reflexivity. Qed.


(** Other digits the user typed are dropped as well: those after the first
    numeric run, and leading zeros. *)
Example display_text_drops_digits :
  apply_markup (u "36750.50 €") (u "Стоимость ") (u "€") f_1_0
  = Ok (u "Стоимость 36 750 €")
  /\ apply_markup (u "N/A 5 or 6") (u "Стоимость ") (u "€") f_1_0
     = Ok (u "Стоимость 5 €")
  /\ apply_markup (u "007") (u "Стоимость ") (u "€") f_1_0
     = Ok (u "Стоимость 7 €")
  /\ apply_markup (u "N/A") (u "Стоимость ") (u "€") f_1_0 = Ok (u "N/A").
Proof. repeat split; vm_compute; reflexivity. Qed.

(** After a run of one to three digits the groups are given back when a
    digit follows them: in "1 2345" the group " 234" is followed by 5. *)
Example display_text_gives_groups_back :
  apply_markup (u "1 2345 €") (u "Стоимость ") (u "€") f_1_0
  = Ok (u "Стоимость 1 €")
  /\ apply_markup (u "1 234 €") (u "Стоимость ") (u "€") f_1_0
     = Ok (u "Стоимость 1 234 €")
  /\ apply_markup (u "1 234.567 8") (u "Стоимость ") (u "€") f_1_0
     = Ok (u "Стоимость 1 234 567 €").
Proof. repeat split; vm_compute; reflexivity. Qed.



(** * The generation phase *)

Module Plan.

Lemma str_eqb_eq a : forall b, str_eqb a b = true <-> a = b.
Proof.
  induction a as [|x a IH]; intros [|y b]; simpl; split; try discriminate; auto.
  - intros H. apply andb_true_iff in H. destruct H as [H1 H2].
    apply N.eqb_eq in H1. apply IH in H2. congruence.
  - intros [= -> ->]. apply andb_true_iff. split; [apply N.eqb_refl|now apply IH].
Qed.

Lemma add_ops_nil d : add_ops d [] = d.
Proof. destruct d. unfold add_ops. simpl. now rewrite app_nil_r. Qed.

Lemma add_ops_app d a b : add_ops (add_ops d a) b = add_ops d (a ++ b).
Proof. unfold add_ops. simpl. now rewrite app_assoc. Qed.

Lemma pass1_eq all_prices r d :
  pass1 all_prices r d
  = match whiteout_of all_prices (page_count d) r with
    | Ok ops => (Ok tt, add_ops d ops)
    | Raise e => (Raise e, d)
    end.
Proof.
  unfold pass1, whiteout_of, bindM, lift, get_page, page_of, draw, ret, add_ops.
  destruct (py_index all_prices (ID r)) as [it|e]; simpl; [|reflexivity].
  destruct (changed r it); simpl.
  - destruct ((page it - 1 <? page_count d) && (0 <? page_count d)); reflexivity.
  - fold (add_ops d []). now rewrite add_ops_nil.
Qed.

Lemma pass2_eq font_file all_prices r d :
  pass2 font_file all_prices r d
  = match insertion_of font_file all_prices (page_count d) r with
    | Ok ops => (Ok tt, add_ops d ops)
    | Raise e => (Raise e, d)
    end.
Proof.
  unfold pass2, insertion_of, bindM, lift, get_page, page_of, draw, ret,
    font_missing, except_Exception, insert_font, x0_of, add_ops.
  destruct (py_index all_prices (ID r)) as [it|e]; simpl; [|reflexivity].
  destruct (changed r it); simpl.
  - destruct ((page it - 1 <? page_count d) && (0 <? page_count d)); simpl;
      [|reflexivity].
    destruct (i_bbox it) as [[[x0 y0] x1] y1].
    destruct (apply_markup (New_Text r) (prefix it) (currency it) f_1_0) as [txt|e];
      simpl; [|reflexivity].
    destruct font_file; simpl; unfold draw, lift; simpl;
      rewrite <- ?app_assoc; reflexivity.
  - fold (add_ops d []). now rewrite add_ops_nil.
Qed.

Lemma for_each_run (body : row -> M unit) f rows :
  (forall r d, body r d = match f (page_count d) r with
                          | Ok ops => (Ok tt, add_ops d ops)
                          | Raise e => (Raise e, d)
                          end) ->
  forall d, for_each rows body d
            = (fst (run (f (page_count d)) rows),
               add_ops d (snd (run (f (page_count d)) rows))).
Proof.
  intros B. induction rows as [|r t IH]; intros d; simpl.
  - unfold ret. now rewrite add_ops_nil.
  - unfold bindM. rewrite B.
    destruct (f (page_count d) r) as [ops|e]; simpl.
    + rewrite IH. simpl page_count.
      destruct (run (f (page_count d)) t) as [res ops']. simpl.
      now rewrite add_ops_app.
    + now rewrite add_ops_nil.
Qed.

(** The generation phase as a plan: the whiteouts of all rows, then the
    insertions of all rows. *)
Lemma generate_eq font_file all_prices rows d :
  generate font_file all_prices rows d
  = let pc := page_count d in
    let '(r1, o1) := run (whiteout_of all_prices pc) rows in
    match r1 with
    | Ok _ =>
      let '(r2, o2) := run (insertion_of font_file all_prices pc) rows in
      (r2, add_ops d (o1 ++ o2))
    | Raise e => (Raise e, add_ops d o1)
    end.
Proof.
  unfold generate, bindM.
  rewrite (for_each_run (pass1 all_prices) (whiteout_of all_prices))
    by (intros; apply pass1_eq).
  cbv zeta.
  destruct (run (whiteout_of all_prices (page_count d)) rows) as [r1 o1]. simpl.
  destruct r1 as [[]|e]; [|reflexivity].
  rewrite (for_each_run (pass2 font_file all_prices)
                        (insertion_of font_file all_prices))
    by (intros; apply pass2_eq).
  simpl page_count.
  destruct (run (insertion_of font_file all_prices (page_count d)) rows) as [r2 o2].
  simpl. now rewrite add_ops_app.
Qed.

Lemma run_ops_in f rows e :
  In e (snd (run f rows)) ->
  exists r ops, In r rows /\ f r = Ok ops /\ In e ops.
Proof.
  induction rows as [|r t IH]; simpl; [contradiction|].
  destruct (f r) as [ops|x] eqn:E; [|contradiction].
  destruct (run f t) as [res ops']. simpl in *. intros H.
  apply in_app_or in H. destruct H as [H|H].
  - exists r, ops. auto.
  - destruct (IH H) as (r' & o & I & F & J). exists r', o. auto.
Qed.

Lemma run_ok_all f rows :
  fst (run f rows) = Ok tt ->
  forall r, In r rows -> exists ops, f r = Ok ops /\ incl ops (snd (run f rows)).
Proof.
  induction rows as [|r t IH]; simpl; [contradiction|].
  destruct (f r) as [ops|x] eqn:E; [|discriminate].
  destruct (run f t) as [res ops']. simpl in *. intros R r' [<-|I].
  - exists ops. split; [exact E|]. now apply incl_appl, incl_refl.
  - destruct (IH R r' I) as (o & F & J). exists o. split; [exact F|].
    now apply incl_appr.
Qed.

(** A row for which nothing is drawn can be left out. *)
Lemma run_skip f r l1 l2 :
  f r = Ok [] -> run f (l1 ++ r :: l2) = run f (l1 ++ l2).
Proof.
  intros E. induction l1 as [|x l1 IH]; simpl.
  - rewrite E. now destruct (run f l2).
  - now rewrite IH.
Qed.

Lemma whiteout_erases all_prices pc r ops :
  whiteout_of all_prices pc r = Ok ops -> Forall (fun e => is_erase e = true) ops.
Proof.
  unfold whiteout_of. destruct (py_index all_prices (ID r)) as [it|]; [|discriminate].
  simpl. destruct (changed r it).
  - destruct (page_of pc (page it - 1)); [|discriminate].
    intros [= <-]. repeat constructor.
  - intros [= <-]. constructor.
Qed.

Lemma insertion_no_erase font_file all_prices pc r ops :
  insertion_of font_file all_prices pc r = Ok ops ->
  Forall (fun e => is_erase e = false) ops.
Proof.
  unfold insertion_of. destruct (py_index all_prices (ID r)) as [it|]; [|discriminate].
  simpl. destruct (changed r it).
  - destruct (page_of pc (page it - 1)); [|discriminate]. simpl.
    destruct (apply_markup _ _ _ _); [|discriminate].
    intros [= <-]. destruct font_file; repeat constructor.
  - intros [= <-]. constructor.
Qed.

Lemma run_forall (P : Z * op -> Prop) f rows :
  (forall r ops, f r = Ok ops -> Forall P ops) -> Forall P (snd (run f rows)).
Proof.
  intros H. apply Forall_forall. intros e I.
  destruct (run_ops_in f rows e I) as (r & ops & _ & F & J).
  specialize (H r ops F). rewrite Forall_forall in H. auto.
Qed.

(** After something that is not a whiteout, in whiteouts followed by
    other operations, no whiteout comes. *)
Lemma no_erase_after (l1 l2 : list (Z * op)) :
  Forall (fun e => is_erase e = true) l1 ->
  Forall (fun e => is_erase e = false) l2 ->
  forall before e after,
    l1 ++ l2 = before ++ e :: after -> is_erase e = false ->
    Forall (fun x => is_erase x = false) after.
Proof.
  induction l1 as [|x l1 IH]; intros F1 F2 before e after E N.
  - simpl in E. rewrite E in F2. apply Forall_app in F2.
    destruct F2 as [_ F2]. now apply Forall_inv_tail in F2.
  - destruct before as [|y before]; simpl in E; injection E as -> E.
    + apply Forall_inv in F1. congruence.
    + apply Forall_inv_tail in F1. eauto.
Qed.

End Plan.

(** * The claims about the generation phase *)

Import Plan.

(** C2 — Whatever the rows, the operations the generation phase draws are
    the whiteouts of the first loop over all rows followed by the
    insertions of the second loop over all rows: when anything is
    inserted, every whiteout of every row has been drawn; and no whiteout
    is drawn after an inserted text, so no replacement text is painted
    over, overlapping boxes or not. *)
Theorem erase_before_insert font_file all_prices rows d :
  exists res erases inserts,
    generate font_file all_prices rows d = (res, add_ops d (erases ++ inserts))
    /\ Forall (fun e => is_erase e = true) erases
    /\ Forall (fun e => is_erase e = false) inserts
    /\ erases = snd (run (whiteout_of all_prices (page_count d)) rows)
    /\ (inserts <> [] ->
        fst (run (whiteout_of all_prices (page_count d)) rows) = Ok tt
        /\ inserts = snd (run (insertion_of font_file all_prices (page_count d)) rows))
    /\ (inserts <> [] ->
        forall r it pg,
          In r rows -> py_index all_prices (ID r) = Ok it -> changed r it = true ->
          page_of (page_count d) (page it - 1) = Ok pg ->
          In (pg, DrawRect (i_bbox it) white white true) erases)
    /\ (forall before e after,
          erases ++ inserts = before ++ e :: after -> is_text e = true ->
          Forall (fun x => is_erase x = false) after).
Proof.
  rewrite generate_eq. cbv zeta.
  pose proof (run_ok_all (whiteout_of all_prices (page_count d)) rows) as A1.
  pose proof (run_forall (fun e => is_erase e = true)
                (whiteout_of all_prices (page_count d)) rows
                (whiteout_erases all_prices (page_count d))) as F1.
  pose proof (run_forall (fun e => is_erase e = false)
                (insertion_of font_file all_prices (page_count d)) rows
                (insertion_no_erase font_file all_prices (page_count d))) as F2.
  destruct (run (whiteout_of all_prices (page_count d)) rows) as [r1 o1].
  destruct (run (insertion_of font_file all_prices (page_count d)) rows) as [r2 o2].
  simpl in F1, F2.
  assert (T : forall e : Z * op, is_text e = true -> is_erase e = false)
    by (intros [pg []]; unfold is_text, is_erase; simpl; intros; congruence).
  simpl in A1.
  destruct r1 as [[]|e1].
  - exists r2, o1, o2. repeat split; auto.
    + intros _ r it pg Ir L C P. destruct (A1 eq_refl r Ir) as (ops & W & J).
      unfold whiteout_of in W. rewrite L in W. simpl in W. rewrite C, P in W.
      injection W as <-. apply J. left. reflexivity.
    + intros before e after E X. eapply no_erase_after; eauto.
  - exists (Raise e1), o1, []. rewrite app_nil_r. repeat split; auto; try congruence.
    intros before e after E X. rewrite E in F1. apply Forall_app in F1.
    destruct F1 as [_ F1]. apply Forall_inv in F1. specialize (T e X). congruence.
Qed.

(** Two prices of one line whose boxes overlap, both edited: both
    whiteouts come first, then both texts. *)
Example overlapping_boxes_both_edited :
  generate true [left_item; right_item]
           [ {| ID := 0; Page := 1; Original_Text := u "10 €"; New_Text := u "11 €" |};
             {| ID := 1; Page := 1; Original_Text := u "20 €"; New_Text := u "21 €" |} ]
           one_page
  = (Ok tt,
     {| page_count := 1;
        journal :=
          [ (0, DrawRect (i_bbox left_item) white white true);
            (0, DrawRect (i_bbox right_item) white white true);
            (0, InsertFont (u "dejavu") (u "DejaVuSans.ttf"));
            (0, InsertText (float_of_Z 72, float_of_Z 110) (u "11 €")
                           (float_of_Z 12) (u "dejavu") 0);
            (0, InsertFont (u "dejavu") (u "DejaVuSans.ttf"));
            (0, InsertText (float_of_Z 120, float_of_Z 110) (u "21 €")
                           (float_of_Z 12) (u "dejavu") 0) ] |}).
Proof. vm_compute. reflexivity. Qed.




(** C5, as stated, fails: the second price of the span is left as it is
    in the table, yet its region, the box of the span, is whited out by
    the directive of the first price, and is not redrawn. *)
Lemma unchanged_price_whited_out :
  process_span two_price_span 0 price_pattern = [first_price; second_price]
  /\ changed {| ID := 1; Page := 1; Original_Text := u "20 €"; New_Text := u "20 €" |}
             second_price = false
  /\ generate true [first_price; second_price]
              [ {| ID := 0; Page := 1; Original_Text := u "10 €"; New_Text := u "11 €" |};
                {| ID := 1; Page := 1; Original_Text := u "20 €"; New_Text := u "20 €" |} ]
              one_page
     = (Ok tt,
        {| page_count := 1;
           journal :=
             [ (page second_price - 1,
                DrawRect (i_bbox second_price) white white true);
               (0, InsertFont (u "dejavu") (u "DejaVuSans.ttf"));
               (0, InsertText (float_of_Z 72, float_of_Z 110) (u "11 €")
                              (float_of_Z 12) (u "dejavu") 0) ] |}).
Proof.
  split; [vm_compute; reflexivity|]. split; vm_compute; reflexivity.
Qed.

(** C5, amended — A row whose new text equals the found text of its price
    yields no directive: neither loop draws anything for it, and the
    generation phase does what it does with the row left out of the
    table. (Its region can still be painted by the directives of other
    rows.) *)
Theorem unchanged_row_no_directive font_file all_prices r it before after d :
  py_index all_prices (ID r) = Ok it ->
  New_Text r = original_text it ->
  whiteout_of all_prices (page_count d) r = Ok []
  /\ insertion_of font_file all_prices (page_count d) r = Ok []
  /\ pass1 all_prices r d = (Ok tt, d)
  /\ pass2 font_file all_prices r d = (Ok tt, d)
  /\ generate font_file all_prices (before ++ r :: after) d
     = generate font_file all_prices (before ++ after) d.
Proof.
  intros L E.
  assert (C : changed r it = false).
  { unfold changed. apply negb_false_iff. now apply str_eqb_eq. }
  assert (W : whiteout_of all_prices (page_count d) r = Ok [])
    by (unfold whiteout_of; rewrite L; simpl; now rewrite C).
  assert (I : insertion_of font_file all_prices (page_count d) r = Ok [])
    by (unfold insertion_of; rewrite L; simpl; now rewrite C).
  split; [exact W|]. split; [exact I|].
  split; [rewrite pass1_eq, W; now rewrite add_ops_nil|].
  split; [rewrite pass2_eq, I; now rewrite add_ops_nil|].
  rewrite !generate_eq. cbv zeta.
  now rewrite (run_skip _ r before after W), (run_skip _ r before after I).
Qed.

Lemma unchanged_row_no_directive_witness :
  generate true [first_price; second_price]
           ([ {| ID := 0; Page := 1; Original_Text := u "10 €"; New_Text := u "11 €" |} ]
            ++ {| ID := 1; Page := 1; Original_Text := u "20 €"; New_Text := u "20 €" |}
            :: [])
           one_page
  = generate true [first_price; second_price]
             ([ {| ID := 0; Page := 1; Original_Text := u "10 €"; New_Text := u "11 €" |} ]
              ++ [])
             one_page.
Proof.
  apply (unchanged_row_no_directive true [first_price; second_price]
           {| ID := 1; Page := 1; Original_Text := u "20 €"; New_Text := u "20 €" |}
           second_price).
  - reflexivity.
  - reflexivity.
Defined.

(** ** The table and the identity of its rows *)

Lemma py_index_nth {A} (l : list A) n a :
  nth_error l n = Some a -> py_index l (Z.of_nat n) = Ok a.
Proof.
  intros H. unfold py_index.
  assert (L : (n < length l)%nat) by (apply nth_error_Some; congruence).
  replace (Z.of_nat n <? 0) with false by (symmetry; apply Z.ltb_ge; lia).
  replace ((0 <=? Z.of_nat n) && (Z.of_nat n <? Z.of_nat (length l))) with true.
  - now rewrite Nat2Z.id, H.
  - symmetry. apply andb_true_iff. split; [apply Z.leb_le|apply Z.ltb_lt]; lia.
Qed.

Lemma map_result_forall2 {A B} (f : A -> result B) l : forall bs,
  map_result f l = Ok bs -> Forall2 (fun a b => f a = Ok b) l bs.
Proof.
  induction l as [|a l IH]; simpl; intros bs H.
  - injection H as <-. constructor.
  - destruct (f a) as [b|] eqn:E; [|discriminate]. simpl in H.
    destruct (map_result f l) as [bs'|]; [|discriminate]. simpl in H.
    injection H as <-. constructor; auto.
Qed.

Lemma forall2_nth {A B} (R : A -> B -> Prop) l l' :
  Forall2 R l l' -> forall n b, nth_error l' n = Some b ->
  exists a, nth_error l n = Some a /\ R a b.
Proof.
  induction 1 as [|a b l l' H F IH]; intros n x E.
  - destruct n; discriminate.
  - destruct n as [|n]; simpl in E.
    + injection E as <-. exists a. auto.
    + now apply IH.
Qed.

Lemma enumerate_from_nth {A} (l : list A) : forall k n p,
  nth_error (enumerate_from k l) n = Some p ->
  fst p = k + Z.of_nat n /\ nth_error l n = Some (snd p).
Proof.
  induction l as [|a l IH]; intros k n p E.
  - destruct n; discriminate.
  - destruct n as [|n]; simpl in E.
    + injection E as <-. simpl. split; [lia|reflexivity].
    + apply IH in E. destruct E as [E1 E2]. split; [lia|exact E2].
Qed.

(** The rows of the table, in the order of the found prices. *)
Lemma data_for_df_rows all_prices multiplier rows :
  data_for_df all_prices multiplier = Ok rows ->
  forall n r, nth_error rows n = Some r ->
  exists it,
    nth_error all_prices n = Some it /\ ID r = Z.of_nat n
    /\ Page r = page it /\ Original_Text r = original_text it
    /\ apply_markup (original_text it) (prefix it) (currency it) multiplier
       = Ok (New_Text r).
Proof.
  unfold data_for_df. intros H n r E.
  apply map_result_forall2 in H.
  destruct (forall2_nth _ _ _ H n r E) as ([idx it] & Ei & R).
  apply enumerate_from_nth in Ei. simpl in Ei. destruct Ei as [-> Ei].
  exists it. split; [exact Ei|].
  destruct (apply_markup (original_text it) (prefix it) (currency it) multiplier)
    as [txt|]; [|discriminate].
  simpl in R. injection R as <-. simpl. auto.
Qed.

(** The pages of the prices found in a document are pages of it. *)
Lemma scan_page doc it :
  In it (scan doc) ->
  page_of (Z.of_nat (length doc)) (page it - 1) = Ok (page it - 1).
Proof.
  unfold scan, enumerate. intros H. apply in_flat_map in H.
  destruct H as ([i pg] & Hi & H). simpl in H.
  apply In_nth_error in Hi. destruct Hi as (n & Hn).
  apply enumerate_from_nth in Hn. simpl in Hn. destruct Hn as [-> Hn].
  assert (L : (n < length doc)%nat) by (apply nth_error_Some; congruence).
  assert (P : page it = Z.of_nat n + 1).
  { unfold extract_prices_from_page in H. apply in_flat_map in H.
    destruct H as (b & _ & H). destruct (lines b) as [ls|]; [|contradiction].
    apply in_flat_map in H. destruct H as (line & _ & H).
    apply in_flat_map in H. destruct H as (sp & _ & H).
    apply process_span_item in H. simpl in H. lia. }
  unfold page_of. rewrite P.
  replace ((Z.of_nat n + 1 - 1 <? Z.of_nat (length doc)) && (0 <? Z.of_nat (length doc)))
    with true
    by (symmetry; apply andb_true_iff; split; apply Z.ltb_lt; lia).
  f_equal. apply Z.mod_small. lia.
Qed.

(** C9 — The [ID] of a row is the position of its price in the list of
    found prices, and it stays so through the editing of the table: for
    the row at position [n] of the edited table, [ID] is [n], within the
    bounds of the list, and indexing the list with it yields the price at
    position [n], the one the row was built from; so the whiteout is
    drawn over that price's bounding box on its page and the new text is
    drawn on that page. *)
Theorem identity_is_valid_join_key all_prices multiplier rows edited_rows n r :
  data_for_df all_prices multiplier = Ok rows ->
  Forall2 same_keys rows edited_rows ->
  nth_error edited_rows n = Some r ->
  exists it,
    nth_error all_prices n = Some it
    /\ ID r = Z.of_nat n
    /\ 0 <= ID r < Z.of_nat (length all_prices)
    /\ py_index all_prices (ID r) = Ok it
    /\ Original_Text r = original_text it /\ Page r = page it
    /\ forall font_file d pg,
         changed r it = true ->
         page_of (page_count d) (page it - 1) = Ok pg ->
         pass1 all_prices r d
         = (Ok tt, add_ops d [(pg, DrawRect (i_bbox it) white white true)])
         /\ forall txt,
              apply_markup (New_Text r) (prefix it) (currency it) f_1_0 = Ok txt ->
              exists font_ops,
                pass2 font_file all_prices r d
                = (Ok tt,
                   add_ops d (font_ops ++
                              [(pg, InsertText (x0_of (i_bbox it), snd (origin it)) txt
                                               (font_size it)
                                               (if font_file then u "dejavu" else u "helv")
                                               0)])).
Proof.
  intros H F E.
  destruct (forall2_nth _ _ _ F n r E) as (r0 & E0 & K1 & K2 & K3).
  destruct (data_for_df_rows _ _ _ H n r0 E0) as (it & Ei & I & P & O & _).
  assert (L : (n < length all_prices)%nat) by (apply nth_error_Some; congruence).
  assert (X : py_index all_prices (ID r) = Ok it)
    by (rewrite <- K1, I; now apply py_index_nth).
  exists it. split; [exact Ei|]. split; [congruence|]. split; [lia|].
  split; [exact X|]. split; [congruence|]. split; [congruence|].
  intros font_file d pg C Pg. split.
  - rewrite pass1_eq. unfold whiteout_of. rewrite X. simpl. rewrite C, Pg. reflexivity.
  - intros txt A. rewrite pass2_eq. unfold insertion_of. rewrite X. simpl.
    rewrite C, Pg. simpl. rewrite A. simpl. eexists. reflexivity.
Qed.

Lemma identity_is_valid_join_key_witness :
  exists it,
    nth_error [first_price; second_price] 1 = Some it
    /\ ID {| ID := 1; Page := 1; Original_Text := u "20 €"; New_Text := u "25 €" |}
       = Z.of_nat 1
    /\ py_index [first_price; second_price] 1 = Ok it
    /\ it = second_price.
Proof.
  destruct (identity_is_valid_join_key [first_price; second_price] f_1_05
              [ {| ID := 0; Page := 1; Original_Text := u "10 €"; New_Text := u "10 €" |};
                {| ID := 1; Page := 1; Original_Text := u "20 €"; New_Text := u "21 €" |} ]
              [ {| ID := 0; Page := 1; Original_Text := u "10 €"; New_Text := u "10 €" |};
                {| ID := 1; Page := 1; Original_Text := u "20 €"; New_Text := u "25 €" |} ]
              1%nat
              {| ID := 1; Page := 1; Original_Text := u "20 €"; New_Text := u "25 €" |})
    as (it & E & I & _ & X & _).
  - vm_compute. reflexivity.
  - repeat constructor.
  - reflexivity.
  - exists it. repeat split; try assumption. simpl in E. congruence.
Defined.

(** * Further properties *)

(** ** What [re.search] and [re.finditer] return *)

Module Scanner.

Lemma reads_any r : reads (fun _ => True) r.
Proof. induction r; simpl; auto. Qed.

(** What a match leaves is the end of what it started on. *)
Lemma exits_suffix r s s' :
  In s' (exits r s) -> rest s = taken s s' ++ rest s'.
Proof.
  intros H. destruct (exits_ahead (fun _ => True) r (reads_any r) s s' H) as (w & E & _).
  now rewrite (taken_app s s' w E).
Qed.

(** [re.search] returns a part of the text, at the position it reports. *)
Lemma search_from_located r text : forall k m,
  search_from r k text = Some m ->
  exists pre post s',
    text = pre ++ m_whole m ++ post
    /\ m_start m = (k + length pre)%nat
    /\ In s' (exits r (mk (m_whole m ++ post) []))
    /\ rest s' = post /\ m_groups m = caps s'.
Proof.
  induction text as [|c t IH]; intros k m; cbn [search_from]; unfold match_at.
  - destruct (exits r (mk [] [])) as [|s' ls] eqn:E; [discriminate|].
    intros [= <-]. cbn [m_whole m_start m_groups].
    assert (I : In s' (exits r (mk [] []))) by (rewrite E; left; reflexivity).
    pose proof (exits_suffix _ _ _ I) as X. cbn [rest] in X.
    exists [], (rest s'), s'. rewrite <- X. cbn [app length]. rewrite Nat.add_0_r. auto.
  - destruct (exits r (mk (c :: t) [])) as [|s' ls] eqn:E.
    + intros H. destruct (IH _ _ H) as (pre & post & s' & -> & S & I & R & G).
      exists (c :: pre), post, s'. cbn [app length]. repeat split; auto. lia.
    + intros [= <-]. cbn [m_whole m_start m_groups].
      assert (I : In s' (exits r (mk (c :: t) []))) by (rewrite E; left; reflexivity).
      pose proof (exits_suffix _ _ _ I) as X. cbn [rest] in X.
      exists [], (rest s'), s'. rewrite <- X. cbn [app length]. rewrite Nat.add_0_r. auto.
Qed.

Lemma in_order_prepend x ws t : in_order ws t -> in_order ws (x ++ t).
Proof.
  intros H. destruct H as [t|pre w post ws H]; [constructor|].
  rewrite app_assoc. now constructor.
Qed.

(** [re.finditer] returns parts of the text that follow one another. *)
Lemma finditer_in_order r fuel : forall text k,
  in_order (map m_whole (finditer_from fuel r k text)) text.
Proof.
  induction fuel as [|fuel IH]; intros text k; cbn [finditer_from map]; [constructor|].
  destruct (search_from r k text) as [m|] eqn:E; [|constructor].
  destruct (search_from_located r text k m E) as (pre & post & s' & T & S & _).
  cbn [map]. rewrite T at 2. constructor.
  replace (m_start m - k + Nat.max 1 (length (m_whole m)))%nat
    with (length pre + Nat.max 1 (length (m_whole m)))%nat by lia.
  rewrite T, skipn_app.
  replace (skipn (length pre + Nat.max 1 (length (m_whole m))) pre) with (@nil cp)
    by (symmetry; apply skipn_all2; lia).
  replace (length pre + Nat.max 1 (length (m_whole m)) - length pre)%nat
    with (Nat.max 1 (length (m_whole m))) by lia.
  cbn [app].
  destruct (m_whole m) as [|x w] eqn:W.
  - cbn [app length Nat.max].
    rewrite <- (firstn_skipn 1 post) at 2. apply in_order_prepend.
    apply IH.
  - replace (Nat.max 1 (length (x :: w))) with (length (x :: w)) by (simpl; lia).
    rewrite skipn_app, skipn_all, Nat.sub_diag. cbn [app skipn]. apply IH.
Qed.

End Scanner.

(** ** The shape of a found price *)

Module PriceShape.
Import Scanner.

(** A loop over one class of characters reads at most as many characters
    as it has iterations. *)
Lemma chr_loop k n : forall x y,
  In y (rep_opt (exits (Chr k)) n x) ->
  exists w, rest x = w ++ rest y /\ (length w <= n)%nat
            /\ Forall (fun c => in_cset k c = true) w /\ caps y = caps x.
Proof.
  induction n as [|n IH]; intros x y H.
  - destruct H as [<-|[]]. exists []. repeat split; auto.
  - rewrite rep_opt_S in H. apply in_app_or in H.
    destruct H as [H|[<-|[]]]; [|exists []; repeat split; auto; simpl; lia].
    apply in_flat_map in H. destruct H as (z & Hz & H).
    destruct (length (rest z) <? length (rest x))%nat; [|contradiction].
    destruct x as [[|c t] cs]; [rewrite exits_chr_nil in Hz; contradiction|].
    rewrite exits_chr in Hz. destruct (in_cset k c) eqn:K; [|contradiction].
    destruct Hz as [<-|[]]. destruct (IH _ _ H) as (w & E & L & F & C).
    cbn [rest caps] in *. exists (c :: w). rewrite E. cbn [length app].
    repeat split; auto. lia.
Qed.

(** What [\d{1,3}] and [\d+] read: a run of digits, not empty, and of
    three digits at most for the former. *)
Lemma digits_run hi s y :
  In y (exits (digits 1 hi) s) ->
  exists run, rest s = run ++ rest y /\ run <> []
              /\ Forall (fun c => is_digit c = true) run
              /\ (hi = Some 3%nat -> (length run <= 3)%nat)
              /\ caps y = caps s.
Proof.
  intros H.
  assert (Q : exists x, In x (exits (Chr Digit) s)
                        /\ In y (rep_opt (exits (Chr Digit))
                                   match hi with
                                   | Some h => (h - 1)%nat
                                   | None => length (rest s)
                                   end x)).
  { unfold digits in H. destruct hi as [h|];
      [rewrite exits_rep_bounded in H|rewrite exits_rep_unbounded in H];
      rewrite rep_req_1 in H; apply in_flat_map in H;
      destruct H as (x & Hx & Hy); eauto. }
  destruct Q as (x & Hx & Hy).
  destruct s as [[|c t] cs]; [rewrite exits_chr_nil in Hx; contradiction|].
  rewrite exits_chr in Hx. destruct (in_cset Digit c) eqn:D; [|contradiction].
  destruct Hx as [<-|[]].
  destruct (chr_loop _ _ _ _ Hy) as (w & E & L & F & C).
  cbn [rest caps] in *. exists (c :: w). rewrite E.
  split; [reflexivity|]. split; [discriminate|]. split; [constructor; auto|].
  split; [|exact C]. intros ->. cbn [length Nat.sub] in *. lia.
Qed.

(** What the loop over the groups reads. *)
Lemma groups_exit n : forall x y,
  In y (rep_opt (exits group3) n x) ->
  exists tail, rest x = tail ++ rest y /\ sep_groups tail /\ caps y = caps x.
Proof.
  induction n as [|n IH]; intros x y H.
  - destruct H as [<-|[]]. exists []. split; [reflexivity|]. split; [constructor|reflexivity].
  - rewrite rep_opt_S in H. apply in_app_or in H.
    destruct H as [H|[<-|[]]];
      [|exists []; split; [reflexivity|]; split; [constructor|reflexivity]].
    apply in_flat_map in H. destruct H as (z & Hz & H).
    destruct (length (rest z) <? length (rest x))%nat; [|contradiction].
    destruct (group3_exit _ _ Hz) as (s & a & b & c & E & S & Da & Db & Dc & C).
    destruct (IH _ _ H) as (tail & E' & G & C').
    exists (s :: a :: b :: c :: tail). rewrite E, E'.
    split; [reflexivity|]. split; [now constructor|congruence].
Qed.

(** The value of a price. *)
Lemma price_value_exit s y :
  In y (exits price_value_re s) ->
  exists run tail,
    rest s = run ++ tail ++ rest y /\ price_number run tail /\ caps y = caps s.
Proof.
  unfold price_value_re, price_number. rewrite exits_alt. intros H.
  apply in_app_or in H. destruct H as [H|H].
  - rewrite exits_seq in H. apply in_flat_map in H. destruct H as (z & Hz & Hy).
    destruct (digits_run _ _ _ Hz) as (run & E & NE & F & L & C).
    unfold Star in Hy. rewrite exits_rep_unbounded in Hy.
    change (rep_req (exits (Seq sep (digits 3 (Some 3%nat)))) 0 z) with [z] in Hy.
    cbn [flat_map] in Hy. rewrite app_nil_r in Hy. fold group3 in Hy.
    destruct (groups_exit _ _ _ Hy) as (tail & E' & G & C').
    exists run, tail. rewrite E, E'. repeat split; auto. congruence.
  - destruct (digits_run _ _ _ H) as (run & E & NE & F & _ & C).
    exists run, []. rewrite E. repeat split; auto; [constructor|congruence].
Qed.

Lemma prefix_re_group_free : group_free prefix_re.
Proof.
  unfold prefix_re, word_then.
  change (u "Стоимость")
    with [1057; 1090; 1086; 1080; 1084; 1086; 1089; 1090; 1100]%N.
  cbn. tauto.
Qed.

Lemma space_reads : reads (fun c => is_space c = true) (Star (Chr Space)).
Proof. intros c H. exact H. Qed.

(** A literal word under [re.IGNORECASE] reads the word in some letter
    case. *)
Lemma word_then_exit w r : forall s y,
  In y (exits (word_then w r) s) ->
  exists x t, rest s = x ++ rest t
              /\ Forall2 (fun c a => In a (ignorecase c)) w x
              /\ caps t = caps s /\ In y (exits r t).
Proof.
  induction w as [|c w IH]; intros s y H.
  - exists [], s. repeat split; auto.
  - change (word_then (c :: w) r) with (Seq (LitI c) (word_then w r)) in H.
    rewrite exits_seq in H. apply in_flat_map in H. destruct H as (s1 & H1 & H).
    unfold LitI in H1. destruct s as [[|a t] cs]; [rewrite exits_chr_nil in H1; contradiction|].
    rewrite exits_chr in H1.
    destruct (in_cset (OneOf (ignorecase c)) a) eqn:K; [|contradiction].
    destruct H1 as [<-|[]]. destruct (IH _ _ H) as (x & t' & E & F & C & Hy).
    cbn [rest caps] in *. exists (a :: x), t'. rewrite E.
    split; [reflexivity|]. split; [|auto]. constructor; [|exact F].
    cbn [in_cset] in K. apply existsb_exists in K. destruct K as (b & Hb & Eb).
    apply N.eqb_eq in Eb. now subst b.
Qed.

Lemma dash_chars c : in_cset (OneOf [45%N; 8211%N]) c = true -> c = 45%N \/ c = 8211%N.
Proof.
  simpl. destruct (N.eqb_spec c 45); auto. destruct (N.eqb_spec c 8211); auto.
  discriminate.
Qed.

(** What the pattern of the label reads. *)
Lemma prefix_re_label s y : In y (exits prefix_re s) -> price_label (taken s y).
Proof.
  unfold prefix_re. intros H.
  destruct (word_then_exit _ _ _ _ H) as (word & t & E & F & _ & Ht).
  rewrite exits_seq in Ht. apply in_flat_map in Ht. destruct Ht as (t1 & H1 & Ht).
  rewrite exits_seq in Ht. apply in_flat_map in Ht. destruct Ht as (t2 & H2 & H3).
  destruct (exits_ahead _ _ space_reads _ _ H1) as (ws1 & E1 & F1).
  destruct (exits_ahead _ _ space_reads _ _ H3) as (ws2 & E3 & F3).
  unfold Opt in H2. rewrite exits_rep_bounded in H2.
  change (rep_req (exits (Chr (OneOf [45%N; 8211%N]))) 0 t1) with [t1] in H2.
  cbn [flat_map Nat.sub] in H2. rewrite app_nil_r in H2.
  destruct (chr_loop _ _ _ _ H2) as (dash & E2 & L & D & _).
  exists word, ws1, dash, ws2. split.
  - apply taken_app. rewrite E, E1, E2, E3, <- !app_assoc. reflexivity.
  - split; [exact F|]. split; [exact F1|]. split; [|exact F3].
    destruct dash as [|c [|c' dash]]; [now left| |simpl in L; lia].
    right. apply Forall_inv in D. apply dash_chars in D.
    destruct D as [->| ->]; auto.
Qed.

(** The optional label: absent, or a label kept as group 1. *)
Lemma prefix_exit l s1 :
  In s1 (exits (Opt (Grp g_prefix prefix_re)) (mk l [])) ->
  exists pfx, l = pfx ++ rest s1 /\ no_digit pfx
              /\ (caps s1 = [] /\ pfx = []
                  \/ caps s1 = [(g_prefix, pfx)] /\ price_label pfx).
Proof.
  unfold Opt. rewrite exits_rep_bounded.
  change (rep_req (exits (Grp g_prefix prefix_re)) 0 (mk l [])) with [mk l []].
  cbn [flat_map Nat.sub]. rewrite app_nil_r, rep_opt_S. intros H.
  apply in_app_or in H. destruct H as [H|[<-|[]]].
  - apply in_flat_map in H. destruct H as (x & Hx & H).
    destruct (length (rest x) <? length (rest (mk l [])))%nat; [|contradiction].
    destruct H as [<-|[]].
    rewrite exits_grp in Hx. apply in_map_iff in Hx. destruct Hx as (y & <- & Hy).
    pose proof (exits_caps prefix_re prefix_re_group_free _ _ Hy) as C.
    pose proof (exits_suffix _ _ _ Hy) as E.
    pose proof (exits_taken _ prefix_re _ _ prefix_re_reads Hy) as N.
    pose proof (prefix_re_label _ _ Hy) as L.
    cbn [rest caps] in *. exists (taken (mk l []) y). rewrite C. auto.
  - exists []. cbn. repeat split; auto. constructor.
Qed.

(** The shape of every match of [price_pattern]: the label, the value, the
    blanks, the euro sign, and the groups holding the first, the second
    and the last. *)
Lemma price_exit_shape l s' :
  In s' (exits price_pattern (mk l [])) ->
  exists pfx run tail ws,
    l = pfx ++ (run ++ tail) ++ ws ++ 8364%N :: rest s'
    /\ no_digit pfx /\ price_number run tail
    /\ Forall (fun c => is_space c = true) ws
    /\ exists cs1,
         caps s' = (g_currency, [8364%N]) :: (g_value, run ++ tail) :: cs1
         /\ (cs1 = [] /\ pfx = [] \/ cs1 = [(g_prefix, pfx)] /\ price_label pfx).
Proof.
  unfold price_pattern. intros H. rewrite exits_seq in H.
  apply in_flat_map in H. destruct H as (s1 & H1 & H). rewrite exits_seq in H.
  apply in_flat_map in H. destruct H as (s2 & H2 & H). rewrite exits_seq in H.
  apply in_flat_map in H. destruct H as (s3 & H3 & H).
  destruct (prefix_exit _ _ H1) as (pfx & E1 & N1 & C1).
  rewrite exits_grp in H2. apply in_map_iff in H2. destruct H2 as (y2 & <- & Hy2).
  destruct (price_value_exit _ _ Hy2) as (run & tail & E2 & P & C2).
  destruct (exits_ahead _ _ space_reads _ _ H3) as (ws & E3 & F3).
  pose proof (exits_caps (Star (Chr Space)) I _ _ H3) as C3.
  rewrite exits_grp in H. apply in_map_iff in H. destruct H as (q & <- & Hq).
  unfold currency_re, LitI in Hq. destruct s3 as [[|c t] cs3].
  { rewrite exits_chr_nil in Hq. contradiction. }
  rewrite exits_chr in Hq. simpl in Hq.
  destruct (N.eqb_spec c 8364) as [->|_]; [|contradiction].
  destruct Hq as [<-|[]]. cbn [rest caps] in *.
  assert (T2 : taken s1 y2 = run ++ tail)
    by (apply taken_app; rewrite E2; apply app_assoc).
  exists pfx, run, tail, ws.
  split; [rewrite E1, E2, E3, <- !app_assoc; reflexivity|].
  repeat (split; [assumption|]).
  exists (caps s1).
  match goal with
  | |- context [taken ?a ?b] =>
    rewrite (taken_app a b [8364%N] eq_refl)
  end.
  rewrite C3, T2, C2. split; [reflexivity|exact C1].
Qed.

(** The same, for the match objects of [re.finditer]. *)
Lemma price_match text m :
  In m (finditer price_pattern text) ->
  exists run tail ws,
    m_whole m = group_or_empty m g_prefix ++ (run ++ tail) ++ ws ++ [8364%N]
    /\ no_digit (group_or_empty m g_prefix)
    /\ group_or_empty m g_value = run ++ tail
    /\ group_or_empty m g_currency = [8364%N]
    /\ price_number run tail
    /\ Forall (fun c => is_space c = true) ws
    /\ (group_or_empty m g_prefix = [] \/ price_label (group_or_empty m g_prefix)).
Proof.
  intros H. apply finditer_sound in H. destruct H as (l & s' & H & G & W).
  destruct (price_exit_shape l s' H)
    as (pfx & run & tail & ws & E & N & P & S & cs1 & C & Q).
  assert (T : taken (mk l []) s' = pfx ++ (run ++ tail) ++ ws ++ [8364%N]).
  { apply taken_app. cbn [rest]. rewrite E. rewrite <- !app_assoc. reflexivity. }
  assert (G1 : group_or_empty m g_prefix = pfx).
  { unfold group_or_empty, group. rewrite G, C.
    destruct Q as [[-> ->]|[-> _]]; reflexivity. }
  assert (L : pfx = [] \/ price_label pfx) by (destruct Q as [[_ ->]|[_ L]]; auto).
  exists run, tail, ws. rewrite G1, W, T.
  unfold group_or_empty, group. rewrite G, C. cbn. auto 10.
Qed.

(** ** The two patterns on a found price *)

Lemma sep_groups_chars tail : sep_groups tail -> Forall digit_or_sep tail.
Proof.
  induction 1 as [|s a b c t S Da Db Dc G IH]; [constructor|].
  unfold digit_or_sep. repeat (constructor; auto).
Qed.

Lemma sep_no_digit s : s = 46%N \/ s = 32%N -> is_digit s = false.
Proof. intros [->| ->]; reflexivity. Qed.

Lemma blank_no_digit_ahead ws r :
  Forall (fun c => is_space c = true) ws -> no_digit_ahead (ws ++ 8364%N :: r).
Proof.
  intros [|w ws' W _]; [reflexivity|]. simpl. now apply space_no_digit.
Qed.

(** Before the blanks and the euro sign no group starts. *)
Lemma group3_stop ws r cs :
  Forall (fun c => is_space c = true) ws ->
  exits group3 (mk (ws ++ 8364%N :: r) cs) = [].
Proof.
  intros F. unfold group3, sep. rewrite exits_seq.
  destruct F as [|w ws' W F]; cbn [app]; rewrite exits_chr.
  - reflexivity.
  - destruct (in_cset (OneOf [46%N; 32%N]) w); [|reflexivity].
    cbn [flat_map]. rewrite three_digits_fail; [reflexivity|].
    now apply blank_no_digit_ahead.
Qed.

(** The greedy loop reads all the groups of the value. *)
Lemma sep_groups_hd tail : sep_groups tail -> forall n post cs,
  (length tail <= n)%nat -> exits group3 (mk post cs) = [] ->
  exists l, rep_opt (exits group3) n (mk (tail ++ post) cs) = mk post cs :: l.
Proof.
  induction 1 as [|s x y z t Hs Dx Dy Dz G IH]; intros n post cs L N.
  - destruct n as [|n]; [exists []; reflexivity|].
    rewrite rep_opt_S. cbn [app]. rewrite N. exists []. reflexivity.
  - destruct n as [|n]; [simpl in L; lia|].
    rewrite rep_opt_S. cbn [app]. rewrite group3_read by assumption.
    cbn [flat_map rest length].
    replace (length (t ++ post) <? S (S (S (S (length (t ++ post))))))%nat
      with true by (symmetry; apply Nat.ltb_lt; lia).
    destruct (IH n post cs ltac:(simpl in L; lia) N) as (l & E).
    rewrite E. eexists. reflexivity.
Qed.

(** The pattern of [apply_markup] at the value of a found price: it reads
    the value and stops before the blanks. *)
Lemma value_re_at_value run tail ws r cs :
  price_number run tail -> Forall (fun c => is_space c = true) ws ->
  exists l, exits value_re (mk (run ++ tail ++ ws ++ 8364%N :: r) cs)
            = mk (ws ++ 8364%N :: r) ((1%nat, run ++ tail) :: cs) :: l.
Proof.
  intros (NE & F & G & L) W.
  pose proof (blank_no_digit_ahead ws r W) as B.
  assert (A : no_digit_ahead (tail ++ ws ++ 8364%N :: r)).
  { destruct G as [|s a b c t S _ _ _ _]; [exact B|]. simpl. now apply sep_no_digit. }
  destruct (Nat.leb_spec (length run) 3) as [L3|L3].
  - destruct (upto3_digits_hd run (tail ++ ws ++ 8364%N :: r) cs NE L3 F A) as (l1 & E1).
    destruct (sep_groups_hd tail G (length (tail ++ ws ++ 8364%N :: r))
                (ws ++ 8364%N :: r) cs) as (l2 & E2);
      [rewrite length_app; lia|now apply group3_stop|].
    assert (T : taken (mk (run ++ tail ++ ws ++ 8364%N :: r) cs)
                      (mk (ws ++ 8364%N :: r) cs) = run ++ tail).
    { apply taken_app. simpl. now rewrite app_assoc. }
    rewrite value_re_eq, exits_grp, exits_alt. unfold grouped at 1.
    rewrite exits_seq, E1. cbn [flat_map]. unfold groups_then_stop at 1, Star.
    rewrite exits_seq, exits_rep_unbounded.
    change (rep_req (exits (Seq sep (digits 3 (Some 3%nat)))) 0
                    (mk (tail ++ ws ++ 8364%N :: r) cs))
      with [mk (tail ++ ws ++ 8364%N :: r) cs].
    cbn [flat_map rest]. fold group3. rewrite E2. cbn [app flat_map].
    rewrite exits_nlook, exits_digit_stop by exact B.
    cbn [app map rest caps]. rewrite T. eexists. reflexivity.
  - assert (tail = []) as ->.
    { destruct tail; [reflexivity|]. assert (length run <= 3)%nat by (apply L; discriminate). lia. }
    cbn [app]. rewrite app_nil_r.
    destruct (value_re_at_run run (ws ++ 8364%N :: r) cs NE F B)
      as (g & post' & l & E & Eg & _ & Lg).
    rewrite (Lg L3) in *. cbn [app] in Eg. subst post'.
    rewrite app_nil_r in E. eexists. exact E.
Qed.

(** [re.search] with the pattern of [apply_markup], in the text of a found
    price, finds the value the scanner captured. *)
Lemma search_price_value pfx run tail ws :
  no_digit pfx -> price_number run tail ->
  Forall (fun c => is_space c = true) ws ->
  search value_re (pfx ++ (run ++ tail) ++ ws ++ [8364%N])
  = Some {| m_start := length pfx; m_whole := run ++ tail;
            m_groups := [(1%nat, run ++ tail)] |}.
Proof.
  intros N P W.
  destruct (value_re_at_value run tail ws [] [] P W) as (l & E).
  rewrite <- (app_assoc run tail).
  apply (search_at pfx _ _ _ _ N E).
  apply taken_app. cbn [rest]. apply app_assoc.
Qed.

End PriceShape.

(** ** The scanner *)

Import Scanner PriceShape.

(** X1 — Every price [process_span] finds with [price_pattern] is made of
    its parts: the found text is the label, the value, blanks and the
    currency, in this order and nothing else; the currency is the euro
    sign; the label holds no digit and is empty or the word in any letter
    case with blanks and at most one dash after it; the value is a run of
    digits, followed by groups of a separator and three digits only when
    the run has three digits at most. *)
Theorem found_price_parts sp page_num it :
  In it (process_span sp page_num price_pattern) ->
  exists run tail ws,
    original_text it = prefix it ++ value it ++ ws ++ currency it
    /\ currency it = u "€"
    /\ no_digit (prefix it)
    /\ (prefix it = [] \/ price_label (prefix it))
    /\ value it = run ++ tail /\ price_number run tail
    /\ Forall (fun c => is_space c = true) ws.
Proof.
  unfold process_span. intros H. apply in_map_iff in H.
  destruct H as (m & <- & H). cbn [original_text prefix value currency].
  destruct (price_match _ _ H) as (run & tail & ws & W & N & V & C & P & S & L).
  exists run, tail, ws. rewrite W, V, C. auto 10.
Qed.

Lemma found_price_parts_witness :
  In example_item (process_span example_span 0 price_pattern)
  /\ exists run tail ws,
       original_text example_item
       = prefix example_item ++ value example_item ++ ws ++ currency example_item
       /\ currency example_item = u "€"
       /\ no_digit (prefix example_item)
       /\ (prefix example_item = [] \/ price_label (prefix example_item))
       /\ value example_item = run ++ tail /\ price_number run tail
       /\ Forall (fun c => is_space c = true) ws.
Proof.
  assert (H : In example_item (process_span example_span 0 price_pattern))
    by (rewrite example_item_found; left; reflexivity).
  split; [exact H|].
  exact (found_price_parts example_span 0 example_item H).
Defined.

(** X2 — The texts of the prices [process_span] finds in a span with
    [price_pattern] are parts of the text of the span that follow one
    another from left to right without overlapping, and none of them is
    empty. *)
Theorem found_prices_in_order sp page_num :
  in_order (map original_text (process_span sp page_num price_pattern)) (sp_text sp)
  /\ Forall (fun it => original_text it <> [])
            (process_span sp page_num price_pattern).
Proof.
  unfold process_span. split.
  - rewrite map_map. cbn [original_text]. apply finditer_in_order.
  - apply Forall_forall. intros it H. apply in_map_iff in H.
    destruct H as (m & <- & H). cbn [original_text].
    destruct (price_match _ _ H) as (run & tail & ws & W & _).
    rewrite W. intros E. apply (f_equal (@length cp)) in E.
    rewrite !length_app in E. cbn [length] in E. lia.
Qed.

(** A text without the euro sign holds no price. *)
Lemma no_euro_no_price text :
  ~ In 8364%N text -> finditer price_pattern text = [].
Proof.
  intros N. destruct (finditer price_pattern text) as [|m ms] eqn:E; [reflexivity|].
  exfalso. apply N.
  assert (I : In m (finditer price_pattern text)) by (rewrite E; left; reflexivity).
  destruct (price_match _ _ I) as (run & tail & ws & W & _).
  pose proof (finditer_in_order price_pattern (S (length text)) text 0%nat) as O.
  change (finditer_from (S (length text)) price_pattern 0 text)
    with (finditer price_pattern text) in O.
  rewrite E in O. cbn [map] in O.
  inversion O as [|pre w post ws' O' E1 E2]; subst.
  rewrite W. apply in_or_app. right. apply in_or_app. left.
  rewrite !app_assoc. apply in_or_app. right. left. reflexivity.
Qed.

Lemma spans_of_in pg b ls line sp :
  In b pg -> lines b = Some ls -> In line ls -> In sp line -> In sp (spans_of pg).
Proof.
  intros Hb L Hl Hs. unfold spans_of. apply in_flat_map. exists b.
  split; [exact Hb|]. rewrite L. apply in_concat. eauto.
Qed.

Lemma enumerate_from_in {A} (l : list A) : forall k i a,
  In (i, a) (enumerate_from k l) ->
  exists n, nth_error l n = Some a /\ i = k + Z.of_nat n.
Proof.
  induction l as [|x l IH]; intros k i a H; [contradiction|].
  destruct H as [[= <- <-]|H].
  - exists 0%nat. split; [reflexivity|lia].
  - destruct (IH _ _ _ H) as (n & E & ->). exists (S n). split; [exact E|lia].
Qed.

(** Where the prices of a scan come from. *)
Lemma scan_source doc it :
  In it (scan doc) ->
  exists n pg sp,
    nth_error doc n = Some pg /\ In sp (spans_of pg)
    /\ In it (process_span sp (Z.of_nat n) price_pattern).
Proof.
  unfold scan, enumerate. intros H. apply in_flat_map in H.
  destruct H as ([i pg] & Hi & H). cbn [fst snd] in H.
  destruct (enumerate_from_in _ _ _ _ Hi) as (n & En & ->).
  unfold extract_prices_from_page in H. apply in_flat_map in H.
  destruct H as (b & Hb & H). destruct (lines b) as [ls|] eqn:L; [|contradiction].
  apply in_flat_map in H. destruct H as (line & Hl & H).
  apply in_flat_map in H. destruct H as (sp & Hs & H).
  exists n, pg, sp. split; [exact En|]. split; [|exact H].
  now apply (spans_of_in pg b ls line sp).
Qed.

(** X3 — When no span of the uploaded document holds the euro sign, no
    price is found, and [main] stops with the warning, whatever the
    markup, the edits and the button: no table is built and nothing is
    generated. *)
Theorem no_euro_no_prices_found doc markup_percent data_editor button font_file :
  (forall pg sp, In pg doc -> In sp (spans_of pg) -> ~ In 8364%N (sp_text sp)) ->
  scan doc = []
  /\ main doc markup_percent data_editor button font_file = Ok NoPricesFound.
Proof.
  intros H.
  assert (S : scan doc = []).
  { destruct (scan doc) as [|it l] eqn:E; [reflexivity|]. exfalso.
    assert (I : In it (scan doc)) by (rewrite E; left; reflexivity).
    destruct (scan_source doc it I) as (n & pg & sp & En & Hs & Hp).
    unfold process_span in Hp.
    rewrite (no_euro_no_price (sp_text sp)) in Hp; [contradiction|].
    apply (H pg sp); [|exact Hs]. eapply nth_error_In; eauto. }
  split; [exact S|]. unfold main. now rewrite S.
Qed.

Lemma no_euro_no_prices_found_witness :
  main dollar_doc (float_of_Z 5) (fun rows => rows) true true = Ok NoPricesFound.
Proof.
  apply (no_euro_no_prices_found dollar_doc (float_of_Z 5) (fun rows => rows) true true).
  intros pg sp Hpg Hsp.
  destruct Hpg as [<-|[]]. destruct Hsp as [<-|[]]. vm_compute.
  intros H. repeat (destruct H as [H|H]; [discriminate H|]). exact H.
Defined.

(** X4 — Every price of a scan comes from a span of a page of the
    document: its page number is the position of that page counted from
    1, and its bounding box, origin, font size and color are those of the
    span, whatever part of the span's text the price is. *)
Theorem scanned_price_source doc it :
  In it (scan doc) ->
  exists n pg sp,
    nth_error doc n = Some pg /\ In sp (spans_of pg)
    /\ page it = Z.of_nat n + 1
    /\ 1 <= page it <= Z.of_nat (length doc)
    /\ i_bbox it = sp_bbox sp /\ origin it = sp_origin sp
    /\ font_size it = sp_size sp /\ color it = sp_color sp.
Proof.
  intros H. destruct (scan_source doc it H) as (n & pg & sp & En & Hs & Hp).
  exists n, pg, sp. split; [exact En|]. split; [exact Hs|].
  assert (L : (n < length doc)%nat) by (apply nth_error_Some; congruence).
  unfold process_span in Hp. apply in_map_iff in Hp. destruct Hp as (m & <- & _).
  cbn. repeat split; lia.
Qed.

Lemma scanned_price_source_witness :
  In example_item (scan example_doc)
  /\ exists n pg sp,
       nth_error example_doc n = Some pg /\ In sp (spans_of pg)
       /\ page example_item = Z.of_nat n + 1
       /\ 1 <= page example_item <= Z.of_nat (length example_doc)
       /\ i_bbox example_item = sp_bbox sp /\ origin example_item = sp_origin sp
       /\ font_size example_item = sp_size sp /\ color example_item = sp_color sp.
Proof.
  assert (H : In example_item (scan example_doc))
    by (unfold scan, example_doc; cbn [enumerate enumerate_from flat_map fst snd
          extract_prices_from_page lines app];
        rewrite example_item_found; left; reflexivity).
  split; [exact H|]. exact (scanned_price_source example_doc example_item H).
Defined.

(** ** The order of the scan *)

Lemma enumerate_from_nth_in {A} (l : list A) : forall k n a,
  nth_error l n = Some a -> In (k + Z.of_nat n, a) (enumerate_from k l).
Proof.
  induction l as [|x l IH]; intros k n a E; [destruct n; discriminate|].
  destruct n as [|n]; cbn [nth_error] in E.
  - injection E as <-. left. f_equal. lia.
  - right. replace (k + Z.of_nat (S n)) with (k + 1 + Z.of_nat n) by lia.
    now apply IH.
Qed.

Lemma extract_pages pg page_num :
  Forall (fun it => page it = page_num + 1) (extract_prices_from_page pg page_num).
Proof.
  apply Forall_forall. intros it H. unfold extract_prices_from_page in H.
  apply in_flat_map in H. destruct H as (b & _ & H).
  destruct (lines b) as [ls|]; [|contradiction].
  apply in_flat_map in H. destruct H as (line & _ & H).
  apply in_flat_map in H. destruct H as (sp & _ & H).
  unfold process_span in H. apply in_map_iff in H. now destruct H as (m & <- & _).
Qed.

Lemma sorted_after_page c (a b : list item) :
  Forall (fun it => page it = c) a ->
  StronglySorted (fun x y => page x <= page y) b ->
  Forall (fun it => c <= page it) b ->
  StronglySorted (fun x y => page x <= page y) (a ++ b).
Proof.
  intros A B C. induction A as [|x a Hx A IH]; [exact B|].
  cbn [app]. constructor; [exact IH|]. apply Forall_app. split.
  - eapply Forall_impl; [|exact A]. cbn. intros y Hy. lia.
  - eapply Forall_impl; [|exact C]. cbn. intros y Hy. lia.
Qed.

(** X5 — The prices of a scan are listed page by page: whenever a price
    comes before another in the list, and so in the table, its page
    number is not larger. *)
Theorem scan_sorted_by_page doc :
  StronglySorted (fun x y => page x <= page y) (scan doc).
Proof.
  unfold scan, enumerate.
  assert (G : forall l k,
            StronglySorted (fun x y => page x <= page y)
              (flat_map (fun ip => extract_prices_from_page (snd ip) (fst ip))
                        (enumerate_from k l))
            /\ Forall (fun it => k + 1 <= page it)
                 (flat_map (fun ip => extract_prices_from_page (snd ip) (fst ip))
                           (enumerate_from k l))).
  { induction l as [|pg l IH]; intros k; [split; constructor|].
    cbn [enumerate_from flat_map fst snd]. destruct (IH (k + 1)) as [S F].
    pose proof (extract_pages pg k) as P. split.
    - apply (sorted_after_page (k + 1)); [exact P|exact S|].
      eapply Forall_impl; [|exact F]. cbn. intros y Hy. lia.
    - apply Forall_app. split.
      + eapply Forall_impl; [|exact P]. cbn. intros y Hy. lia.
      + eapply Forall_impl; [|exact F]. cbn. intros y Hy. lia. }
  apply G.
Qed.

(** X6 — No price is missed: every price [process_span] finds in a span
    of a text block of a page is in the scan of the document, with the
    number of the page as it is counted from 0. *)
Theorem scan_complete doc n pg sp it :
  nth_error doc n = Some pg -> In sp (spans_of pg) ->
  In it (process_span sp (Z.of_nat n) price_pattern) ->
  In it (scan doc).
Proof.
  intros E S H. unfold scan, enumerate. apply in_flat_map.
  exists (Z.of_nat n, pg). split; [apply (enumerate_from_nth_in doc 0 n pg E)|].
  cbn [fst snd]. unfold extract_prices_from_page, spans_of in *.
  apply in_flat_map in S. destruct S as (b & Hb & S).
  apply in_flat_map. exists b. split; [exact Hb|].
  destruct (lines b) as [ls|]; [|contradiction].
  apply in_concat in S. destruct S as (line & Hl & Hs).
  apply in_flat_map. exists line. split; [exact Hl|].
  apply in_flat_map. exists sp. split; [exact Hs|exact H].
Qed.

Lemma scan_complete_witness : In example_item (scan example_doc).
Proof.
  apply (scan_complete example_doc 0 [ {| lines := Some [ [ example_span ] ] |} ]
           example_span example_item).
  - reflexivity.
  - left. reflexivity.
  - change (Z.of_nat 0) with 0. rewrite example_item_found. left. reflexivity.
Defined.

(** ** Products and rounding *)

Module Products.

Lemma zdigits_bound m : 0 <= m -> m < 2 ^ Zdigits2 m.
Proof.
  intros H. destruct m as [|q|q]; [simpl; lia| |lia].
  apply (digits_bounds q).
Qed.

(** What [shr_fexp] leaves of a mantissa has 53 bits at most. *)
Lemma shr_fexp_bound m e l :
  0 <= m -> shr_m (fst (shr_fexp prec emax m e l)) < 2 ^ 53.
Proof.
  intros H. pose proof (zdigits_bound m H) as B.
  assert (D0 : 0 <= Zdigits2 m) by (destruct m; simpl; lia).
  unfold shr_fexp, shr. rewrite fexp_eq.
  destruct (Z.max (Zdigits2 m + e - 53) (-1074) - e) as [|k|k] eqn:K; cbn [fst].
  - rewrite shr_record_m.
    assert (2 ^ Zdigits2 m <= 2 ^ 53) by (apply Z.pow_le_mono_r; lia). lia.
  - rewrite shr_m_iter, shr_record_m by (rewrite shr_record_m; exact H).
    assert (P : 0 < 2 ^ Z.pos k) by (apply Z.pow_pos_nonneg; lia).
    apply Z.div_lt_upper_bound; [exact P|].
    assert (2 ^ Zdigits2 m <= 2 ^ (Z.pos k + 53)) by (apply Z.pow_le_mono_r; lia).
    rewrite Z.pow_add_r in * by lia. lia.
  - rewrite shr_record_m.
    assert (2 ^ Zdigits2 m <= 2 ^ 53) by (apply Z.pow_le_mono_r; lia). lia.
Qed.

(** A rounded product keeps its sign, and is zero, infinite, or a
    mantissa of 53 bits at most with an exponent in range. *)
Lemma round_aux_shape s m e l :
  0 <= m ->
  binary_round_aux prec emax s m e l = S754_zero s
  \/ binary_round_aux prec emax s m e l = S754_infinity s
  \/ exists q e', binary_round_aux prec emax s m e l = S754_finite s q e'
                  /\ Z.pos q < 2 ^ 53 /\ e' <= 971.
Proof.
  intros H. unfold binary_round_aux.
  pose proof (shr_fexp_nonneg m e l H) as H1.
  destruct (shr_fexp prec emax m e l) as [mrs1 e1]. cbn [fst] in H1.
  pose proof (round_nearest_even_bounds (shr_m mrs1) (loc_of_shr_record mrs1)) as R.
  pose proof (shr_fexp_nonneg (round_nearest_even (shr_m mrs1) (loc_of_shr_record mrs1))
                e1 loc_Exact ltac:(lia)) as H2.
  pose proof (shr_fexp_bound (round_nearest_even (shr_m mrs1) (loc_of_shr_record mrs1))
                e1 loc_Exact ltac:(lia)) as B2.
  destruct (shr_fexp prec emax _ e1 loc_Exact) as [mrs2 e2]. cbn [fst] in H2, B2.
  destruct (shr_m mrs2) as [|q|q]; [left; reflexivity| |lia].
  right. destruct (e2 <=? emax - prec) eqn:O; [right|left; reflexivity].
  apply Z.leb_le in O. unfold emax, prec in O. exists q, e2.
  split; [reflexivity|]. split; [exact B2|lia].
Qed.

(** The product of a natural number and a finite multiplier. *)
Lemma fmul_finite_shape n s a e :
  0 <= n ->
  fmul (float_of_Z n) (S754_finite s a e) = S754_zero s
  \/ fmul (float_of_Z n) (S754_finite s a e) = S754_infinity s
  \/ exists q e', fmul (float_of_Z n) (S754_finite s a e) = S754_finite s q e'
                  /\ Z.pos q < 2 ^ 53 /\ e' <= 971.
Proof.
  intros H.
  destruct (float_of_Z_shape n H) as [F|[F|(m & e0 & F & _ & _)]]; rewrite F.
  - left. reflexivity.
  - right. left. reflexivity.
  - unfold fmul, SFmul. cbn [xorb]. apply round_aux_shape. lia.
Qed.

Lemma round_half_even_bounds m k :
  0 <= m -> 0 < k -> 0 <= round_half_even m k <= m / 2 + 1.
Proof.
  intros M K. unfold round_half_even.
  assert (P : 2 <= 2 ^ k).
  { replace k with (Z.succ (k - 1)) by lia. rewrite Z.pow_succ_r by lia.
    assert (0 < 2 ^ (k - 1)) by (apply Z.pow_pos_nonneg; lia). lia. }
  assert (Q : 0 <= m / 2 ^ k) by (apply Z.div_pos; lia).
  assert (U : m / 2 ^ k <= m / 2).
  { apply Z.div_le_compat_l; lia. }
  destruct (2 * (m mod 2 ^ k) ?= 2 ^ k); [destruct (Z.even _)| |]; lia.
Qed.

(** An integer obtained by rounding a [float] that is not negative is a
    [float] itself: converting and rounding it again gives it back. *)
Lemma py_round_float_fix q e v :
  Z.pos q < 2 ^ 53 -> e <= 971 ->
  py_round (S754_finite false q e) = Ok v ->
  0 <= v /\ py_round (float_of_Z v) = Ok v.
Proof.
  intros Q E R. unfold py_round in R.
  destruct (Z.leb_spec 0 e) as [E0|E0].
  - assert (V : v = Z.pos q * 2 ^ e) by (injection R; intros <-; reflexivity).
    clear R. assert (P : 0 < 2 ^ e) by (apply Z.pow_pos_nonneg; lia).
    assert (V0 : 0 <= v) by (subst v; apply Z.mul_nonneg_nonneg; lia).
    split; [exact V0|].
    destruct (Z.ltb_spec v (2 ^ 53)) as [S|S]; [apply py_round_of_Z_small; lia|].
    pose proof (small_digits q Q) as D. pose proof (digits_bounds q) as [_ U].
    destruct (float_of_Z_small q D) as (m & _ & M & Dm).
    set (d := Z.pos (digits2_pos q)) in *.
    assert (J : 53 - d < e).
    { destruct (Z.ltb_spec (53 - d) e) as [|C]; [assumption|]. exfalso.
      assert (2 ^ e <= 2 ^ (53 - d)) by (apply Z.pow_le_mono_r; lia).
      assert (2 ^ d * 2 ^ (53 - d) = 2 ^ 53)
        by (rewrite <- Z.pow_add_r by (unfold d; lia); f_equal; lia).
      subst v. nia. }
    assert (X : v = Z.pos m * 2 ^ (e - (53 - d))).
    { rewrite V, M, <- Z.mul_assoc, <- Z.pow_add_r by (unfold d; lia).
      f_equal. f_equal. lia. }
    rewrite X at 1. rewrite float_of_Z_exact by (unfold d in *; lia).
    unfold py_round.
    replace (0 <=? e - (53 - d)) with true by (symmetry; apply Z.leb_le; lia).
    now rewrite X.
  - assert (V : v = round_half_even (Z.pos q) (- e))
      by (injection R; intros <-; reflexivity).
    clear R. pose proof (round_half_even_bounds (Z.pos q) (- e)) as B.
    assert (Z.pos q / 2 < 2 ^ 52) by (apply Z.div_lt_upper_bound; lia).
    split; [lia|]. apply py_round_of_Z_small. change (2 ^ 53) with (2 * 2 ^ 52). lia.
Qed.

Lemma py_round_sign s q e v :
  py_round (S754_finite s q e) = Ok v -> if s then v <= 0 else 0 <= v.
Proof.
  unfold py_round. cbv zeta.
  set (a := if 0 <=? e then Z.pos q * 2 ^ e else round_half_even (Z.pos q) (- e)).
  assert (A : 0 <= a).
  { unfold a. destruct (Z.leb_spec 0 e) as [E0|E0].
    - assert (0 < 2 ^ e) by (apply Z.pow_pos_nonneg; lia).
      apply Z.mul_nonneg_nonneg; lia.
    - apply (round_half_even_bounds (Z.pos q) (- e)); lia. }
  clearbody a. intros [= <-]. destruct s; lia.
Qed.

(** The quotient computed by the division is not negative. *)
Lemma div_core_nonneg m1 e1 m2 e2 :
  0 <= m1 -> 0 < m2 ->
  0 <= fst (fst (SFdiv_core_binary prec emax m1 e1 m2 e2)).
Proof.
  intros H1 H2. unfold SFdiv_core_binary. cbv zeta.
  match goal with
  | |- context [Z.div_eucl ?a m2] => set (m' := a)
  end.
  assert (A : 0 <= m').
  { unfold m'.
    match goal with
    | |- 0 <= match ?s with _ => _ end => destruct s
    end; try lia. apply Z.shiftl_nonneg. exact H1. }
  clearbody m'. pose proof (Z.div_pos m' m2 A H2) as Q. unfold Z.div in Q.
  destruct (Z.div_eucl m' m2) as [q r]. exact Q.
Qed.

(** A sum or a quotient of numbers that are not negative is not negative,
    and is a number. *)
Lemma fdiv_not_negative x m e :
  not_negative x -> not_negative (fdiv x (S754_finite false m e)).
Proof.
  destruct x as [t|[]| |[] a b]; cbn [not_negative]; intros H; try contradiction;
    try exact I.
  unfold fdiv, SFdiv.
  pose proof (div_core_nonneg (Z.pos a) b (Z.pos m) e ltac:(lia) ltac:(lia)) as Q.
  destruct (SFdiv_core_binary prec emax (Z.pos a) b (Z.pos m) e) as [[mz ez] lz].
  cbn [fst] in Q. cbn [xorb].
  destruct (round_aux_shape false mz ez lz Q) as [E|[E|(q & e' & E & _)]];
    rewrite E; exact I.
Qed.

Lemma fadd_not_negative m e y :
  not_negative y -> not_negative (fadd (S754_finite false m e) y).
Proof.
  destruct y as [t|[]| |[] a b]; cbn [not_negative]; intros H; try contradiction;
    try exact I.
  unfold fadd, SFadd. cbn [cond_Zopp]. 
  change (Z.pos (fst (shl_align m e (Z.min e b))) + Z.pos (fst (shl_align a b (Z.min e b))))
    with (Z.pos (fst (shl_align m e (Z.min e b)) + fst (shl_align a b (Z.min e b)))).
  cbn [binary_normalize]. unfold binary_round.
  destruct (shl_align _ _ _) as [mz ez].
  destruct (round_aux_shape false (Z.pos mz) ez loc_Exact ltac:(lia))
    as [E|[E|(q & e' & E & _)]]; rewrite E; exact I.
Qed.

End Products.

(** ** [apply_markup] *)

Import Scanner PriceShape Products.

(** [apply_markup] once [re.search] has found a number. *)
Lemma apply_markup_found text k d w p c m :
  search value_re text
  = Some {| m_start := k; m_whole := d :: w; m_groups := [(1%nat, d :: w)] |} ->
  is_digit d = true -> Forall digit_or_sep w ->
  apply_markup text p c m
  = scaled text p c (dec_value (strip_separators (d :: w))) m.
Proof.
  intros E D F. unfold apply_markup. rewrite E.
  change (group _ 1) with (Some (d :: w)). cbv iota beta.
  rewrite strip_digit_or_sep by (constructor; [left; exact D|exact F]).
  cbn [filter]. rewrite D. unfold float_of_str. cbn [forallb]. rewrite D.
  cbn [andb]. now rewrite forallb_filter.
Qed.

Lemma no_digit_filter l : no_digit l -> filter is_digit l = [].
Proof.
  induction 1 as [|c l H F IH]; [reflexivity|]. cbn [filter]. now rewrite H.
Qed.

(** With a finite multiplier that is not zero the handler is not reached:
    the number is scaled, with the sign of the multiplier, or the product
    overflows; and a scaled number that is not negative is a [float]. *)
Lemma scaled_finite text p c n s a e :
  0 <= n ->
  (exists v, scaled text p c n (S754_finite s a e) = Ok (price_text p v c)
             /\ (if s then v <= 0 else 0 <= v)
             /\ (s = false -> py_round (float_of_Z v) = Ok v))
  \/ scaled text p c n (S754_finite s a e) = Raise OverflowError.
Proof.
  intros H. unfold scaled.
  destruct (fmul_finite_shape n s a e H) as [F|[F|(q & e' & F & Q & E)]]; rewrite F.
  - left. exists 0. split; [reflexivity|]. split; [destruct s; lia|reflexivity].
  - right. reflexivity.
  - left. destruct (py_round (S754_finite s q e')) as [v|x] eqn:R;
      [|discriminate R].
    exists v. split; [reflexivity|]. split; [exact (py_round_sign _ _ _ _ R)|].
    intros ->. exact (proj2 (py_round_float_fix q e' v Q E R)).
Qed.

(** The text plays no part in the result then. *)
Lemma scaled_any_text t1 t2 p c n s a e :
  0 <= n ->
  scaled t1 p c n (S754_finite s a e) = scaled t2 p c n (S754_finite s a e).
Proof.
  intros H. unfold scaled.
  destruct (fmul_finite_shape n s a e H) as [F|[F|(q & e' & F & _)]]; rewrite F;
    reflexivity.
Qed.

(** What a positive finite multiplier gives: the text itself when it has
    no digit, else the text written for a natural number that is a
    [float]. *)
Lemma positive_multiplier_result x p c a e y :
  apply_markup x p c (S754_finite false a e) = Ok y ->
  no_digit x /\ y = x
  \/ exists v, 0 <= v /\ y = price_text p v c /\ py_round (float_of_Z v) = Ok v.
Proof.
  intros H. destruct (existsb is_digit x) eqn:X.
  - right.
    destruct (first_run x X) as (pre & run & post & -> & Npre & NE & F & N).
    destruct (apply_markup_at_run pre run post p c (S754_finite false a e) Npre NE F N)
      as (g & post' & _ & _ & _ & _ & A).
    rewrite A in H.
    destruct (scaled_finite (pre ++ run ++ post) p c
                (dec_value (run ++ filter is_digit g)) false a e
                (dec_value_nonneg _)) as [(v & E & V & R)|E];
      rewrite E in H; [|discriminate H].
    injection H as <-. exists v. auto.
  - left. pose proof (no_digit_existsb x X) as N.
    rewrite apply_markup_no_digit in H by exact N. injection H as <-. auto.
Qed.

(** The text written for such a number is left as it is by the call with
    the multiplier 1.0. *)
Lemma display_of_price_text p v c :
  no_digit p -> no_digit_ahead c -> 0 <= v -> py_round (float_of_Z v) = Ok v ->
  apply_markup (price_text p v c) p c f_1_0 = Ok (price_text p v c).
Proof.
  intros Np Nc V R. rewrite apply_markup_price_text by assumption.
  unfold scaled. rewrite fmul_one_of_Z, R by exact V. reflexivity.
Qed.

(** The same for every multiplier that is not negative, zeros and the
    infinity included: there the text comes back as it is when the
    product is not a number. *)
Lemma scaled_not_negative text p c n m y :
  0 <= n -> not_negative m -> scaled text p c n m = Ok y ->
  y = text
  \/ exists v, 0 <= v /\ y = price_text p v c /\ py_round (float_of_Z v) = Ok v.
Proof.
  intros N M H. destruct m as [s|[]| |[] a e]; cbn [not_negative] in M;
    try contradiction.
  - unfold scaled in H.
    destruct (float_of_Z_shape n N) as [F|[F|(m0 & e0 & F & _)]]; rewrite F in H.
    + right. exists 0. injection H as <-. split; [lia|]. split; reflexivity.
    + left. now injection H as <-.
    + right. exists 0. injection H as <-. split; [lia|]. split; reflexivity.
  - unfold scaled in H.
    destruct (float_of_Z_shape n N) as [F|[F|(m0 & e0 & F & _)]]; rewrite F in H.
    + left. now injection H as <-.
    + discriminate H.
    + discriminate H.
  - destruct (scaled_finite text p c n false a e N) as [(v & E & V & R)|E];
      rewrite E in H; [|discriminate H].
    right. exists v. injection H as <-. auto.
Qed.

Lemma not_negative_multiplier_result x p c m y :
  not_negative m -> apply_markup x p c m = Ok y ->
  y = x
  \/ exists v, 0 <= v /\ y = price_text p v c /\ py_round (float_of_Z v) = Ok v.
Proof.
  intros M H. destruct (existsb is_digit x) eqn:X.
  - destruct (first_run x X) as (pre & run & post & -> & Npre & NE & F & N).
    destruct (apply_markup_at_run pre run post p c m Npre NE F N)
      as (g & post' & _ & _ & _ & _ & A).
    rewrite A in H.
    exact (scaled_not_negative _ p c _ m y (dec_value_nonneg _) M H).
  - left. pose proof (no_digit_existsb x X) as N.
    rewrite apply_markup_no_digit in H by exact N. now injection H as <-.
Qed.

(** X7 — With a multiplier that is not a number the product is not a
    number either, [round] raises [ValueError], and [apply_markup]
    returns the text as it is, whatever the text: this is the only use
    of the handler for a text with a digit. *)
Theorem nan_multiplier_returns_text text p c :
  apply_markup text p c S754_nan = Ok text.
Proof.
  destruct (existsb is_digit text) eqn:X.
  - destruct (first_run text X) as (pre & run & post & -> & Npre & NE & F & N).
    destruct (apply_markup_at_run pre run post p c S754_nan Npre NE F N)
      as (g & post' & _ & _ & _ & _ & A).
    rewrite A. unfold scaled, fmul, SFmul.
    destruct (float_of_Z (dec_value (run ++ filter is_digit g))); reflexivity.
  - apply apply_markup_no_digit. now apply no_digit_existsb.
Qed.

(** X8 — On a text with a digit and a finite multiplier other than zero,
    [apply_markup] never falls back to the text: it returns the label,
    a formatted integer, a space and the currency, the integer having
    the sign of the multiplier, or it raises [OverflowError]. *)
Theorem finite_multiplier_result text p c s a e :
  existsb is_digit text = true ->
  (exists v, apply_markup text p c (S754_finite s a e) = Ok (price_text p v c)
             /\ (if s then v <= 0 else 0 <= v))
  \/ apply_markup text p c (S754_finite s a e) = Raise OverflowError.
Proof.
  intros X.
  destruct (first_run text X) as (pre & run & post & -> & Npre & NE & F & N).
  destruct (apply_markup_at_run pre run post p c (S754_finite s a e) Npre NE F N)
    as (g & post' & _ & _ & _ & _ & A).
  rewrite A.
  destruct (scaled_finite (pre ++ run ++ post) p c
              (dec_value (run ++ filter is_digit g)) s a e
              (dec_value_nonneg _)) as [(v & E & S & _)|E].
  - left. exists v. auto.
  - right. exact E.
Qed.

Lemma finite_multiplier_result_witness :
  (exists v, apply_markup (u "12€") [] (u "€") f_1_10 = Ok (price_text [] v (u "€"))
             /\ 0 <= v)
  \/ apply_markup (u "12€") [] (u "€") f_1_10 = Raise OverflowError.
Proof.
  apply (finite_multiplier_result (u "12€") [] (u "€") false 4953959590107546 (-52)).
  vm_compute. reflexivity.
Defined.

(** X9 — What the table shows is what is drawn: with a positive finite
    multiplier, a label without digits and a currency that does not
    start with a digit, the text [apply_markup] returns is left as it is
    by the second call, the one with the multiplier 1.0 made when the
    text is inserted. *)
Theorem table_text_drawn_as_shown x p c a e y :
  no_digit p -> no_digit_ahead c ->
  apply_markup x p c (S754_finite false a e) = Ok y ->
  apply_markup y p c f_1_0 = Ok y.
Proof.
  intros Np Nc H.
  destruct (positive_multiplier_result x p c a e y H) as [[N ->]|(v & V & -> & R)].
  - now apply apply_markup_no_digit.
  - now apply display_of_price_text.
Qed.

Lemma table_text_drawn_as_shown_witness :
  apply_markup (u "Стоимость 36 750 €") (u "Стоимость ") (u "€") f_1_0
  = Ok (u "Стоимость 36 750 €").
Proof.
  apply (table_text_drawn_as_shown (u "Стоимость 35 000 €") (u "Стоимость ") (u "€")
           4728779608739021 (-52)).
  - apply no_digit_check. vm_compute. reflexivity.
  - vm_compute. reflexivity.
  - vm_compute. reflexivity.
Defined.

(** X10 — The two patterns agree on a found price: in the text of a price
    the scanner found, the pattern of [apply_markup] finds the value the
    scanner captured, right after the label, so the new text of the
    table is computed from that value with its separators removed,
    whatever the label, the currency and the multiplier passed. *)
Theorem table_number_is_scanned_value sp page_num it :
  In it (process_span sp page_num price_pattern) ->
  search value_re (original_text it)
  = Some {| m_start := length (prefix it); m_whole := value it;
            m_groups := [(1%nat, value it)] |}
  /\ forall p c m,
       apply_markup (original_text it) p c m
       = scaled (original_text it) p c (dec_value (strip_separators (value it))) m.
Proof.
  unfold process_span. intros H. apply in_map_iff in H.
  destruct H as (m0 & <- & H). cbn [original_text prefix value].
  destruct (price_match _ _ H) as (run & tail & ws & W & N & V & _ & P & S & _).
  assert (E : search value_re (m_whole m0)
              = Some {| m_start := length (group_or_empty m0 g_prefix);
                        m_whole := group_or_empty m0 g_value;
                        m_groups := [(1%nat, group_or_empty m0 g_value)] |})
    by (rewrite W, V; now apply search_price_value).
  split; [exact E|].
  intros p c m. destruct P as (NE & F & G & _).
  destruct run as [|d run]; [exfalso; apply NE; reflexivity|].
  rewrite V in *. cbn [app] in *.
  apply (apply_markup_found _ _ _ _ p c m E).
  - now apply Forall_inv in F.
  - apply Forall_app. split.
    + apply digits_digit_or_sep. now apply Forall_inv_tail in F.
    + now apply sep_groups_chars.
Qed.

Lemma table_number_is_scanned_value_witness :
  search value_re (original_text example_item)
  = Some {| m_start := length (prefix example_item); m_whole := value example_item;
            m_groups := [(1%nat, value example_item)] |}.
Proof.
  apply (table_number_is_scanned_value example_span 0 example_item).
  rewrite example_item_found. left. reflexivity.
Defined.

(** X11 — Formatting and reading are inverse: in the text written for a
    natural number, between a label without digits and a currency that
    does not start with a digit, [re.search] finds the formatted number
    right after the label, and the formatted number with its separators
    removed converts to the [float] of the number. *)
Theorem formatted_number_reads_back p v c :
  no_digit p -> no_digit_ahead c -> 0 <= v ->
  search value_re (price_text p v c)
  = Some {| m_start := length p;
            m_whole := replace_char 44%N 32%N (format_commas v);
            m_groups := [(1%nat, replace_char 44%N 32%N (format_commas v))] |}
  /\ dec_value (strip_separators (replace_char 44%N 32%N (format_commas v))) = v
  /\ float_of_str (strip_separators (replace_char 44%N 32%N (format_commas v)))
     = Ok (float_of_Z v).
Proof.
  intros Np Nc V.
  destruct (format_shape v V) as (run & tail & E & NE & L & F & G & D).
  destruct (value_re_at_formatted run tail c [] NE L F G Nc) as (l & X).
  assert (T : price_text p v c = p ++ run ++ tail ++ 32%N :: c).
  { unfold price_text. rewrite E, <- app_assoc. reflexivity. }
  assert (W : taken (mk (run ++ tail ++ 32%N :: c) []) (mk (32%N :: c) [(1%nat, run ++ tail)])
              = run ++ tail).
  { apply taken_app. simpl. now rewrite app_assoc. }
  rewrite T, E, (search_at p _ _ _ _ Np X W). cbn [caps].
  split; [reflexivity|].
  rewrite strip_digit_or_sep
    by (apply Forall_app; split;
        [now apply digits_digit_or_sep|now apply grouped_tail_chars]).
  rewrite filter_app, (filter_all _ _ F), D. split; [reflexivity|].
  unfold float_of_str.
  destruct run as [|d run]; [congruence|]. cbn [app].
  change (d :: run ++ filter is_digit tail) with ((d :: run) ++ filter is_digit tail).
  rewrite forallb_app, forallb_filter, andb_true_r.
  replace (forallb is_digit (d :: run)) with true
    by (symmetry; apply forallb_forall; now apply Forall_forall).
  now rewrite D.
Qed.

Lemma formatted_number_reads_back_witness :
  search value_re (price_text (u "Стоимость ") 36750 (u "€"))
  = Some {| m_start := length (u "Стоимость ");
            m_whole := replace_char 44%N 32%N (format_commas 36750);
            m_groups := [(1%nat, replace_char 44%N 32%N (format_commas 36750))] |}.
Proof.
  apply (formatted_number_reads_back (u "Стоимость ") 36750 (u "€")).
  - apply no_digit_check. vm_compute. reflexivity.
  - vm_compute. reflexivity.
  - lia.
Defined.

(** X12 — Grouping does not matter: for every natural number, the bare
    decimal spelling and the spelling in groups of three separated by
    spaces, each followed by a space and a text without digits, give the
    same result with every finite multiplier other than zero. *)
Theorem grouping_does_not_matter n c p' c' s a e :
  no_digit c ->
  apply_markup (decimal n ++ 32%N :: c) p' c' (S754_finite s a e)
  = apply_markup (replace_char 44%N 32%N (format_commas (Z.of_N n)) ++ 32%N :: c)
                 p' c' (S754_finite s a e).
Proof.
  intros Nc.
  assert (B : no_digit (32%N :: c)) by (constructor; [reflexivity|exact Nc]).
  destruct (apply_markup_at_run [] (decimal n) (32%N :: c) p' c' (S754_finite s a e))
    as (g & post' & Eg & _ & _ & _ & A).
  - constructor.
  - apply decimal_not_empty.
  - apply ascii_digits_are_digits, uint_chars_ascii.
  - reflexivity.
  - cbn [app] in A. rewrite A.
    assert (Fg : filter is_digit g = []).
    { apply no_digit_filter. rewrite Eg in B. now apply Forall_app in B. }
    rewrite Fg, app_nil_r, dec_value_decimal.
    change (replace_char 44%N 32%N (format_commas (Z.of_N n)) ++ 32%N :: c)
      with (price_text [] (Z.of_N n) c).
    rewrite apply_markup_price_text;
      [|constructor|destruct Nc; [exact I|assumption]|lia].
    apply scaled_any_text. lia.
Qed.

Lemma grouping_does_not_matter_witness :
  apply_markup (decimal 1600 ++ 32%N :: u "€") [] (u "€") f_1_05
  = apply_markup (replace_char 44%N 32%N (format_commas (Z.of_N 1600)) ++ 32%N :: u "€")
                 [] (u "€") f_1_05.
Proof.
  apply (grouping_does_not_matter 1600 (u "€") [] (u "€") false 4728779608739021 (-52)).
  apply no_digit_check. vm_compute. reflexivity.
Defined.

(** ** The table and the generation phase *)

Module Loops.

Lemma filter_everything {A} (l : list A) : filter (fun _ => true) l = l.
Proof. induction l as [|a l IH]; cbn; [|rewrite IH]; reflexivity. Qed.

Lemma run_cons f r t :
  run f (r :: t)
  = match f r with
    | Ok ops => (fst (run f t), ops ++ snd (run f t))
    | Raise e => (Raise e, [])
    end.
Proof. simpl. destruct (f r); [|reflexivity]. now destruct (run f t). Qed.

(** A loop whose body succeeds on every row succeeds. *)
Lemma run_all_ok f rows :
  (forall r, In r rows -> exists ops, f r = Ok ops) -> fst (run f rows) = Ok tt.
Proof.
  induction rows as [|r t IH]; intros H; [reflexivity|].
  rewrite run_cons. destruct (H r (or_introl eq_refl)) as (ops & ->).
  apply IH. intros r' I. apply H. now right.
Qed.

(** A loop raises what its body raises. *)
Lemma run_raises f rows e :
  fst (run f rows) = Raise e -> exists r, In r rows /\ f r = Raise e.
Proof.
  induction rows as [|r t IH]; [discriminate|].
  rewrite run_cons. destruct (f r) as [ops|x] eqn:E.
  - intros H. destruct (IH H) as (r' & I & F). exists r'. split; [now right|exact F].
  - intros [= ->]. exists r. split; [now left|exact E].
Qed.

(** Counting the operations of one kind a loop draws. *)
Lemma run_count (P : Z * op -> bool) (sel : row -> bool) k f rows :
  (forall r ops, f r = Ok ops -> length (filter P ops) = if sel r then k else 0%nat) ->
  fst (run f rows) = Ok tt ->
  length (filter P (snd (run f rows))) = (k * length (filter sel rows))%nat.
Proof.
  intros H. induction rows as [|r t IH]; [simpl; lia|].
  rewrite run_cons. destruct (f r) as [ops|x] eqn:E; [|discriminate].
  cbn [fst snd]. intros R. rewrite filter_app, length_app, (H r ops E), (IH R).
  cbn [filter]. destruct (sel r); cbn [length]; lia.
Qed.

Lemma without_font_file_app a b :
  without_font_file (a ++ b) = without_font_file a ++ without_font_file b.
Proof. unfold without_font_file. now rewrite filter_app, map_app. Qed.

Lemma without_font_file_erases ops :
  Forall (fun e => is_erase e = true) ops -> without_font_file ops = ops.
Proof.
  induction 1 as [|[pg o] l H F IH]; [reflexivity|].
  unfold without_font_file in *. destruct o; try discriminate H.
  cbn. now rewrite IH.
Qed.

(** Two bodies related row by row give related loops. *)
Lemma run_related (g : list (Z * op) -> list (Z * op)) f f' rows :
  (forall a b, g (a ++ b) = g a ++ g b) -> g [] = [] ->
  (forall r, f' r = match f r with Ok ops => Ok (g ops) | Raise e => Raise e end) ->
  run f' rows = (fst (run f rows), g (snd (run f rows))).
Proof.
  intros A N H. induction rows as [|r t IH]; [cbn; now rewrite N|].
  rewrite !run_cons, H. destruct (f r) as [ops|e]; cbn [fst snd].
  - rewrite IH. cbn [fst snd]. now rewrite A.
  - now rewrite N.
Qed.

Lemma page_of_range pc i pg : page_of pc i = Ok pg -> 0 <= pg < pc.
Proof.
  unfold page_of. destruct ((i <? pc) && (0 <? pc)) eqn:E; [|discriminate].
  intros [= <-]. apply andb_true_iff in E. destruct E as [_ E].
  apply Z.ltb_lt in E. now apply Z.mod_pos_bound.
Qed.

(** What the two loops draw for a row. *)
Lemma whiteout_of_ok all_prices pc r ops :
  whiteout_of all_prices pc r = Ok ops ->
  if row_changed all_prices r
  then exists it pg, py_index all_prices (ID r) = Ok it
                     /\ page_of pc (page it - 1) = Ok pg
                     /\ ops = [(pg, DrawRect (i_bbox it) white white true)]
  else ops = [].
Proof.
  unfold whiteout_of, row_changed.
  destruct (py_index all_prices (ID r)) as [it|]; [|discriminate].
  cbn [bind]. destruct (changed r it); [|now intros [= <-]].
  destruct (page_of pc (page it - 1)) as [pg|] eqn:P; [|discriminate].
  cbn [bind]. intros [= <-]. exists it, pg. repeat split; [exact P].
Qed.

Lemma insertion_of_ok font_file all_prices pc r ops :
  insertion_of font_file all_prices pc r = Ok ops ->
  if row_changed all_prices r
  then exists it pg txt,
         py_index all_prices (ID r) = Ok it
         /\ page_of pc (page it - 1) = Ok pg
         /\ apply_markup (New_Text r) (prefix it) (currency it) f_1_0 = Ok txt
         /\ ops = (if font_file then [(pg, InsertFont (u "dejavu") (u "DejaVuSans.ttf"))]
                   else [])
                  ++ [(pg, InsertText (x0_of (i_bbox it), snd (origin it)) txt
                                      (font_size it)
                                      (if font_file then u "dejavu" else u "helv") 0)]
  else ops = [].
Proof.
  unfold insertion_of, row_changed.
  destruct (py_index all_prices (ID r)) as [it|]; [|discriminate].
  cbn [bind]. destruct (changed r it); [|now intros [= <-]].
  destruct (page_of pc (page it - 1)) as [pg|] eqn:P; [|discriminate]. cbn [bind].
  destruct (apply_markup (New_Text r) (prefix it) (currency it) f_1_0) as [txt|] eqn:A;
    [|discriminate].
  cbn [bind]. intros [= <-]. exists it, pg, txt. repeat split; assumption.
Qed.

(** The second loop without the font file, from the second loop with it. *)
Lemma insertion_of_fallback all_prices pc r :
  insertion_of false all_prices pc r
  = match insertion_of true all_prices pc r with
    | Ok ops => Ok (without_font_file ops)
    | Raise e => Raise e
    end.
Proof.
  unfold insertion_of.
  destruct (py_index all_prices (ID r)) as [it|]; [|reflexivity].
  cbn [bind]. destruct (changed r it); [|reflexivity].
  destruct (page_of pc (page it - 1)) as [pg|]; [|reflexivity]. cbn [bind].
  destruct (apply_markup (New_Text r) (prefix it) (currency it) f_1_0) as [txt|];
    reflexivity.
Qed.

Lemma map_result_raises {A B} (f : A -> result B) l e :
  map_result f l = Raise e -> exists a, In a l /\ f a = Raise e.
Proof.
  induction l as [|a l IH]; [discriminate|]. cbn [map_result].
  destruct (f a) as [b|x] eqn:E; cbn [bind].
  - destruct (map_result f l) as [bs|y]; [discriminate|]. cbn [bind].
    intros [= ->]. destruct (IH eq_refl) as (a' & I & F). exists a'. split; [now right|exact F].
  - intros [= ->]. exists a. split; [now left|exact E].
Qed.

Lemma overflow_only text p c m e :
  apply_markup text p c m = Raise e -> e = OverflowError.
Proof.
  intros H. destruct (apply_markup_raises_only_overflow text p c m) as [(y & E)|E];
    rewrite E in H; [discriminate|]. now injection H as <-.
Qed.

Lemma data_for_df_raises all_prices multiplier e :
  data_for_df all_prices multiplier = Raise e -> e = OverflowError.
Proof.
  unfold data_for_df. intros H. apply map_result_raises in H.
  destruct H as ([idx it] & _ & H).
  destruct (apply_markup (original_text it) (prefix it) (currency it) multiplier)
    as [txt|x] eqn:E; [discriminate|].
  cbn [bind] in H. injection H as <-. exact (overflow_only _ _ _ _ _ E).
Qed.

Lemma same_keys_refl rows : Forall2 same_keys rows rows.
Proof. induction rows; constructor; [repeat split|assumption]. Qed.

Lemma two_prices_found :
  process_span two_price_span 0 price_pattern = [first_price; second_price].
Proof. vm_compute. reflexivity. Qed.

End Loops.

Import Loops.

(** X13 — The table has one row per found price, in the order of the
    prices: the identities count from 0, the page and the found text are
    those of the price; or building it raises [OverflowError]. No other
    exception leaves the loop. *)
Theorem data_for_df_table all_prices multiplier :
  (exists rows,
     data_for_df all_prices multiplier = Ok rows
     /\ length rows = length all_prices
     /\ map ID rows = map Z.of_nat (seq 0 (length all_prices))
     /\ map Page rows = map page all_prices
     /\ map Original_Text rows = map original_text all_prices)
  \/ data_for_df all_prices multiplier = Raise OverflowError.
Proof.
  unfold data_for_df, enumerate.
  assert (G : forall l k,
            (exists rows,
               map_result
                 (fun ii : Z * item =>
                    let '(idx, it) := ii in
                    bind (apply_markup (original_text it) (prefix it) (currency it)
                                       multiplier)
                         (fun new_price_text =>
                            Ok {| ID := idx; Page := page it;
                                  Original_Text := original_text it;
                                  New_Text := new_price_text |}))
                 (enumerate_from k l) = Ok rows
               /\ length rows = length l
               /\ map ID rows = map (fun n => k + Z.of_nat n) (seq 0 (length l))
               /\ map Page rows = map page l
               /\ map Original_Text rows = map original_text l)
            \/ map_result
                 (fun ii : Z * item =>
                    let '(idx, it) := ii in
                    bind (apply_markup (original_text it) (prefix it) (currency it)
                                       multiplier)
                         (fun new_price_text =>
                            Ok {| ID := idx; Page := page it;
                                  Original_Text := original_text it;
                                  New_Text := new_price_text |}))
                 (enumerate_from k l) = Raise OverflowError).
  { induction l as [|it l IH]; intros k.
    - left. exists []. cbn. auto.
    - cbn [enumerate_from map_result].
      destruct (apply_markup_raises_only_overflow (original_text it) (prefix it)
                  (currency it) multiplier) as [(y & E)|E]; rewrite E; cbn [bind];
        [|right; reflexivity].
      destruct (IH (k + 1)) as [(rows & R & L & I & P & O)|R]; rewrite R; cbn [bind];
        [|right; reflexivity].
      left. eexists. split; [reflexivity|]. cbn [length map seq ID Page Original_Text].
      rewrite L, I, P, O, <- seq_shift, map_map.
      repeat split; f_equal; [lia|]. apply map_ext. intros n. lia. }
  destruct (G all_prices 0) as [(rows & R & L & I & P & O)|R]; [left|right; exact R].
  exists rows. repeat split; auto.
Qed.

(** X14 — When the generation phase succeeds, each changed row has been
    erased once and redrawn once, and nothing else is drawn: the
    document holds as many whiteouts and as many inserted texts as there
    are changed rows, and one inserted font per changed row when the
    font file is there, none otherwise. *)
Theorem one_erase_one_text_per_changed_row font_file all_prices rows d d' :
  generate font_file all_prices rows d = (Ok tt, d') ->
  exists ops,
    d' = add_ops d ops
    /\ length (filter is_erase ops) = length (filter (row_changed all_prices) rows)
    /\ length (filter is_text ops) = length (filter (row_changed all_prices) rows)
    /\ length (filter is_font ops)
       = (if font_file then length (filter (row_changed all_prices) rows) else 0%nat)
    /\ length ops
       = ((if font_file then 3 else 2) * length (filter (row_changed all_prices) rows))%nat.
Proof.
  rewrite generate_eq. cbv zeta.
  pose proof (fun P k H => run_count P (row_changed all_prices) k
                (whiteout_of all_prices (page_count d)) rows H) as W.
  pose proof (fun P k H => run_count P (row_changed all_prices) k
                (insertion_of font_file all_prices (page_count d)) rows H) as J.
  destruct (run (whiteout_of all_prices (page_count d)) rows) as [r1 o1].
  destruct r1 as [[]|e1]; [|discriminate].
  destruct (run (insertion_of font_file all_prices (page_count d)) rows) as [r2 o2].
  intros [= -> <-]. cbn [fst snd] in W, J.
  assert (Wc : forall P k,
            (forall it pg, length (filter P [(pg, DrawRect (i_bbox it) white white true)]) = k) ->
            length (filter P o1) = (k * length (filter (row_changed all_prices) rows))%nat).
  { intros P k H. apply W; [|reflexivity]. intros r ops E.
    apply whiteout_of_ok in E. destruct (row_changed all_prices r).
    - destruct E as (it & pg & _ & _ & ->). apply H.
    - now subst ops. }
  assert (Jc : forall P k,
            (forall pg pt txt size,
               length (filter P
                 ((if font_file then [(pg, InsertFont (u "dejavu") (u "DejaVuSans.ttf"))]
                   else [])
                  ++ [(pg, InsertText pt txt size
                                      (if font_file then u "dejavu" else u "helv") 0)]))
               = k) ->
            length (filter P o2) = (k * length (filter (row_changed all_prices) rows))%nat).
  { intros P k H. apply J; [|reflexivity]. intros r ops E.
    apply insertion_of_ok in E. destruct (row_changed all_prices r).
    - destruct E as (it & pg & txt & _ & _ & _ & ->). apply H.
    - now subst ops. }
  exists (o1 ++ o2). split; [reflexivity|].
  rewrite !filter_app, !length_app.
  rewrite (Wc is_erase 1%nat), (Jc is_erase 0%nat),
          (Wc is_text 0%nat), (Jc is_text 1%nat),
          (Wc is_font 0%nat), (Jc is_font (if font_file then 1 else 0)%nat)
    by (intros; destruct font_file; reflexivity).
  rewrite <- (filter_everything o1), <- (filter_everything o2).
  rewrite (Wc (fun _ => true) 1%nat),
          (Jc (fun _ => true) (if font_file then 2 else 1)%nat)
    by (intros; destruct font_file; reflexivity).
  destruct font_file; repeat split; lia.
Qed.

Lemma one_erase_one_text_per_changed_row_witness :
  exists ops,
    length (filter is_erase ops) = 1%nat /\ length (filter is_text ops) = 1%nat
    /\ length ops = 3%nat.
Proof.
  destruct (one_erase_one_text_per_changed_row true [first_price; second_price]
              [ {| ID := 0; Page := 1; Original_Text := u "10 €"; New_Text := u "11 €" |};
                {| ID := 1; Page := 1; Original_Text := u "20 €"; New_Text := u "20 €" |} ]
              one_page
              (snd (generate true [first_price; second_price]
                      [ {| ID := 0; Page := 1; Original_Text := u "10 €";
                           New_Text := u "11 €" |};
                        {| ID := 1; Page := 1; Original_Text := u "20 €";
                           New_Text := u "20 €" |} ]
                      one_page)))
    as (ops & _ & E & T & _ & L).
  - vm_compute. reflexivity.
  - exists ops. split; [exact E|]. split; [exact T|exact L].
Defined.

(** X15 — A missing font file changes nothing but the font: the
    generation phase ends the same way with and without the file, and
    what it draws without the file is what it draws with it, the
    inserted fonts left out and every text set in the built-in font
    "helv" instead of "dejavu". *)
Theorem missing_font_file_only_changes_font all_prices rows d :
  exists res ops,
    generate true all_prices rows d = (res, add_ops d ops)
    /\ generate false all_prices rows d = (res, add_ops d (without_font_file ops))
    /\ Forall (fun e => is_font e = false) (without_font_file ops).
Proof.
  rewrite !generate_eq. cbv zeta.
  pose proof (run_forall (fun e => is_erase e = true)
                (whiteout_of all_prices (page_count d)) rows
                (whiteout_erases all_prices (page_count d))) as F1.
  rewrite (run_related without_font_file
             (insertion_of true all_prices (page_count d))
             (insertion_of false all_prices (page_count d)) rows
             without_font_file_app eq_refl
             (insertion_of_fallback all_prices (page_count d))).
  destruct (run (whiteout_of all_prices (page_count d)) rows) as [r1 o1].
  destruct (run (insertion_of true all_prices (page_count d)) rows) as [r2 o2].
  cbn [fst snd] in *.
  assert (N : forall ops, Forall (fun e => is_font e = false) (without_font_file ops)).
  { intros ops. unfold without_font_file. apply Forall_forall. intros e H.
    apply in_map_iff in H. destruct H as ([pg o] & <- & H).
    apply filter_In in H. destruct H as [_ H]. destruct o; try reflexivity.
    discriminate H. }
  destruct r1 as [[]|e1].
  - exists r2, (o1 ++ o2). split; [reflexivity|].
    rewrite without_font_file_app, (without_font_file_erases o1 F1).
    split; [reflexivity|]. rewrite <- (without_font_file_erases o1 F1) at 1.
    rewrite <- without_font_file_app. apply N.
  - exists (Raise e1), o1. split; [reflexivity|].
    rewrite (without_font_file_erases o1 F1). split; [reflexivity|].
    rewrite <- (without_font_file_erases o1 F1). apply N.
Qed.

(** X16 — The generation phase draws on pages of the document only:
    whatever the rows and however it ends, every operation it adds is on
    a page between 0 and the number of pages. *)
Theorem drawn_on_pages_of_the_document font_file all_prices rows d :
  exists ops,
    snd (generate font_file all_prices rows d) = add_ops d ops
    /\ Forall (fun e => 0 <= fst e < page_count d) ops.
Proof.
  rewrite generate_eq. cbv zeta.
  pose proof (run_forall (fun e => 0 <= fst e < page_count d)
                (whiteout_of all_prices (page_count d)) rows) as F1.
  pose proof (run_forall (fun e => 0 <= fst e < page_count d)
                (insertion_of font_file all_prices (page_count d)) rows) as F2.
  destruct (run (whiteout_of all_prices (page_count d)) rows) as [r1 o1].
  destruct (run (insertion_of font_file all_prices (page_count d)) rows) as [r2 o2].
  cbn [fst snd] in *.
  assert (G1 : Forall (fun e => 0 <= fst e < page_count d) o1).
  { apply F1. intros r ops E. apply whiteout_of_ok in E.
    destruct (row_changed all_prices r); [|subst ops; constructor].
    destruct E as (it & pg & _ & P & ->). apply page_of_range in P.
    constructor; [exact P|constructor]. }
  assert (G2 : Forall (fun e => 0 <= fst e < page_count d) o2).
  { apply F2. intros r ops E. apply insertion_of_ok in E.
    destruct (row_changed all_prices r); [|subst ops; constructor].
    destruct E as (it & pg & txt & _ & P & _ & ->). apply page_of_range in P.
    destruct font_file; repeat (constructor; [exact P|]); constructor. }
  destruct r1 as [[]|e1].
  - exists (o1 ++ o2). split; [reflexivity|]. now apply Forall_app.
  - exists o1. split; [reflexivity|exact G1].
Qed.

(** The rows of an edited table point at prices of the scan. *)
Lemma edited_row_price doc multiplier rows edited_rows r :
  data_for_df (scan doc) multiplier = Ok rows ->
  Forall2 same_keys rows edited_rows ->
  In r edited_rows ->
  exists it pg,
    py_index (scan doc) (ID r) = Ok it
    /\ page_of (Z.of_nat (length doc)) (page it - 1) = Ok pg.
Proof.
  intros H F I. apply In_nth_error in I. destruct I as (n & E).
  destruct (forall2_nth _ _ _ F n r E) as (r0 & E0 & K & _).
  destruct (data_for_df_rows _ _ _ H n r0 E0) as (it & Ei & Id & _).
  exists it, (page it - 1). split.
  - rewrite <- K, Id. now apply py_index_nth.
  - apply scan_page. eapply nth_error_In; eauto.
Qed.

(** With a text in every cell of the edited table, a run of [main] raises
    nothing but the overflow of [round]. *)
Lemma main_raises_with_texts doc markup_percent data_editor button font_file e :
  (forall rows, Forall2 same_keys rows (data_editor rows)) ->
  main doc markup_percent data_editor button font_file = Raise e ->
  e = OverflowError.
Proof.
  intros K. unfold main. cbv zeta.
  destruct (scan doc) as [|it0 l0] eqn:S; [discriminate|]. rewrite <- S. clear S.
  destruct (data_for_df (scan doc) (markup_multiplier markup_percent))
    as [rows|x] eqn:D; cbn [bind].
  - destruct button; [|discriminate].
    rewrite generate_eq. cbv zeta. cbn [page_count].
    assert (W : fst (run (whiteout_of (scan doc) (Z.of_nat (length doc)))
                         (data_editor rows)) = Ok tt).
    { apply run_all_ok. intros r I.
      destruct (edited_row_price doc _ rows _ r D (K rows) I) as (it & pg & X & P).
      unfold whiteout_of. rewrite X. cbn [bind].
      destruct (changed r it); [rewrite P|]; eexists; reflexivity. }
    pose proof (run_raises (insertion_of font_file (scan doc) (Z.of_nat (length doc)))
                  (data_editor rows)) as J.
    destruct (run (whiteout_of (scan doc) (Z.of_nat (length doc))) (data_editor rows))
      as [r1 o1].
    cbn [fst] in W. subst r1.
    destruct (run (insertion_of font_file (scan doc) (Z.of_nat (length doc)))
                  (data_editor rows)) as [r2 o2].
    cbn [fst] in J. destruct r2 as [[]|x]; [discriminate|].
    intros [= <-]. destruct (J x eq_refl) as (r & I & R).
    destruct (edited_row_price doc _ rows _ r D (K rows) I) as (it & pg & X & P).
    unfold insertion_of in R. rewrite X in R. cbn [bind] in R.
    destruct (changed r it); [|discriminate R]. rewrite P in R. cbn [bind] in R.
    destruct (apply_markup (New_Text r) (prefix it) (currency it) f_1_0) as [txt|y] eqn:A;
      [discriminate R|].
    cbn [bind] in R. injection R as <-. exact (overflow_only _ _ _ _ _ A).
  - intros [= <-]. exact (data_for_df_raises _ _ _ D).
Qed.

(** X17 — No index is out of range in a run of [main]: when the data
    editor keeps the rows and their disabled columns, the [ID] of every
    edited row is the index of a found price and the page of that price
    is a page of the document, whatever the new texts are; so the first
    loop, which reads nothing else of a row than whether its text
    changed, ends without an exception, and [main] does not raise
    [IndexError]. *)
Theorem main_raises_no_index_error doc markup_percent data_editor button font_file :
  (forall rows, Forall2 same_keys rows (data_editor rows)) ->
  (forall rows,
     data_for_df (scan doc) (markup_multiplier markup_percent) = Ok rows ->
     (forall r, In r (data_editor rows) ->
        exists it pg,
          py_index (scan doc) (ID r) = Ok it
          /\ page_of (Z.of_nat (length doc)) (page it - 1) = Ok pg)
     /\ fst (for_each (data_editor rows) (pass1 (scan doc)) (fresh_copy doc)) = Ok tt)
  /\ main doc markup_percent data_editor button font_file <> Raise IndexError.
Proof.
  intros K. split.
  - intros rows D.
    assert (T : forall r, In r (data_editor rows) ->
              exists it pg,
                py_index (scan doc) (ID r) = Ok it
                /\ page_of (Z.of_nat (length doc)) (page it - 1) = Ok pg)
      by (intros r I; exact (edited_row_price doc _ rows _ r D (K rows) I)).
    split; [exact T|].
    rewrite (for_each_run (pass1 (scan doc)) (whiteout_of (scan doc)))
      by (intros; apply pass1_eq).
    cbn [fst fresh_copy page_count]. apply run_all_ok. intros r I.
    destruct (T r I) as (it & pg & X & P).
    unfold whiteout_of. rewrite X. cbn [bind].
    destruct (changed r it); [rewrite P|]; eexists; reflexivity.
  - intros M.
    pose proof (main_raises_with_texts doc markup_percent data_editor button
                  font_file IndexError K M) as E.
    discriminate E.
Qed.

Lemma main_raises_no_index_error_witness :
  exists rows,
    data_for_df (scan example_doc) (markup_multiplier (float_of_Z 5)) = Ok rows
    /\ fst (for_each rows (pass1 (scan example_doc)) (fresh_copy example_doc)) = Ok tt.
Proof.
  assert (D : exists rows,
            data_for_df (scan example_doc) (markup_multiplier (float_of_Z 5)) = Ok rows)
    by (vm_compute; eexists; reflexivity).
  destruct D as (rows & D). exists rows. split; [exact D|].
  exact (proj2 (proj1 (main_raises_no_index_error example_doc (float_of_Z 5)
                         (fun rows => rows) true true same_keys_refl) rows D)).
Defined.

(** X18 — The prices found in one span are redrawn at one place: they
    carry the bounding box and the origin of the span, so when two of
    them are changed the two whiteouts are the same rectangle on the
    same page, and the two new texts are inserted at the same point, in
    the same size, on that page. *)
Theorem prices_of_one_span_drawn_at_one_place
        sp page_num pattern it1 it2 font_file all_prices pc r1 r2 ops1 ops2 :
  In it1 (process_span sp page_num pattern) ->
  In it2 (process_span sp page_num pattern) ->
  py_index all_prices (ID r1) = Ok it1 ->
  py_index all_prices (ID r2) = Ok it2 ->
  changed r1 it1 = true -> changed r2 it2 = true ->
  insertion_of font_file all_prices pc r1 = Ok ops1 ->
  insertion_of font_file all_prices pc r2 = Ok ops2 ->
  whiteout_of all_prices pc r1 = whiteout_of all_prices pc r2
  /\ exists fonts pg pt size fn t1 t2,
       ops1 = fonts ++ [(pg, InsertText pt t1 size fn 0)]
       /\ ops2 = fonts ++ [(pg, InsertText pt t2 size fn 0)].
Proof.
  unfold process_span. intros H1 H2 X1 X2 C1 C2 J1 J2.
  apply in_map_iff in H1. destruct H1 as (m1 & E1 & _).
  apply in_map_iff in H2. destruct H2 as (m2 & E2 & _).
  assert (P : page it1 = page it2) by (subst it1 it2; reflexivity).
  assert (B : i_bbox it1 = i_bbox it2) by (subst it1 it2; reflexivity).
  assert (O : origin it1 = origin it2) by (subst it1 it2; reflexivity).
  assert (Z : font_size it1 = font_size it2) by (subst it1 it2; reflexivity).
  clear E1 E2. split.
  - unfold whiteout_of. rewrite X1, X2. cbn [bind]. now rewrite C1, C2, P, B.
  - unfold insertion_of in J1, J2. rewrite X1 in J1. rewrite X2 in J2.
    cbn [bind] in J1, J2. rewrite C1 in J1. rewrite C2 in J2. rewrite <- P in J2.
    destruct (page_of pc (page it1 - 1)) as [pg|]; [|discriminate J1].
    cbn [bind] in J1, J2.
    destruct (apply_markup (New_Text r1) (prefix it1) (currency it1) f_1_0) as [t1|];
      [|discriminate J1].
    destruct (apply_markup (New_Text r2) (prefix it2) (currency it2) f_1_0) as [t2|];
      [|discriminate J2].
    cbn [bind] in J1, J2. injection J1 as <-. injection J2 as <-.
    rewrite <- B, <- O, <- Z. eexists _, _, _, _, _, t1, t2. split; reflexivity.
Qed.

Lemma prices_of_one_span_drawn_at_one_place_witness :
  whiteout_of [first_price; second_price] 1
    {| ID := 0; Page := 1; Original_Text := u "10 €"; New_Text := u "11 €" |}
  = whiteout_of [first_price; second_price] 1
      {| ID := 1; Page := 1; Original_Text := u "20 €"; New_Text := u "22 €" |}.
Proof.
  refine (proj1 (prices_of_one_span_drawn_at_one_place
                   two_price_span 0 price_pattern first_price second_price true
                   [first_price; second_price] 1
                   {| ID := 0; Page := 1; Original_Text := u "10 €"; New_Text := u "11 €" |}
                   {| ID := 1; Page := 1; Original_Text := u "20 €"; New_Text := u "22 €" |}
                   _ _ _ _ _ _ _ _ _ _)).
  - rewrite two_prices_found. left. reflexivity.
  - rewrite two_prices_found. right. left. reflexivity.
  - reflexivity.
  - reflexivity.
  - vm_compute. reflexivity.
  - vm_compute. reflexivity.
  - vm_compute. reflexivity.
  - vm_compute. reflexivity.
Defined.

(** A row of the table built from a scan, and the price it was built
    from. *)
Lemma table_row_price doc multiplier rows r :
  data_for_df (scan doc) multiplier = Ok rows -> In r rows ->
  exists it pg,
    py_index (scan doc) (ID r) = Ok it
    /\ page_of (Z.of_nat (length doc)) (page it - 1) = Ok pg
    /\ no_digit (prefix it) /\ currency it = [8364%N]
    /\ apply_markup (original_text it) (prefix it) (currency it) multiplier
       = Ok (New_Text r).
Proof.
  intros H I. apply In_nth_error in I. destruct I as (n & E).
  destruct (data_for_df_rows _ _ _ H n r E) as (it & Ei & Id & _ & _ & A).
  assert (S : In it (scan doc)) by (eapply nth_error_In; eauto).
  destruct (scan_source doc it S) as (k & pg & sp & _ & _ & P).
  apply process_span_item in P. destruct P as (Np & C & _).
  exists it, (page it - 1). split; [rewrite Id; now apply py_index_nth|].
  split; [now apply scan_page|]. auto.
Qed.

(** With a multiplier that is not negative, the rows of a table that is
    not edited are drawn as they are shown. *)
Lemma unedited_rows_drawn doc m rows font_file :
  not_negative m ->
  data_for_df (scan doc) m = Ok rows ->
  fst (generate font_file (scan doc) rows (fresh_copy doc)) = Ok tt
  /\ forall x,
       In x (journal (snd (generate font_file (scan doc) rows (fresh_copy doc)))) ->
       is_text x = true ->
       exists r pt size fn,
         In r rows /\ row_changed (scan doc) r = true
         /\ snd x = InsertText pt (New_Text r) size fn 0.
Proof.
  intros M D. rewrite generate_eq. cbv zeta. unfold fresh_copy. cbn [page_count].
  assert (T : forall r, In r rows ->
            exists it pg,
              py_index (scan doc) (ID r) = Ok it
              /\ page_of (Z.of_nat (length doc)) (page it - 1) = Ok pg
              /\ (changed r it = false
                  \/ apply_markup (New_Text r) (prefix it) (currency it) f_1_0
                     = Ok (New_Text r))).
  { intros r I. destruct (table_row_price doc _ rows r D I)
      as (it & pg & X & P & Np & C & A).
    exists it, pg. split; [exact X|]. split; [exact P|].
    assert (Nc : no_digit_ahead (currency it)) by (rewrite C; reflexivity).
    destruct (not_negative_multiplier_result _ _ _ _ _ M A) as [E|(v & V & E & R)].
    - left. unfold changed. apply negb_false_iff. now apply str_eqb_eq.
    - right. rewrite E. now apply display_of_price_text. }
  assert (W : fst (run (whiteout_of (scan doc) (Z.of_nat (length doc))) rows) = Ok tt).
  { apply run_all_ok. intros r I. destruct (T r I) as (it & pg & X & P & _).
    unfold whiteout_of. rewrite X. cbn [bind].
    destruct (changed r it); [rewrite P|]; eexists; reflexivity. }
  assert (J : fst (run (insertion_of font_file (scan doc) (Z.of_nat (length doc))) rows)
              = Ok tt).
  { apply run_all_ok. intros r I. destruct (T r I) as (it & pg & X & P & A).
    unfold insertion_of. rewrite X. cbn [bind].
    destruct (changed r it); [|eexists; reflexivity].
    destruct A as [A|A]; [discriminate A|].
    rewrite P. cbn [bind]. rewrite A. eexists. reflexivity. }
  pose proof (run_forall (fun x => is_text x = false)
                (whiteout_of (scan doc) (Z.of_nat (length doc))) rows) as N1.
  pose proof (run_ops_in (insertion_of font_file (scan doc) (Z.of_nat (length doc)))
                rows) as I2.
  destruct (run (whiteout_of (scan doc) (Z.of_nat (length doc))) rows) as [r1 o1].
  cbn [fst snd] in W, N1. subst r1.
  destruct (run (insertion_of font_file (scan doc) (Z.of_nat (length doc))) rows)
    as [r2 o2].
  cbn [fst snd] in J, I2. subst r2. split; [reflexivity|].
  cbn [snd journal add_ops app]. intros x Hx Tx.
  apply in_app_or in Hx. destruct Hx as [Hx|Hx].
  - exfalso.
    assert (F : Forall (fun x => is_text x = false) o1).
    { apply N1. intros r ops E. apply whiteout_of_ok in E.
      destruct (row_changed (scan doc) r); [|subst ops; constructor].
      destruct E as (it & pg & _ & _ & ->). repeat constructor. }
    rewrite Forall_forall in F. specialize (F x Hx). congruence.
  - destruct (I2 x Hx) as (r & ops & Ir & E & Ix).
    destruct (T r Ir) as (it & pg & X & P & A).
    pose proof (insertion_of_ok _ _ _ _ _ E) as K.
    destruct (row_changed (scan doc) r) eqn:C; [|subst ops; contradiction].
    destruct K as (it' & pg' & txt & X' & _ & A' & ->).
    rewrite X in X'. injection X' as <-.
    destruct A as [A|A];
      [unfold row_changed in C; rewrite X in C; congruence|].
    rewrite A in A'. injection A' as <-.
    exists r. apply in_app_or in Ix. destruct Ix as [Ix|[<-|[]]].
    + destruct font_file; [|contradiction]. destruct Ix as [<-|[]]. discriminate Tx.
    + eexists _, _, _. split; [exact Ir|]. split; [exact C|reflexivity].
Qed.

(** The multiplier with the literals 1 and 100 as [float]s. *)
Lemma multiplier_is_sum markup_percent :
  markup_multiplier markup_percent
  = fadd (S754_finite false 4503599627370496 (-52))
         (fdiv markup_percent (S754_finite false 7036874417766400 (-46))).
Proof. reflexivity. Qed.

(** X19 — The multiplier computed from the markup entered is a number
    and is not negative, whenever the markup is a number that is not
    negative (the input field has 0.0 as its minimum). *)
Theorem markup_multiplier_not_negative markup_percent :
  not_negative markup_percent -> not_negative (markup_multiplier markup_percent).
Proof.
  intros H. rewrite multiplier_is_sum.
  now apply fadd_not_negative, fdiv_not_negative.
Qed.

Lemma markup_multiplier_not_negative_witness :
  not_negative (markup_multiplier (float_of_Z 5)).
Proof.
  apply (markup_multiplier_not_negative (float_of_Z 5)). exact I.
Defined.

(** X20 — The table generated without an edit is drawn as it is shown:
    for a markup that is not negative, a run of [main] in which the user
    changes nothing and presses the button finds no price, or raises
    [OverflowError], or generates a document in which every inserted
    text is, character for character, the new text of a changed row of
    the table built from the scan. *)
Theorem unedited_table_drawn_as_shown doc markup_percent font_file :
  not_negative markup_percent ->
  main doc markup_percent (fun rows => rows) true font_file = Ok NoPricesFound
  \/ main doc markup_percent (fun rows => rows) true font_file = Raise OverflowError
  \/ exists rows d,
       data_for_df (scan doc) (markup_multiplier markup_percent) = Ok rows
       /\ main doc markup_percent (fun rows => rows) true font_file = Ok (Generated d)
       /\ forall x,
            In x (journal d) -> is_text x = true ->
            exists r pt size fn,
              In r rows /\ row_changed (scan doc) r = true
              /\ snd x = InsertText pt (New_Text r) size fn 0.
Proof.
  intros H.
  assert (M : not_negative (markup_multiplier markup_percent))
    by (rewrite multiplier_is_sum; now apply fadd_not_negative, fdiv_not_negative).
  clear H. revert M.
  unfold main. cbv zeta.
  destruct (scan doc) as [|it0 l0] eqn:S; [now left|]. rewrite <- S. clear S.
  intros M. right.
  destruct (data_for_df (scan doc) (markup_multiplier markup_percent))
    as [rows|x] eqn:D; cbn [bind].
  - right. exists rows.
    destruct (unedited_rows_drawn doc _ rows font_file M D) as [G T].
    unfold fresh_copy in G, T.
    destruct (generate font_file (scan doc) rows
                {| page_count := Z.of_nat (length doc); journal := [] |}) as [res d].
    cbn [fst snd] in G, T. subst res. exists d. auto.
  - left. f_equal. exact (data_for_df_raises _ _ _ D).
Qed.

Lemma unedited_table_drawn_as_shown_witness :
  main example_doc (float_of_Z 5) (fun rows => rows) true true = Ok NoPricesFound
  \/ main example_doc (float_of_Z 5) (fun rows => rows) true true
     = Raise OverflowError
  \/ exists rows d,
       data_for_df (scan example_doc) (markup_multiplier (float_of_Z 5)) = Ok rows
       /\ main example_doc (float_of_Z 5) (fun rows => rows) true true
          = Ok (Generated d)
       /\ forall x,
            In x (journal d) -> is_text x = true ->
            exists r pt size fn,
              In r rows /\ row_changed (scan example_doc) r = true
              /\ snd x = InsertText pt (New_Text r) size fn 0.
Proof.
  apply (unedited_table_drawn_as_shown example_doc (float_of_Z 5) true). exact I.
Defined.
